(** * A file-backed event queue shared between an ingestion API and a processor

    Shallow embedding of [shared_queue.py] (the JSONL queue file, the
    [SharedQueue] class), of the handlers of [ingestion_api.py] ([/event],
    [/stats], [/health]) and of [processor.py] (the events table and one
    turn of the processing loop), followed by the properties the design
    document states about them and by further properties of the code.

    Conventions of the embedding:
    - a Python [str] is a list of characters; characters are the code points
      below 256;
    - Python objects are the JSON-shaped values [pyval] (floats are left out);
    - [json.dumps] and [json.loads] belong to Python's library, not to this
      repository: the code is embedded over an interface [JsonCodec], and a
      reference codec for [pyval] is given further down;
    - the operating system is a [world]: the queue file, the set of I/O
      operations that currently fail, and a clock;
    - the SQLite file is a [database]: the rows of the [events] table in
      insertion order, or no table yet;
    - code runs in one thread of one process (serialized access), so the
      advisory lock never has to wait. *)

From Stdlib Require Import Ascii String ZArith QArith Qround Lia Lqa Bool Arith.
From Stdlib Require Import Permutation Sorted List.
From Stdlib Require Decimal DecimalZ DecimalFacts.
Import ListNotations.
Close Scope Q_scope.

(** ** Python text *)

Definition str : Type := list ascii.

(** A literal: [lit "abc"] is the Python string ['abc']. *)
Definition lit (x : string) : str := list_ascii_of_string x.

Definition LF : ascii := "010"%char.
Definition CR : ascii := "013"%char.
Definition DQUOTE : ascii := "034"%char.
Definition BACKSLASH : ascii := "092"%char.

Definition str_eqb (a b : str) : bool :=
  if list_eq_dec ascii_dec a b then true else false.

(** [str.isspace] on one character, for code points below 256:
    U+0009..U+000D, U+001C..U+0020, U+0085 and U+00A0. *)
Definition isspace (c : ascii) : bool :=
  let n := nat_of_ascii c in
  ((9 <=? n) && (n <=? 13)) || ((28 <=? n) && (n <=? 32))
  || (n =? 133) || (n =? 160).

Fixpoint lstrip (t : str) : str :=
  match t with
  | [] => []
  | c :: t' => if isspace c then lstrip t' else t
  end.

Definition rstrip (t : str) : str := rev (lstrip (rev t)).

(** [t.strip()] *)
Definition strip (t : str) : str := rstrip (lstrip t).

(** Text-mode reading with universal newlines: ['\r\n'] and a lone ['\r']
    are both delivered as ['\n'].  [after_cr] records that the previous
    character was a ['\r'], whose ['\n'] has already been delivered. *)
Fixpoint translate_newlines (after_cr : bool) (t : str) : str :=
  match t with
  | [] => []
  | c :: t' =>
      if Ascii.eqb c CR then LF :: translate_newlines true t'
      else if Ascii.eqb c LF then
        (if after_cr then translate_newlines false t'
         else LF :: translate_newlines false t')
      else c :: translate_newlines false t'
  end.

(** Cutting a text into lines, every line keeping its ['\n'] (the last
    line has none when the text does not end with one). *)
Fixpoint keepends (t : str) : list str :=
  match t with
  | [] => []
  | c :: t' =>
      if Ascii.eqb c LF then [c] :: keepends t'
      else match keepends t' with
           | [] => [[c]]
           | l :: ls => (c :: l) :: ls
           end
  end.

Definition is_nil {A} (l : list A) : bool :=
  match l with [] => true | _ => false end.

(** ** Python values *)

#[warnings="-register-all"]
Inductive pyval : Type :=
  | PyNone
  | PyBool (b : bool)
  | PyInt (z : Z)
  | PyStr (t : str)
  | PyList (items : list pyval)
  | PyDict (fields : list (str * pyval)).

(** Induction on values, with the property assumed for every element of a
    list and every field of a dict. *)
Section pyval_induction.

Variable P : pyval -> Prop.
Hypothesis case_None : P PyNone.
Hypothesis case_Bool : forall b, P (PyBool b).
Hypothesis case_Int : forall z, P (PyInt z).
Hypothesis case_Str : forall t, P (PyStr t).
Hypothesis case_List : forall items, Forall P items -> P (PyList items).
Hypothesis case_Dict :
  forall fields, Forall (fun kv => P (snd kv)) fields -> P (PyDict fields).

Fixpoint pyval_induction (v : pyval) : P v :=
  match v with
  | PyNone => case_None
  | PyBool b => case_Bool b
  | PyInt z => case_Int z
  | PyStr t => case_Str t
  | PyList items =>
      case_List items
        ((fix all (l : list pyval) : Forall P l :=
            match l with
            | [] => Forall_nil P
            | x :: l' => Forall_cons x (pyval_induction x) (all l')
            end) items)
  | PyDict fields =>
      case_Dict fields
        ((fix all (l : list (str * pyval)) : Forall (fun kv => P (snd kv)) l :=
            match l with
            | [] => Forall_nil _
            | (k, x) :: l' =>
                Forall_cons (k, x) (pyval_induction x : P (snd (k, x))) (all l')
            end) fields)
  end.

End pyval_induction.

Definition is_None (v : pyval) : bool :=
  match v with PyNone => true | _ => false end.

(** A [dict] is kept as its items in insertion order. *)
Fixpoint dict_get (k : str) (d : list (str * pyval)) : option pyval :=
  match d with
  | [] => None
  | (k', v) :: d' => if str_eqb k k' then Some v else dict_get k d'
  end.

Definition dict_has (k : str) (d : list (str * pyval)) : bool :=
  match dict_get k d with Some _ => true | None => false end.

(** [d[k] = v]: an existing key keeps its place, a new key goes last. *)
Fixpoint dict_set (k : str) (v : pyval) (d : list (str * pyval))
  : list (str * pyval) :=
  match d with
  | [] => [(k, v)]
  | (k', v') :: d' =>
      if str_eqb k k' then (k, v) :: d' else (k', v') :: dict_set k v d'
  end.

Fixpoint distinct_keys (d : list (str * pyval)) : bool :=
  match d with
  | [] => true
  | (k, _) :: d' => negb (dict_has k d') && distinct_keys d'
  end.

(** The representation invariant of a value: no dict holds a key twice. *)
Fixpoint well_formed (v : pyval) : bool :=
  match v with
  | PyList items => forallb well_formed items
  | PyDict fields =>
      distinct_keys fields
      && forallb (fun kv : str * pyval => let (_, x) := kv in well_formed x) fields
  | _ => true
  end.

(** ** Exceptions and outcomes *)

Inductive exn : Type :=
  | OSError
  | JSONDecodeError
  | TypeError
  | ValueError
  | KeyError
  | AttributeError
  | BadRequest
  | Empty                      (* queue.Empty *)
  | Full                       (* queue.Full *)
  | RuntimeError (cause : exn) (* "Failed to write to queue file: {cause}" *)
  | RecursionError             (* the interpreter's recursion limit *).

Definition is_JSONDecodeError (e : exn) : bool :=
  match e with JSONDecodeError => true | _ => false end.

Inductive outcome (A : Type) : Type :=
  | Ok (a : A)
  | Raise (e : exn).
Arguments Ok {A} a.
Arguments Raise {A} e.

(** ** The [json] module, as the code uses it *)

Class JsonCodec : Type := {
  json_dumps : pyval -> str;
  json_loads : str -> outcome pyval
}.

(** ** State and exceptions *)

Definition M (S A : Type) : Type := S -> outcome A * S.

Definition ret {S A} (a : A) : M S A := fun s => (Ok a, s).

Definition raise {S A} (e : exn) : M S A := fun s => (Raise e, s).

Definition bind {S A B} (m : M S A) (k : A -> M S B) : M S B :=
  fun s =>
    match m s with
    | (Ok a, s') => k a s'
    | (Raise e, s') => (Raise e, s')
    end.

Notation "x <- m ;; k" := (bind m (fun x => k))
  (at level 61, m at next level, right associativity).
Notation "m ;;; k" := (bind m (fun _ => k))
  (at level 61, right associativity).

(** [try: m  except Exception as e: h e] *)
Definition try_except {S A} (m : M S A) (h : exn -> M S A) : M S A :=
  fun s =>
    match m s with
    | (Ok a, s') => (Ok a, s')
    | (Raise e, s') => h e s'
    end.

(** [try: m  finally: fin] *)
Definition try_finally {S A} (m : M S A) (fin : M S unit) : M S A :=
  fun s =>
    match m s with
    | (r, s') =>
        match fin s' with
        | (Ok _, s'') => (r, s'')
        | (Raise e, s'') => (Raise e, s'')
        end
    end.

(** Lifting a value-or-exception into the monad. *)
Definition of_outcome {S A} (r : outcome A) : M S A := fun s => (r, s).

(** ** The operating system *)

Inductive io_op : Type := IoOpen | IoRead | IoTruncate | IoWrite.

Definition io_op_eqb (a b : io_op) : bool :=
  match a, b with
  | IoOpen, IoOpen | IoRead, IoRead
  | IoTruncate, IoTruncate | IoWrite, IoWrite => true
  | _, _ => false
  end.

Record world : Type := {
  qfile : option str;    (* QUEUE_FILE; [None] when the path does not exist *)
  faults : list io_op;   (* the operations that fail with an I/O error *)
  clock : Q              (* seconds *)
}.

Definition fails (op : io_op) (w : world) : bool :=
  existsb (io_op_eqb op) (faults w).

Definition set_qfile (c : str) (w : world) : world :=
  {| qfile := Some c; faults := faults w; clock := clock w |}.

Definition io (A : Type) : Type := M world A.

Inductive open_mode : Type := ModeA | ModeR | ModeRPlus.

(** An open file.  The position is not tracked: reading happens once, from
    the start, and every write of the source happens at the end of the file
    (append mode, or right after [seek(0); truncate()]). *)
Record handle : Type := { mode : open_mode }.

Definition os_path_exists : io bool :=
  fun w => (Ok (match qfile w with Some _ => true | None => false end), w).

(** [open(QUEUE_FILE, mode)] *)
Definition open_ (m : open_mode) : io handle :=
  fun w =>
    if fails IoOpen w then (Raise OSError, w)
    else match qfile w, m with
         | Some _, _ => (Ok {| mode := m |}, w)
         | None, ModeA => (Ok {| mode := m |}, set_qfile [] w)
         | None, _ => (Raise OSError, w)        (* FileNotFoundError *)
         end.

(** [with open(QUEUE_FILE, mode) as f: body f] *)
Definition with_open {A} (m : open_mode) (body : handle -> io A) : io A :=
  f <- open_ m ;; body f.

(** [f.readlines()], also the lines of [for line in f] *)
Definition f_readlines (f : handle) : io (list str) :=
  fun w =>
    if fails IoRead w then (Raise OSError, w)
    else match qfile w with
         | Some c => (Ok (keepends (translate_newlines false c)), w)
         | None => (Raise OSError, w)
         end.

Definition f_seek0 (f : handle) : io unit := ret tt.

(** [f.truncate()] at position 0 *)
Definition f_truncate (f : handle) : io unit :=
  fun w =>
    if fails IoTruncate w then (Raise OSError, w)
    else (Ok tt, set_qfile [] w).

(** [f.write(t)] at the end of the file *)
Definition f_write (f : handle) (t : str) : io unit :=
  fun w =>
    if fails IoWrite w then (Raise OSError, w)
    else match qfile w with
         | Some c => (Ok tt, set_qfile (c ++ t) w)
         | None => (Raise OSError, w)
         end.

Definition f_writelines (f : handle) (lines : list str) : io unit :=
  f_write f (concat lines).

Definition f_flush (f : handle) : io unit := ret tt.

(** The clock is an ideal one: [time.sleep(d)] moves it by [d], the least
    the call may take, and no other operation moves it.  On a real clock
    a sleep may last longer and every call takes some time, so the clock
    is used below for what the program itself compares ([elapsed >=
    timeout]) and for the sleeps it asks for, never to bound from above
    the time a call takes. *)
Definition time_time : io Q := fun w => (Ok (clock w), w).

Definition time_sleep (d : Q) : io unit :=
  fun w =>
    (Ok tt, {| qfile := qfile w; faults := faults w; clock := (clock w + d)%Q |}).

(** ** Values used in the scenarios *)

Definition view_event : pyval :=
  PyDict [(lit "site_id", PyStr (lit "s1")); (lit "event_type", PyStr (lit "view"))].

Definition click_event : pyval :=
  PyDict [(lit "site_id", PyStr (lit "s1")); (lit "event_type", PyStr (lit "click"))].

Definition no_file : world := {| qfile := None; faults := []; clock := 0%Q |}.

Definition file_of (c : str) : world :=
  {| qfile := Some c; faults := []; clock := 0%Q |}.

(** ** shared_queue.py: the queue file *)

Section shared_queue.

Context {codec : JsonCodec}.

(** [fcntl.flock] on the handle; errors are swallowed.  With serialized
    access the lock is always free, so taking and releasing it changes
    nothing that the program can observe. *)
Definition _acquire_file_lock (f : handle) : io unit := ret tt.

Definition _release_file_lock (f : handle) : io unit := ret tt.

Definition _append_to_file (event_data : pyval) : io unit :=
  try_except
    (with_open ModeA (fun f =>
       _acquire_file_lock f ;;;
       try_finally
         (f_write f (json_dumps event_data ++ [LF]) ;;;
          f_flush f)
         (_release_file_lock f)))
    (fun e => raise (RuntimeError e)).

Definition _read_from_file : io pyval :=
  ex <- os_path_exists ;;
  if negb ex then ret PyNone
  else
    try_except
      (with_open ModeRPlus (fun f =>
         _acquire_file_lock f ;;;
         try_finally
           (lines <- f_readlines f ;;
            match lines with
            | [] => ret PyNone
            | line0 :: rest =>
                let first_line := strip line0 in
                if is_nil first_line then ret PyNone
                else
                  event <- of_outcome (json_loads first_line) ;;
                  f_seek0 f ;;;
                  f_truncate f ;;;
                  f_writelines f rest ;;;
                  f_flush f ;;;
                  ret event
            end)
           (_release_file_lock f)))
      (fun e =>
         if is_JSONDecodeError e then
           try_except
             (with_open ModeRPlus (fun f =>
                _acquire_file_lock f ;;;
                try_finally
                  (lines <- f_readlines f ;;
                   if negb (is_nil lines) then
                     f_seek0 f ;;;
                     f_truncate f ;;;
                     f_writelines f (tl lines) ;;;
                     f_flush f
                   else ret tt)
                  (_release_file_lock f)))
             (fun _ => ret tt) ;;;
           ret PyNone
         else ret PyNone).

Definition _count_file_lines : io nat :=
  ex <- os_path_exists ;;
  if negb ex then ret 0
  else
    try_except
      (with_open ModeR (fun f =>
         lines <- f_readlines f ;;
         ret (length (filter (fun line => negb (is_nil (strip line))) lines))))
      (fun _ => ret 0).

(** ** shared_queue.py: the class [SharedQueue] *)

(** [_in_memory_queue] is a [queue.Queue()] without a size bound; the
    attribute exists only when [use_file_directly] is false. *)
Record SharedQueue : Type := {
  use_file_directly : bool;
  _in_memory_queue : option (list pyval)
}.

(** Methods run on the object and the operating system together. *)
Definition method (A : Type) : Type := M (SharedQueue * world) A.

Definition in_world {A} (m : io A) : method A :=
  fun s =>
    match m (snd s) with
    | (r, w') => (r, (fst s, w'))
    end.

Definition self : method SharedQueue := fun s => (Ok (fst s), s).

(** [self._in_memory_queue.put(item, block, timeout)]: without a size bound
    the item is always taken, whatever [block] and [timeout] are. *)
Definition Queue_put (item : pyval) (block : bool) (timeout : option Q)
  : method unit :=
  fun s =>
    match _in_memory_queue (fst s) with
    | Some items =>
        (Ok tt, ({| use_file_directly := use_file_directly (fst s);
                    _in_memory_queue := Some (items ++ [item]) |}, snd s))
    | None => (Raise AttributeError, s)
    end.

Definition Queue_qsize : method nat :=
  fun s =>
    match _in_memory_queue (fst s) with
    | Some items => (Ok (length items), s)
    | None => (Raise AttributeError, s)
    end.

(** [for line in f: ...] of [_load_from_file] *)
Fixpoint load_lines (lines : list str) : method unit :=
  match lines with
  | [] => ret tt
  | line :: rest =>
      (let line := strip line in
       if negb (is_nil line) then
         try_except
           (event <- of_outcome (json_loads line) ;;
            Queue_put event true None)
           (fun e => if is_JSONDecodeError e then ret tt else raise e)
       else ret tt) ;;;
      load_lines rest
  end.

Definition _load_from_file : method unit :=
  ex <- in_world os_path_exists ;;
  if negb ex then ret tt
  else
    try_except
      (f <- in_world (open_ ModeR) ;;
       lines <- in_world (f_readlines f) ;;
       load_lines lines)
      (fun _ => ret tt).

(** [SharedQueue(use_file_directly)] *)
Definition __init__ (use_file_directly : bool) : io SharedQueue :=
  fun w =>
    if use_file_directly then
      (Ok {| use_file_directly := true; _in_memory_queue := None |}, w)
    else
      match _load_from_file
              ({| use_file_directly := false; _in_memory_queue := Some [] |}, w)
      with
      | (Ok _, (q, w')) => (Ok q, w')
      | (Raise e, (_, w')) => (Raise e, w')
      end.

Definition put (item : pyval) (block : bool) (timeout : option Q)
  : method unit :=
  q <- self ;;
  if use_file_directly q then in_world (_append_to_file item)
  else
    Queue_put item block timeout ;;;
    in_world (_append_to_file item).

(** One turn of the [while True] loop of [get] on the file: [Ok (Some e)]
    returns [e], [Ok None] goes round again (after the sleep). *)
Definition get_turn (block : bool) (timeout : option Q) (start_time : Q)
  : io (option pyval) :=
  event <- _read_from_file ;;
  if negb (is_None event) then ret (Some event)
  else if negb block then raise Empty
  else
    (match timeout with
     | Some t =>
         now <- time_time ;;
         let elapsed := (now - start_time)%Q in
         if Qle_bool t elapsed then raise Empty else ret tt
     | None => ret tt
     end) ;;;
    time_sleep (1 # 10) ;;;
    ret None.

(** The loop; [None] when [fuel] turns were not enough. *)
Fixpoint get_loop (fuel : nat) (block : bool) (timeout : option Q)
  (start_time : Q) (w : world) : option (outcome pyval * world) :=
  match fuel with
  | O => None
  | S fuel' =>
      match get_turn block timeout start_time w with
      | (Ok (Some event), w') => Some (Ok event, w')
      | (Ok None, w') => get_loop fuel' block timeout start_time w'
      | (Raise e, w') => Some (Raise e, w')
      end
  end.

(** [self._in_memory_queue.get(block, timeout)] with no other thread
    putting: an empty queue stays empty, so a wait without a timeout never
    ends ([None]).  With [block] set, a negative timeout raises
    [ValueError] before the queue is looked at. *)
Definition Queue_get (block : bool) (timeout : option Q)
  (s : SharedQueue * world) : option (outcome pyval * (SharedQueue * world)) :=
  match _in_memory_queue (fst s) with
  | None => Some (Raise AttributeError, s)
  | Some items =>
      let _get :=
        match items with
        | item :: items' =>
            Some (Ok item,
                  ({| use_file_directly := use_file_directly (fst s);
                      _in_memory_queue := Some items' |}, snd s))
        | [] => None
        end in
      if negb block then
        (if is_nil items then Some (Raise Empty, s) else _get)
      else match timeout with
           | None => _get
           | Some t =>
               if negb (Qle_bool 0 t) then Some (Raise ValueError, s)
               else if is_nil items then
                 Some (Raise Empty, (fst s, snd (time_sleep t (snd s))))
               else _get
           end
  end.

Definition get (fuel : nat) (block : bool) (timeout : option Q)
  (s : SharedQueue * world) : option (outcome pyval * (SharedQueue * world)) :=
  if use_file_directly (fst s) then
    match time_time (snd s) with
    | (Ok start_time, w) =>
        match get_loop fuel block timeout start_time w with
        | Some (r, w') => Some (r, (fst s, w'))
        | None => None
        end
    | (Raise e, w) => Some (Raise e, (fst s, w))
    end
  else Queue_get block timeout s.

Definition qsize : method nat :=
  q <- self ;;
  if use_file_directly q then in_world _count_file_lines
  else Queue_qsize.

Definition empty : method bool :=
  q <- self ;;
  if use_file_directly q then
    n <- in_world _count_file_lines ;; ret (n =? 0)
  else
    n <- Queue_qsize ;; ret (n =? 0).

End shared_queue.

(** ** ingestion_api.py: the [/event] handler *)

Fixpoint is_prefix (p t : str) : bool :=
  match p, t with
  | [], _ => true
  | _ :: _, [] => false
  | a :: p', b :: t' => Ascii.eqb a b && is_prefix p' t'
  end.

Fixpoint is_substring (p t : str) : bool :=
  is_prefix p t ||
  match t with
  | [] => false
  | _ :: t' => is_substring p t'
  end.

(** [k in data] for a string [k] *)
Definition py_in (k : str) (data : pyval) : outcome bool :=
  match data with
  | PyDict d => Ok (dict_has k d)
  | PyList l =>
      Ok (existsb (fun x => match x with
                            | PyStr t => str_eqb k t
                            | _ => false
                            end) l)
  | PyStr t => Ok (is_substring k t)
  | _ => Raise TypeError
  end.

(** [data[k]] for a string [k] *)
Definition py_getitem (data : pyval) (k : str) : outcome pyval :=
  match data with
  | PyDict d =>
      match dict_get k d with
      | Some v => Ok v
      | None => Raise KeyError
      end
  | _ => Raise TypeError
  end.

(** [data[k] = v] for a string [k] *)
Definition py_setitem (data : pyval) (k : str) (v : pyval) : outcome pyval :=
  match data with
  | PyDict d => Ok (PyDict (dict_set k v d))
  | _ => Raise TypeError
  end.

(** [not isinstance(v, str) or not v.strip()] *)
Definition not_nonempty_string (v : pyval) : bool :=
  match v with
  | PyStr t => is_nil (strip t)
  | _ => true
  end.

Definition validate_event {S} (data : pyval) : M S (bool * str) :=
  has_site <- of_outcome (py_in (lit "site_id") data) ;;
  if negb has_site then
    ret (false, lit "Missing required field: site_id")
  else
    site <- of_outcome (py_getitem data (lit "site_id")) ;;
    if not_nonempty_string site then
      ret (false, lit "site_id must be a non-empty string")
    else
      has_type <- of_outcome (py_in (lit "event_type") data) ;;
      if negb has_type then
        ret (false, lit "Missing required field: event_type")
      else
        type <- of_outcome (py_getitem data (lit "event_type")) ;;
        if not_nonempty_string type then
          ret (false, lit "event_type must be a non-empty string")
        else ret (true, []).

(** What Flask hands to the handler: [request.is_json], and what
    [request.get_json()] does (the parsed body, or an exception). *)
Record request : Type := {
  is_json : bool;
  get_json : outcome pyval
}.

Inductive reply : Type :=
  | Message (text : str)                  (* {"message": text} *)
  | Error (text : str)                    (* {"error": text} *)
  | ErrorOf (text : str) (e : exn)        (* {"error": f"{text}: {str(e)}"} *).

Record response : Type := {
  body : reply;
  status : nat
}.

Section ingestion_api.

Context {codec : JsonCodec}.

(** The module-level [event_queue = get_queue()] is the object of the
    state; [utcnow] is [datetime.utcnow().isoformat()] at the call. *)
Definition receive_event (utcnow : str) (req : request) : method response :=
  if negb (is_json req) then
    ret {| body := Error (lit "Content-Type must be application/json");
           status := 400 |}
  else
    try_except
      (event_data <- of_outcome (get_json req) ;;
       if is_None event_data then
         ret {| body := Error (lit "Invalid JSON: empty or malformed request body");
                status := 400 |}
       else
         v <- validate_event event_data ;;
         if negb (fst v) then
           ret {| body := Error (snd v); status := 400 |}
         else
           has_timestamp <- of_outcome (py_in (lit "timestamp") event_data) ;;
           event_data <-
             (if negb has_timestamp then
                of_outcome (py_setitem event_data (lit "timestamp")
                                       (PyStr (utcnow ++ lit "Z")))
              else ret event_data) ;;
           put event_data false None ;;;
           ret {| body := Message (lit "Event received"); status := 200 |})
      (fun e =>
         match e with
         | Full =>
             ret {| body := Error (lit "Service temporarily unavailable: queue is full");
                    status := 503 |}
         | JSONDecodeError =>
             ret {| body := ErrorOf (lit "Invalid JSON") e; status := 400 |}
         | _ =>
             ret {| body := ErrorOf (lit "Internal server error") e;
                    status := 500 |}
         end).

End ingestion_api.

(** ** A reference codec for [pyval]

    [dumps] writes what [json.dumps] writes with its default arguments
    ([ensure_ascii], separators [", "] and [": "]); [loads] reads what
    [json.loads] reads, except that a number with a fraction or an exponent
    (a float) and an escape above code point 255 are refused, since [pyval] has
    neither. *)

Module RefJson.

Definition hex_digit (n : nat) : ascii :=
  nth n (lit "0123456789abcdef") "0"%char.

Definition escape_char (c : ascii) : str :=
  if Ascii.eqb c DQUOTE then [BACKSLASH; DQUOTE]
  else if Ascii.eqb c BACKSLASH then [BACKSLASH; BACKSLASH]
  else if Ascii.eqb c LF then [BACKSLASH; "n"%char]
  else if Ascii.eqb c CR then [BACKSLASH; "r"%char]
  else if Ascii.eqb c "009"%char then [BACKSLASH; "t"%char]
  else if Ascii.eqb c "008"%char then [BACKSLASH; "b"%char]
  else if Ascii.eqb c "012"%char then [BACKSLASH; "f"%char]
  else
    let n := nat_of_ascii c in
    if (32 <=? n) && (n <=? 126) then [c]
    else [BACKSLASH; "u"%char; "0"%char; "0"%char;
          hex_digit (n / 16); hex_digit (n mod 16)].

Definition dumps_str (t : str) : str :=
  DQUOTE :: flat_map escape_char t ++ [DQUOTE].

Fixpoint uint_digits (u : Decimal.uint) : str :=
  match u with
  | Decimal.Nil => []
  | Decimal.D0 u' => "0"%char :: uint_digits u'
  | Decimal.D1 u' => "1"%char :: uint_digits u'
  | Decimal.D2 u' => "2"%char :: uint_digits u'
  | Decimal.D3 u' => "3"%char :: uint_digits u'
  | Decimal.D4 u' => "4"%char :: uint_digits u'
  | Decimal.D5 u' => "5"%char :: uint_digits u'
  | Decimal.D6 u' => "6"%char :: uint_digits u'
  | Decimal.D7 u' => "7"%char :: uint_digits u'
  | Decimal.D8 u' => "8"%char :: uint_digits u'
  | Decimal.D9 u' => "9"%char :: uint_digits u'
  end.

Definition dumps_int (z : Z) : str :=
  match Z.to_int z with
  | Decimal.Pos u => uint_digits u
  | Decimal.Neg u => "-"%char :: uint_digits u
  end.

(** [sep.join(parts)] *)
Fixpoint join (sep : str) (parts : list str) : str :=
  match parts with
  | [] => []
  | p :: ps =>
      match ps with
      | [] => p
      | _ :: _ => p ++ sep ++ join sep ps
      end
  end.

(** One member of an object, [pr] writing its value. *)
Definition member (pr : pyval -> str) (kv : str * pyval) : str :=
  let (k, x) := kv in dumps_str k ++ lit ": " ++ pr x.

Fixpoint dumps (v : pyval) : str :=
  match v with
  | PyNone => lit "null"
  | PyBool true => lit "true"
  | PyBool false => lit "false"
  | PyInt z => dumps_int z
  | PyStr t => dumps_str t
  | PyList items =>
      "["%char :: join (lit ", ") (map dumps items) ++ ["]"%char]
  | PyDict fields =>
      "{"%char :: join (lit ", ") (map (member dumps) fields) ++ ["}"%char]
  end.

(** JSON white space: space, tab, line feed, carriage return. *)
Definition is_ws (c : ascii) : bool :=
  Ascii.eqb c " "%char || Ascii.eqb c "009"%char
  || Ascii.eqb c LF || Ascii.eqb c CR.

Fixpoint skip_ws (t : str) : str :=
  match t with
  | [] => []
  | c :: t' => if is_ws c then skip_ws t' else t
  end.

Definition hex_value (c : ascii) : option nat :=
  let n := nat_of_ascii c in
  if (48 <=? n) && (n <=? 57) then Some (n - 48)
  else if (97 <=? n) && (n <=? 102) then Some (n - 87)
  else if (65 <=? n) && (n <=? 70) then Some (n - 55)
  else None.

(** The character a one-letter escape stands for. *)
Definition unescape (e : ascii) : option ascii :=
  if Ascii.eqb e DQUOTE then Some DQUOTE
  else if Ascii.eqb e BACKSLASH then Some BACKSLASH
  else if Ascii.eqb e "/"%char then Some "/"%char
  else if Ascii.eqb e "b"%char then Some "008"%char
  else if Ascii.eqb e "f"%char then Some "012"%char
  else if Ascii.eqb e "n"%char then Some LF
  else if Ascii.eqb e "r"%char then Some CR
  else if Ascii.eqb e "t"%char then Some "009"%char
  else None.

Definition push {A B} (a : A) (r : option (list A * B)) : option (list A * B) :=
  match r with
  | Some (l, rest) => Some (a :: l, rest)
  | None => None
  end.

(** The characters of a string, read after its opening quote, and the
    text after its closing quote. *)
Fixpoint parse_chars (t : str) : option (str * str) :=
  match t with
  | [] => None
  | c :: t1 =>
      if Ascii.eqb c DQUOTE then Some ([], t1)
      else if Ascii.eqb c BACKSLASH then
        match t1 with
        | [] => None
        | e :: t2 =>
            match unescape e with
            | Some x => push x (parse_chars t2)
            | None =>
                if Ascii.eqb e "u"%char then
                  match t2 with
                  | h1 :: h2 :: h3 :: h4 :: t3 =>
                      match hex_value h1, hex_value h2,
                            hex_value h3, hex_value h4 with
                      | Some a, Some b, Some c', Some d =>
                          if (a =? 0) && (b =? 0) then
                            push (ascii_of_nat (16 * c' + d)) (parse_chars t3)
                          else None
                      | _, _, _, _ => None
                      end
                  | _ => None
                  end
                else None
            end
        end
      else if nat_of_ascii c <? 32 then None
      else push c (parse_chars t1)
  end.

Definition digit_of (c : ascii) : option (Decimal.uint -> Decimal.uint) :=
  if Ascii.eqb c "0"%char then Some Decimal.D0
  else if Ascii.eqb c "1"%char then Some Decimal.D1
  else if Ascii.eqb c "2"%char then Some Decimal.D2
  else if Ascii.eqb c "3"%char then Some Decimal.D3
  else if Ascii.eqb c "4"%char then Some Decimal.D4
  else if Ascii.eqb c "5"%char then Some Decimal.D5
  else if Ascii.eqb c "6"%char then Some Decimal.D6
  else if Ascii.eqb c "7"%char then Some Decimal.D7
  else if Ascii.eqb c "8"%char then Some Decimal.D8
  else if Ascii.eqb c "9"%char then Some Decimal.D9
  else None.

Fixpoint take_digits (t : str) : Decimal.uint * str :=
  match t with
  | [] => (Decimal.Nil, [])
  | c :: t' =>
      match digit_of c with
      | Some d => let (u, rest) := take_digits t' in (d u, rest)
      | None => (Decimal.Nil, t)
      end
  end.

(** Whether a number that stops here is an integer: a ['.'] or an
    exponent mark would continue it into a float. *)
Definition ends_integer (rest : str) : bool :=
  match rest with
  | [] => true
  | c :: _ => negb (Ascii.eqb c "."%char || Ascii.eqb c "e"%char
                    || Ascii.eqb c "E"%char)
  end.

(** An optional minus sign. *)
Definition split_sign (t : str) : bool * str :=
  match t with
  | c :: t1 => if Ascii.eqb c "-"%char then (true, t1) else (false, t)
  | [] => (false, t)
  end.

Definition parse_int (t : str) : option (pyval * str) :=
  let (negative, t') := split_sign t in
  let (u, rest) := take_digits t' in
  match u with
  | Decimal.Nil => None
  | _ =>
      if Decimal.uint_eq_dec (Decimal.unorm u) u then
        if ends_integer rest then
          Some (PyInt (Z.of_int (if negative then Decimal.Neg u
                                 else Decimal.Pos u)), rest)
        else None
      else None
  end.

(** [word] expected at the head of [t]. *)
Definition expect {A} (word : str) (a : A) (t : str) : option (A * str) :=
  if is_prefix word t then Some (a, skipn (length word) t) else None.

(** The elements of an array after the first has been found to start:
    [value (, value)* ]], with [pv] reading one value. *)
Fixpoint parse_items (pv : str -> option (pyval * str)) (k : nat) (t : str)
  : option (list pyval * str) :=
  match k with
  | O => None
  | S k' =>
      match pv t with
      | None => None
      | Some (v, r) =>
          match skip_ws r with
          | c :: r' =>
              if Ascii.eqb c ","%char then push v (parse_items pv k' (skip_ws r'))
              else if Ascii.eqb c "]"%char then Some ([v], r')
              else None
          | [] => None
          end
      end
  end.

(** The members of an object: ["key" : value (, "key" : value)* }]. *)
Fixpoint parse_members (pv : str -> option (pyval * str)) (k : nat) (t : str)
  : option (list (str * pyval) * str) :=
  match k with
  | O => None
  | S k' =>
      match t with
      | q :: t1 =>
          if Ascii.eqb q DQUOTE then
            match parse_chars t1 with
            | None => None
            | Some (key, r0) =>
                match skip_ws r0 with
                | colon :: r1 =>
                    if Ascii.eqb colon ":"%char then
                      match pv (skip_ws r1) with
                      | None => None
                      | Some (v, r) =>
                          match skip_ws r with
                          | c :: r' =>
                              if Ascii.eqb c ","%char then
                                push (key, v) (parse_members pv k' (skip_ws r'))
                              else if Ascii.eqb c "}"%char then
                                Some ([(key, v)], r')
                              else None
                          | [] => None
                          end
                      end
                    else None
                | [] => None
                end
            end
          else None
      | [] => None
      end
  end.

(** [dict(pairs)]: a repeated key keeps its first place and its last value. *)
Definition dict_of_pairs (pairs : list (str * pyval)) : list (str * pyval) :=
  fold_left (fun d kv => dict_set (fst kv) (snd kv) d) pairs [].

Fixpoint parse_value (fuel : nat) (t : str) : option (pyval * str) :=
  match fuel with
  | O => None
  | S n =>
      match t with
      | [] => None
      | c :: t' =>
          if Ascii.eqb c DQUOTE then
            match parse_chars t' with
            | Some (x, r) => Some (PyStr x, r)
            | None => None
            end
          else if Ascii.eqb c "["%char then
            match skip_ws t' with
            | c1 :: r1 =>
                if Ascii.eqb c1 "]"%char then Some (PyList [], r1)
                else
                  match parse_items (parse_value n) (length t') (skip_ws t') with
                  | Some (l, r) => Some (PyList l, r)
                  | None => None
                  end
            | [] => None
            end
          else if Ascii.eqb c "{"%char then
            match skip_ws t' with
            | c1 :: r1 =>
                if Ascii.eqb c1 "}"%char then Some (PyDict [], r1)
                else
                  match parse_members (parse_value n) (length t') (skip_ws t') with
                  | Some (l, r) => Some (PyDict (dict_of_pairs l), r)
                  | None => None
                  end
            | [] => None
            end
          else if Ascii.eqb c "n"%char then expect (lit "null") PyNone t
          else if Ascii.eqb c "t"%char then expect (lit "true") (PyBool true) t
          else if Ascii.eqb c "f"%char then expect (lit "false") (PyBool false) t
          else parse_int t
      end
  end.

Definition loads (t : str) : outcome pyval :=
  match parse_value (S (length t)) (skip_ws t) with
  | Some (v, r) =>
      if is_nil (skip_ws r) then Ok v else Raise JSONDecodeError
  | None => Raise JSONDecodeError
  end.

(** The characters [dumps] writes: space to tilde. *)
Definition printable (c : ascii) : bool :=
  (32 <=? nat_of_ascii c) && (nat_of_ascii c <=? 126).

(** What can follow a value inside the text of an enclosing value:
    nothing, or one of [,], []] and [}]. *)
Definition delimited (rest : str) : bool :=
  match rest with
  | [] => true
  | c :: _ => Ascii.eqb c ","%char || Ascii.eqb c "]"%char
              || Ascii.eqb c "}"%char
  end.

(** How deep lists and dicts are nested in a value. *)
Fixpoint depth (v : pyval) : nat :=
  match v with
  | PyList items => S (list_max (map depth items))
  | PyDict fields =>
      S (list_max (map (fun kv : str * pyval => let (_, x) := kv in depth x)
                       fields))
  | _ => 0
  end.

End RefJson.

Definition ref_codec : JsonCodec :=
  {| json_dumps := RefJson.dumps; json_loads := RefJson.loads |}.

(** ** Notions used in the statements *)

(** The text of the queue file, empty when there is no file. *)
Definition content (w : world) : str :=
  match qfile w with Some c => c | None => [] end.

(** The lines [f.readlines()] delivers for a file holding [c]. *)
Definition lines_of (c : str) : list str :=
  keepends (translate_newlines false c).

(** What the code relies on from [json]: a value written by [dumps] is
    read back by [loads]; the text of a value holds no line break, is not
    empty, and neither starts nor ends with white space. *)
Record json_laws (codec : JsonCodec) : Prop := {
  loads_dumps :
    forall v, well_formed v = true -> json_loads (json_dumps v) = Ok v;
  dumps_one_line :
    forall v, ~ In LF (json_dumps v) /\ ~ In CR (json_dumps v);
  dumps_stripped :
    forall v, strip (json_dumps v) = json_dumps v;
  dumps_nonempty :
    forall v, json_dumps v <> []
}.
Arguments loads_dumps {codec} _ v _.
Arguments dumps_one_line {codec} _ v.
Arguments dumps_stripped {codec} _ v.
Arguments dumps_nonempty {codec} _ v.

Section runs.

Context {codec : JsonCodec}.

(** The file text of a sequence of records, one line each. *)
Definition encode_lines (rs : list pyval) : str :=
  flat_map (fun r => json_dumps r ++ [LF]) rs.

(** [_append_to_file] on each record in turn. *)
Fixpoint append_all (rs : list pyval) (w : world)
  : list (outcome unit) * world :=
  match rs with
  | [] => ([], w)
  | r :: rs' =>
      let (o, w1) := _append_to_file r w in
      let (os, w2) := append_all rs' w1 in
      (o :: os, w2)
  end.

(** [n] calls of [_read_from_file] in a row. *)
Fixpoint pop_n (n : nat) (w : world) : list (outcome pyval) * world :=
  match n with
  | O => ([], w)
  | S n' =>
      let (o, w1) := _read_from_file w in
      let (os, w2) := pop_n n' w1 in
      (o :: os, w2)
  end.

(** What a line of the file contributes when the file is replayed:
    its value when it parses, nothing when it is blank or malformed. *)
Definition line_value (line : str) : option pyval :=
  if is_nil (strip line) then None
  else match json_loads (strip line) with
       | Ok v => Some v
       | Raise _ => None
       end.

(** A line that [json.loads] refuses with [JSONDecodeError]. *)
Definition malformed (line : str) : Prop :=
  strip line <> [] /\ json_loads (strip line) = Raise JSONDecodeError.

(** The concrete scenario of the design document: two appends, then
    pop, count, pop, count, pop.  What each call gives, in order. *)
Record observations : Type := {
  append1 : outcome unit;
  append2 : outcome unit;
  pop1 : outcome pyval;
  count1 : outcome nat;
  pop2 : outcome pyval;
  count2 : outcome nat;
  pop3 : outcome pyval
}.

Definition scenario (w0 : world) : observations :=
  let (a1, w1) := _append_to_file view_event w0 in
  let (a2, w2) := _append_to_file click_event w1 in
  let (p1, w3) := _read_from_file w2 in
  let (c1, w4) := _count_file_lines w3 in
  let (p2, w5) := _read_from_file w4 in
  let (c2, w6) := _count_file_lines w5 in
  let (p3, _) := _read_from_file w6 in
  {| append1 := a1; append2 := a2; pop1 := p1; count1 := c1;
     pop2 := p2; count2 := c2; pop3 := p3 |}.

(** A queue file line by line: a record written by the code, or some other
    text. *)
Definition entry_text (e : pyval + str) : str :=
  match e with
  | inl r => json_dumps r ++ [LF]
  | inr other => other ++ [LF]
  end.

Definition entries_text (es : list (pyval + str)) : str :=
  flat_map entry_text es.

Fixpoint records_of (es : list (pyval + str)) : list pyval :=
  match es with
  | [] => []
  | inl r :: es' => r :: records_of es'
  | inr _ :: es' => records_of es'
  end.

Fixpoint others_of (es : list (pyval + str)) : list str :=
  match es with
  | [] => []
  | inl _ :: es' => others_of es'
  | inr t :: es' => t :: others_of es'
  end.

(** A line that is not a record: one line of text that is blank or that
    [json.loads] refuses with [JSONDecodeError]. *)
Definition skipped_line (t : str) : Prop :=
  ~ In LF t /\ ~ In CR t /\
  (strip t = [] \/ json_loads (strip t) = Raise JSONDecodeError).

Definition entry_ok (e : pyval + str) : Prop :=
  match e with
  | inl r => well_formed r = true
  | inr t => skipped_line t
  end.

(** What the scenario must show. *)
Definition expected_observations : observations :=
  {| append1 := Ok tt; append2 := Ok tt;
     pop1 := Ok view_event; count1 := Ok 1;
     pop2 := Ok click_event; count2 := Ok 0;
     pop3 := Ok PyNone |}.

(** What [get] lets its caller see: the value or the exception. *)
Definition signal {S} (r : option (outcome pyval * S)) : option (outcome pyval) :=
  match r with
  | Some (o, _) => Some o
  | None => None
  end.

End runs.

(** The two objects [get_queue] builds: the processor's reader ... *)
Definition consumer_queue : SharedQueue :=
  {| use_file_directly := true; _in_memory_queue := None |}.

(** ... and the API's buffer, here holding [items]. *)
Definition producer_queue (items : list pyval) : SharedQueue :=
  {| use_file_directly := false; _in_memory_queue := Some items |}.

(** An event the handler accepts: [validate_event] returns [(True, "")]. *)
Definition accepted (data : pyval) : bool :=
  match @validate_event unit data tt with
  | (Ok (true, _), _) => true
  | _ => false
  end.

(** A truncated record: the first 20 characters of a full one. *)
Definition truncated_record : str := firstn 20 (RefJson.dumps view_event).

(** Concrete files, worlds and requests on the reference codec. *)
Definition two_records : str := @encode_lines ref_codec [view_event; click_event].

Definition blank_then_record : str :=
  lit "  " ++ [LF] ++ RefJson.dumps view_event ++ [LF].

Definition write_fails : world :=
  {| qfile := Some []; faults := [IoWrite]; clock := 0%Q |}.

Definition mixed_entries : list (pyval + str) :=
  [inl view_event; inr truncated_record; inr (lit "   "); inl click_event].

Definition view_request : request :=
  {| is_json := true; get_json := Ok view_event |}.

(** ** Runs of the queue object *)

(** The text of some lines, each closed by a line feed. *)
Definition text_lines (ls : list str) : str :=
  flat_map (fun l => l ++ [LF]) ls.

Section queue_runs.

Context {codec : JsonCodec}.

(** [put] of each item in turn, with [block=False] as the API calls it. *)
Fixpoint put_all (xs : list pyval) (s : SharedQueue * world)
  : list (outcome unit) * (SharedQueue * world) :=
  match xs with
  | [] => ([], s)
  | x :: xs' =>
      let (o, s1) := put x false None s in
      let (os, s2) := put_all xs' s1 in
      (o :: os, s2)
  end.

(** [n] calls of [get] in a row, each with [fuel] polls at most; [None]
    when one of them does not come back. *)
Fixpoint get_n (n fuel : nat) (block : bool) (timeout : option Q)
  (s : SharedQueue * world)
  : option (list (outcome pyval) * (SharedQueue * world)) :=
  match n with
  | O => Some ([], s)
  | S n' =>
      match get fuel block timeout s with
      | None => None
      | Some (o, s1) =>
          match get_n n' fuel block timeout s1 with
          | None => None
          | Some (os, s2) => Some (o :: os, s2)
          end
      end
  end.

End queue_runs.

(** The world after [k] sleeps of a tenth of a second. *)
Fixpoint slept (k : nat) (w : world) : world :=
  match k with
  | O => w
  | S k' => slept k' (snd (time_sleep (1 # 10) w))
  end.

(** ** ingestion_api.py: the [/health] handler *)


Section health_api.

Context {codec : JsonCodec}.


End health_api.

(** A field that holds a string with something other than white space
    in it. *)
Definition nonblank_string (v : option pyval) : bool :=
  match v with
  | Some (PyStr t) => negb (is_nil (strip t))
  | _ => false
  end.

(** The record the handler enqueues for an accepted object: the object
    itself when it has a ['timestamp'], the object with one added last
    otherwise. *)
Definition stamped (utcnow : str) (fields : list (str * pyval)) : pyval :=
  if dict_has (lit "timestamp") fields then PyDict fields
  else PyDict (fields ++ [(lit "timestamp", PyStr (utcnow ++ lit "Z"))]).

(** The bodies that are not objects and on which [validate_event] raises
    [TypeError]: a number or a boolean (no [in]), a list that holds
    ['site_id'] or a string that contains it (no index by name). *)
Definition body_raises_TypeError (data : pyval) : bool :=
  match data with
  | PyInt _ | PyBool _ => true
  | PyList l =>
      existsb (fun x => match x with
                        | PyStr t => str_eqb (lit "site_id") t
                        | _ => false
                        end) l
  | PyStr t => is_substring (lit "site_id") t
  | _ => false
  end.

(** ** The events table

    [processor.py] and [ingestion_api.py] share one SQLite file with one
    table, [events].  SQLite is not part of the repository: the table is
    embedded as the list of its rows in insertion order, with the column
    rules the [CREATE TABLE] statement of [init_database] sets (every
    column of TEXT affinity, [site_id] and [event_type] NOT NULL).  The [id]
    column and the log lines are left out. *)

Record event_row : Type := {
  row_site_id : str;
  row_event_type : str;
  row_path : option str;
  row_user_id : option str;
  row_timestamp : option str
}.

Record database : Type := {
  events : option (list event_row);  (* [None] while the table does not exist *)
  sqlite_fails : bool                (* every SQLite call raises [sqlite3.Error] *)
}.

Inductive sqlite_result (A : Type) : Type :=
  | Done (a : A)
  | SqliteError.
Arguments Done {A} a.
Arguments SqliteError {A}.

Inductive sql_value : Type :=
  | SqlNull
  | SqlInteger (z : Z)
  | SqlText (t : str).

(** How [sqlite3] binds a Python value to a [?]: [None] when it refuses the
    value (a list, a dict, an integer that does not fit 64 bits). *)
Definition bind_param (v : pyval) : option sql_value :=
  match v with
  | PyNone => Some SqlNull
  | PyBool b => Some (SqlInteger (if b then 1 else 0))
  | PyInt z =>
      if ((- 2 ^ 63 <=? z) && (z <? 2 ^ 63))%Z then Some (SqlInteger z)
      else None
  | PyStr t => Some (SqlText t)
  | PyList _ | PyDict _ => None
  end.

(** What a column of TEXT affinity stores: an integer becomes its decimal
    text. *)
Definition as_text (v : sql_value) : option str :=
  match v with
  | SqlNull => None
  | SqlInteger z => Some (RefJson.dumps_int z)
  | SqlText t => Some t
  end.

Definition stored (v : pyval) : option (option str) :=
  match bind_param v with
  | Some x => Some (as_text x)
  | None => None
  end.

Definition sqlite3_connect (db : database) : sqlite_result unit :=
  if sqlite_fails db then SqliteError else Done tt.

(** [INSERT INTO events (site_id, event_type, path, user_id, timestamp)
    VALUES (?, ?, ?, ?, ?)], committed. *)
Definition execute_insert (site_id event_type path user_id timestamp : pyval)
  (db : database) : sqlite_result database :=
  match events db, stored site_id, stored event_type,
        stored path, stored user_id, stored timestamp with
  | Some rows, Some (Some s), Some (Some t), Some p, Some u, Some ts =>
      Done {| events := Some (rows ++ [{| row_site_id := s;
                                          row_event_type := t;
                                          row_path := p;
                                          row_user_id := u;
                                          row_timestamp := ts |}]);
              sqlite_fails := sqlite_fails db |}
  | _, _, _, _, _, _ => SqliteError
  end.

(** ** processor.py *)

(** [data.get(k)] *)
Definition py_get (data : pyval) (k : str) : outcome pyval :=
  match data with
  | PyDict d =>
      Ok (match dict_get k d with Some v => v | None => PyNone end)
  | _ => Raise AttributeError
  end.

Definition insert_event (event_data : pyval) (db : database)
  : bool * database :=
  match sqlite3_connect db with
  | SqliteError => (false, db)
  | Done _ =>
      match py_get event_data (lit "site_id"),
            py_get event_data (lit "event_type"),
            py_get event_data (lit "path"),
            py_get event_data (lit "user_id"),
            py_get event_data (lit "timestamp") with
      | Ok site_id, Ok event_type, Ok path, Ok user_id, Ok timestamp =>
          match execute_insert site_id event_type path user_id timestamp db with
          | Done db' => (true, db')
          | SqliteError => (false, db)
          end
      | _, _, _, _, _ => (false, db)
      end
  end.

Definition process_event (event_data : pyval) (db : database)
  : bool * database :=
  match py_in (lit "site_id") event_data with
  | Raise _ => (false, db)
  | Ok has_site_id =>
      if negb has_site_id then (false, db)
      else
        match py_in (lit "event_type") event_data with
        | Raise _ => (false, db)
        | Ok has_event_type =>
            if negb has_event_type then (false, db)
            else insert_event event_data db
        end
  end.

(** [if v:] *)
Definition truthy (v : pyval) : bool :=
  match v with
  | PyNone => false
  | PyBool b => b
  | PyInt z => negb (z =? 0)%Z
  | PyStr t => negb (is_nil t)
  | PyList l => negb (is_nil l)
  | PyDict d => negb (is_nil d)
  end.

Section processor.

Context {codec : JsonCodec}.

(** [queue.Queue.task_done] belongs to Python's library and needs a count
    this embedding does not carry; [task_done] of [SharedQueue] reaches it
    only on the in-memory side. *)
Variable Queue_task_done : method unit.

Definition task_done : method unit :=
  q <- self ;;
  if negb (use_file_directly q) then Queue_task_done else ret tt.

(** One turn of the [while True] loop of [run_processor], on the state of
    the queue and of the database; [None] when [get] has not come back
    within [fuel] polls. *)
Definition processor_turn (fuel : nat) (s : SharedQueue * world)
  (db : database) : option ((SharedQueue * world) * database) :=
  match get fuel true (Some 1%Q) s with
  | None => None
  | Some (Raise Empty, s1) => Some (s1, db)
  | Some (Raise _, s1) =>
      Some ((fst s1, snd (time_sleep 1 (snd s1))), db)
  | Some (Ok event_data, s1) =>
      if truthy event_data then
        let (success, db') := process_event event_data db in
        match task_done s1 with
        | (Ok _, s2) => Some (s2, db')
        | (Raise _, s2) => Some ((fst s2, snd (time_sleep 1 (snd s2))), db')
        end
      else Some (s1, db)
  end.

(** [turns] turns in a row. *)
Fixpoint processor_turns (turns fuel : nat) (s : SharedQueue * world)
  (db : database) : option ((SharedQueue * world) * database) :=
  match turns with
  | O => Some (s, db)
  | S turns' =>
      match processor_turn fuel s db with
      | None => None
      | Some (s1, db1) => processor_turns turns' fuel s1 db1
      end
  end.

End processor.

(** The row an event is stored as, when it can be stored. *)
Definition row_of_event (event_data : pyval) : option event_row :=
  match py_get event_data (lit "site_id"),
        py_get event_data (lit "event_type"),
        py_get event_data (lit "path"),
        py_get event_data (lit "user_id"),
        py_get event_data (lit "timestamp") with
  | Ok a, Ok b, Ok c, Ok d, Ok e =>
      match stored a, stored b, stored c, stored d, stored e with
      | Some (Some s), Some (Some t), Some p, Some u, Some ts =>
          Some {| row_site_id := s; row_event_type := t; row_path := p;
                  row_user_id := u; row_timestamp := ts |}
      | _, _, _, _, _ => None
      end
  | _, _, _, _, _ => None
  end.

(** ** ingestion_api.py: the [/stats] handler *)

Definition ascii_lower (c : ascii) : ascii :=
  let n := nat_of_ascii c in
  if (65 <=? n) && (n <=? 90) then ascii_of_nat (n + 32) else c.

(** [text LIKE pattern] of SQLite: [%] stands for any run of characters,
    [_] for any one character, and ASCII letters match in either case. *)
Fixpoint sql_like (pattern : str) : str -> bool :=
  match pattern with
  | [] => fun text => is_nil text
  | c :: pattern' =>
      if Ascii.eqb c "%"%char then
        fix any (text : str) : bool :=
          sql_like pattern' text ||
          match text with
          | [] => false
          | _ :: text' => any text'
          end
      else if Ascii.eqb c "_"%char then
        fun text =>
          match text with
          | [] => false
          | _ :: text' => sql_like pattern' text'
          end
      else
        fun text =>
          match text with
          | [] => false
          | d :: text' =>
              Ascii.eqb (ascii_lower c) (ascii_lower d)
              && sql_like pattern' text'
          end
  end.

(** The rows [cursor.fetchall()] returns: [path], [user_id], [timestamp]. *)
Definition fetched : Type := option str * option str * option str.

(** [SELECT path, user_id, timestamp FROM events WHERE site_id = ?], with
    [AND timestamp LIKE ?] when a pattern is given; rows come in
    insertion order. *)
Definition select_events (site_id : str) (date_pattern : option str)
  (db : database) : sqlite_result (list fetched) :=
  match events db with
  | None => SqliteError
  | Some rows =>
      Done (map (fun r => (row_path r, row_user_id r, row_timestamp r))
              (filter (fun r =>
                         str_eqb (row_site_id r) site_id &&
                         match date_pattern with
                         | None => true
                         | Some pattern =>
                             match row_timestamp r with
                             | Some ts => sql_like pattern ts
                             | None => false
                             end
                         end) rows))
  end.

(** [if text:] on a column value *)
Definition text_truthy (v : option str) : bool :=
  match v with
  | Some (_ :: _) => true
  | _ => false
  end.

(** [s.add(x)] on a set kept as the list of its elements *)
Definition set_add (x : str) (s : list str) : list str :=
  if existsb (str_eqb x) s then s else s ++ [x].

(** [d[k] = d.get(k, 0) + 1] on a dict kept as its items in insertion
    order *)
Fixpoint count_add (k : str) (d : list (str * nat)) : list (str * nat) :=
  match d with
  | [] => [(k, 1)]
  | (k', n) :: d' =>
      if str_eqb k k' then (k', S n) :: d' else (k', n) :: count_add k d'
  end.

(** [sorted(items, key=lambda x: x[1], reverse=True)]: descending by
    count, items of equal count in their original order. *)
Fixpoint insert_by_count (x : str * nat) (l : list (str * nat))
  : list (str * nat) :=
  match l with
  | [] => [x]
  | y :: l' =>
      if snd y <? snd x then x :: y :: l' else y :: insert_by_count x l'
  end.

Definition sorted_by_count (l : list (str * nat)) : list (str * nat) :=
  fold_left (fun acc x => insert_by_count x acc) l [].

Definition unique_user_ids (rows : list fetched) : list str :=
  fold_left (fun s row =>
               match row with
               | (_, Some user_id, _) =>
                   if text_truthy (Some user_id) then set_add user_id s else s
               | _ => s
               end) rows [].

Definition path_counts (rows : list fetched) : list (str * nat) :=
  fold_left (fun d row =>
               match row with
               | (Some path, _, _) =>
                   if text_truthy (Some path) then count_add path d else d
               | _ => d
               end) rows [].

Record stats : Type := {
  stats_site_id : str;
  stats_date : option str;
  total_views : nat;
  unique_users : nat;
  top_paths : list (str * nat)
}.

Inductive stats_reply : Type :=
  | Stats (s : stats)
  | StatsError (text : str).

Record stats_response : Type := {
  stats_body : stats_reply;
  stats_status : nat
}.

(** [request.args.get('site_id')] and [request.args.get('date')] *)
Record stats_args : Type := {
  arg_site_id : option str;
  arg_date : option str
}.

Section stats_api.

(** Whether [datetime.strptime(date, '%Y-%m-%d')] returns; it belongs to
    Python's library. *)
Variable strptime_ok : str -> bool.

Definition get_stats (args : stats_args) (db : database) : stats_response :=
  if negb (text_truthy (arg_site_id args)) then
    {| stats_body := StatsError (lit "Missing required parameter: site_id");
       stats_status := 400 |}
  else
    let site_id := match arg_site_id args with Some t => t | None => [] end in
    let date := if text_truthy (arg_date args) then arg_date args else None in
    if match date with Some d => negb (strptime_ok d) | None => false end then
      {| stats_body := StatsError (lit "Invalid date format. Expected YYYY-MM-DD");
         stats_status := 400 |}
    else
      match sqlite3_connect db with
      | SqliteError =>
          {| stats_body := StatsError (lit "Database error");
             stats_status := 500 |}
      | Done _ =>
          match select_events site_id
                  (match date with
                   | Some d => Some (d ++ lit "%")
                   | None => None
                   end) db with
          | SqliteError =>
              {| stats_body := StatsError (lit "Database error");
                 stats_status := 500 |}
          | Done rows =>
              if is_nil rows then
                {| stats_body := Stats {| stats_site_id := site_id;
                                          stats_date := date;
                                          total_views := 0;
                                          unique_users := 0;
                                          top_paths := [] |};
                   stats_status := 200 |}
              else
                {| stats_body :=
                     Stats {| stats_site_id := site_id;
                              stats_date := date;
                              total_views := length rows;
                              unique_users := length (unique_user_ids rows);
                              top_paths :=
                                firstn 3 (sorted_by_count (path_counts rows)) |};
                   stats_status := 200 |}
          end
      end.

End stats_api.

(** ** Notions used in the statements about [/stats] *)

(** The count a dict of counts holds for a key, 0 when the key is absent. *)
Fixpoint count_of (k : str) (d : list (str * nat)) : nat :=
  match d with
  | [] => 0
  | (k', n) :: d' => if str_eqb k k' then n else count_of k d'
  end.

(** The number of fetched rows whose [path] is [p]. *)
Definition path_views (rows : list fetched) (p : str) : nat :=
  length (filter (fun row : fetched =>
                    match row with
                    | (Some q, _, _) => str_eqb q p
                    | _ => false
                    end) rows).

(** The [user_id] column of the fetched rows. *)
Definition user_ids (rows : list fetched) : list (option str) :=
  map (fun row : fetched => match row with (_, u, _) => u end) rows.

(** The step of the loop that counts paths. *)
Definition count_path (d : list (str * nat)) (row : fetched)
  : list (str * nat) :=
  match row with
  | (Some path, _, _) =>
      if text_truthy (Some path) then count_add path d else d
  | _ => d
  end.

(** The step of the loop that collects user ids. *)
Definition collect_user (s : list str) (row : fetched) : list str :=
  match row with
  | (_, Some user_id, _) =>
      if text_truthy (Some user_id) then set_add user_id s else s
  | _ => s
  end.

(** The date the handler filters by, and the [LIKE] pattern it builds. *)
Definition date_of (args : stats_args) : option str :=
  if text_truthy (arg_date args) then arg_date args else None.

Definition date_pattern (args : stats_args) : option str :=
  match date_of args with
  | Some d => Some (d ++ lit "%")
  | None => None
  end.

(** [a] comes before [b] in a list sorted by count, largest first. *)
Definition no_fewer_views (a b : str * nat) : Prop := snd b <= snd a.

(** The rows of the table that belong to a site. *)
Definition rows_of_site (site_id : str) (rows : list event_row)
  : list event_row :=
  filter (fun r => str_eqb (row_site_id r) site_id) rows.

(** A character that [LIKE] takes literally and in one case only: not
    [%], not [_], not an ASCII letter. *)
Definition literal_char (c : ascii) : bool :=
  let n := nat_of_ascii c in
  negb (Ascii.eqb c "%"%char) && negb (Ascii.eqb c "_"%char)
  && negb ((65 <=? n) && (n <=? 90)) && negb ((97 <=? n) && (n <=? 122)).

(** ** More concrete values *)


(** A codec with the limit of CPython 3.11 on the digits of an integer:
    [json.loads] of more than 4300 digits raises a plain [ValueError]. *)
Definition is_digit (c : ascii) : bool :=
  let n := nat_of_ascii c in (48 <=? n) && (n <=? 57).

Definition int_limit_codec : JsonCodec :=
  {| json_dumps := RefJson.dumps;
     json_loads := fun t =>
       if (4300 <? length t) && forallb is_digit t then Raise ValueError
       else RefJson.loads t |}.

Definition long_number : str := repeat "1"%char 4301.

(** A codec with CPython's recursion limit (1000 by default): [json.loads]
    of a text that opens 1000 arrays or more before anything else raises
    [RecursionError], whether the arrays are closed further on or not. *)
Fixpoint opening_run (t : str) : nat :=
  match t with
  | c :: t' => if Ascii.eqb c "["%char then S (opening_run t') else 0
  | [] => 0
  end.

Definition nesting_limit_codec : JsonCodec :=
  {| json_dumps := RefJson.dumps;
     json_loads := fun t =>
       if 1000 <=? opening_run t then Raise RecursionError
       else RefJson.loads t |}.

(** A line of 2000 opening brackets: not JSON, and beyond the limit. *)
Definition deep_line : str := repeat "["%char 2000.

Definition deep_line_then_records : str := deep_line ++ [LF] ++ two_records.

Definition deep_line_entries : list (pyval + str) :=
  [inl view_event; inr deep_line; inl click_event].

Definition number_request : request :=
  {| is_json := true; get_json := Ok (PyInt 5) |}.

(** An event the handler accepts and SQLite cannot store. *)
Definition list_path_fields : list (str * pyval) :=
  [(lit "site_id", PyStr (lit "s1")); (lit "event_type", PyStr (lit "view"));
   (lit "path", PyList [])].

Definition list_path_request : request :=
  {| is_json := true; get_json := Ok (PyDict list_path_fields) |}.

Definition view_fields : list (str * pyval) :=
  [(lit "site_id", PyStr (lit "s1")); (lit "event_type", PyStr (lit "view"))].

(** A [task_done] of the library that returns. *)
Definition task_done_returns : method unit := ret tt.

(** The shape [YYYY-MM-DD], standing for [strptime]. *)
Definition date_shape (d : str) : bool :=
  match d with
  | [y1; y2; y3; y4; d1; m1; m2; d2; a1; a2] =>
      forallb is_digit [y1; y2; y3; y4; m1; m2; a1; a2]
      && Ascii.eqb d1 "-"%char && Ascii.eqb d2 "-"%char
  | _ => false
  end.

Definition sample_rows : list event_row :=
  [ {| row_site_id := lit "s1"; row_event_type := lit "view";
       row_path := Some (lit "/home"); row_user_id := Some (lit "u1");
       row_timestamp := Some (lit "2025-11-12T10:00:00Z") |};
    {| row_site_id := lit "s1"; row_event_type := lit "view";
       row_path := Some (lit "/about"); row_user_id := Some (lit "u1");
       row_timestamp := Some (lit "2025-11-13T09:00:00Z") |};
    {| row_site_id := lit "s2"; row_event_type := lit "view";
       row_path := Some (lit "/about"); row_user_id := Some (lit "u3");
       row_timestamp := Some (lit "2025-11-12T10:30:00Z") |};
    {| row_site_id := lit "s1"; row_event_type := lit "view";
       row_path := Some (lit "/home"); row_user_id := Some (lit "u2");
       row_timestamp := Some (lit "2025-11-12T11:00:00Z") |};
    {| row_site_id := lit "s1"; row_event_type := lit "click";
       row_path := None; row_user_id := None; row_timestamp := None |} ].

Definition sample_db : database :=
  {| events := Some sample_rows; sqlite_fails := false |}.

Definition s1_args : stats_args :=
  {| arg_site_id := Some (lit "s1"); arg_date := None |}.

Definition s1_stats : stats :=
  {| stats_site_id := lit "s1"; stats_date := None;
     total_views := 4; unique_users := 2;
     top_paths := [(lit "/home", 2); (lit "/about", 1)] |}.

Definition view_row : event_row :=
  {| row_site_id := lit "s1"; row_event_type := lit "view";
     row_path := None; row_user_id := None; row_timestamp := None |}.

Definition click_row : event_row :=
  {| row_site_id := lit "s1"; row_event_type := lit "click";
     row_path := None; row_user_id := None; row_timestamp := None |}.

Definition stamped_view_row : event_row :=
  {| row_site_id := lit "s1"; row_event_type := lit "view";
     row_path := None; row_user_id := None;
     row_timestamp := Some (lit "2025-11-12T19:30:01Z") |}.

Definition empty_table : database := {| events := Some []; sqlite_fails := false |}.

(** * Properties *)

(** ** Lines of a text *)

Lemma concat_keepends (t : str) : concat (keepends t) = t.
Proof.
  induction t as [|c t IH]; simpl; [reflexivity|].
  destruct (Ascii.eqb c LF).
  - simpl. now rewrite IH.
  - destruct (keepends t) as [|l ls]; simpl in *.
    + now rewrite <- IH.
    + now rewrite <- IH.
Qed.

(** Writing back the lines after the first and reading again gives those
    same lines. *)
Lemma keepends_rest (t : str) (l : str) (ls : list str) :
  keepends t = l :: ls -> keepends (concat ls) = ls.
Proof.
  revert l ls. induction t as [|c t IH]; simpl; intros l ls H.
  - discriminate.
  - destruct (Ascii.eqb c LF).
    + injection H as _ <-. now rewrite concat_keepends.
    + destruct (keepends t) as [|l' ls'] eqn:E.
      * injection H as _ <-. reflexivity.
      * injection H as _ <-. eapply IH. reflexivity.
Qed.

Lemma keepends_line (l t : str) :
  ~ In LF l -> keepends (l ++ LF :: t) = (l ++ [LF]) :: keepends t.
Proof.
  induction l as [|c l IH]; simpl; intros H.
  - reflexivity.
  - destruct (Ascii.eqb_spec c LF) as [->|_].
    + exfalso. apply H. now left.
    + rewrite IH by (intros F; apply H; now right). reflexivity.
Qed.

Lemma translate_newlines_no_CR (t : str) :
  ~ In CR t -> translate_newlines false t = t.
Proof.
  induction t as [|c t IH]; simpl; intros H; [reflexivity|].
  destruct (Ascii.eqb_spec c CR) as [->|_].
  - exfalso. apply H. now left.
  - rewrite IH by (intros F; apply H; now right).
    now destruct (Ascii.eqb_spec c LF) as [->|_].
Qed.

Lemma lstrip_snoc (t : str) (c : ascii) :
  isspace c = true ->
  lstrip (t ++ [c]) = match lstrip t with [] => [] | _ :: _ => lstrip t ++ [c] end.
Proof.
  intros Hc. induction t as [|a t IH]; simpl.
  - now rewrite Hc.
  - destruct (isspace a); [exact IH | reflexivity].
Qed.

Lemma rstrip_snoc (t : str) (c : ascii) :
  isspace c = true -> rstrip (t ++ [c]) = rstrip t.
Proof.
  intros Hc. unfold rstrip. rewrite rev_app_distr. simpl. now rewrite Hc.
Qed.

(** [strip] does not see a trailing white-space character, such as the
    line feed that ends a line. *)
Lemma strip_snoc (t : str) (c : ascii) :
  isspace c = true -> strip (t ++ [c]) = strip t.
Proof.
  intros Hc. unfold strip. rewrite lstrip_snoc by exact Hc.
  destruct (lstrip t) as [|a t'] eqn:E; [reflexivity|].
  now rewrite rstrip_snoc.
Qed.

Lemma isspace_LF : isspace LF = true.
Proof. reflexivity. Qed.

Lemma lstrip_all_space (t : str) :
  forallb isspace t = true -> lstrip t = [].
Proof.
  induction t as [|c t IH]; simpl; [reflexivity|].
  destruct (isspace c); simpl; [exact IH | discriminate].
Qed.

Lemma strip_all_space (t : str) :
  forallb isspace t = true -> strip t = [].
Proof.
  intros H. unfold strip. now rewrite lstrip_all_space.
Qed.

(** ** The queue file, for any codec *)

Ltac run :=
  cbv [_read_from_file _append_to_file _count_file_lines
       bind ret raise try_except try_finally with_open of_outcome
       os_path_exists open_ f_readlines f_seek0 f_truncate f_write
       f_writelines f_flush _acquire_file_lock _release_file_lock
       time_time time_sleep
       set_qfile qfile faults clock negb is_JSONDecodeError is_None].

Section queue_file.

Context {codec : JsonCodec}.

(** A healthy append adds exactly one line at the end of the file. *)
Lemma append_healthy (v : pyval) (w : world) :
  faults w = [] ->
  _append_to_file v w = (Ok tt, set_qfile (content w ++ json_dumps v ++ [LF]) w).
Proof.
  intros H. destruct w as [f fl ck]. simpl in H. subst fl.
  unfold content. run. now destruct f.
Qed.

(** An append raises nothing but [RuntimeError], and then leaves the
    file as it was, except that a missing file may have been created. *)
Lemma append_raises (v : pyval) (w w' : world) (e : exn) :
  _append_to_file v w = (Raise e, w') ->
  (exists cause, e = RuntimeError cause) /\ content w' = content w.
Proof.
  destruct w as [f fl ck]. unfold content. run.
  destruct (fails IoOpen _); [intros [= <- <-]; eauto|].
  destruct f as [c|]; simpl.
  - destruct (fails IoWrite _); [intros [= <- <-]; eauto | discriminate].
  - destruct (fails IoWrite _); [intros [= <- <-]; eauto | discriminate].
Qed.

Lemma read_absent (w : world) :
  qfile w = None -> _read_from_file w = (Ok PyNone, w).
Proof.
  intros H. destruct w as [f fl ck]. simpl in H. subst f. reflexivity.
Qed.

Lemma count_absent (w : world) :
  qfile w = None -> _count_file_lines w = (Ok 0, w).
Proof.
  intros H. destruct w as [f fl ck]. simpl in H. subst f. reflexivity.
Qed.

(** Neither function lets an exception out. *)
Lemma read_never_raises (w w' : world) (e : exn) :
  _read_from_file w <> (Raise e, w').
Proof.
  destruct w as [f fl ck]. run. destruct f as [c|]; [|discriminate].
  destruct (fails IoOpen _); [discriminate|].
  destruct (fails IoRead _); [discriminate|].
  destruct (keepends _) as [|line0 rest]; [discriminate|].
  destruct (is_nil (strip line0)); [discriminate|].
  destruct (json_loads (strip line0)) as [v|e0].
  - destruct (fails IoTruncate _); [discriminate|].
    destruct (fails IoWrite _); discriminate.
  - destruct e0; try discriminate.
    simpl. destruct (fails IoOpen _); [discriminate|].
    destruct (fails IoRead _); [discriminate|].
    destruct (is_nil _); [discriminate|].
    destruct (fails IoTruncate _); [discriminate|].
    destruct (fails IoWrite _); discriminate.
Qed.

Lemma count_never_raises (w w' : world) (e : exn) :
  _count_file_lines w <> (Raise e, w').
Proof.
  destruct w as [f fl ck]. run. destruct f as [c|]; [|discriminate].
  destruct (fails IoOpen _); [discriminate|].
  destruct (fails IoRead _); discriminate.
Qed.

(** A healthy pop of a first line that parses: the value is returned and
    the file keeps the other lines. *)
Lemma read_healthy (w : world) (c line0 : str) (rest : list str) (v : pyval) :
  faults w = [] ->
  qfile w = Some c ->
  lines_of c = line0 :: rest ->
  strip line0 <> [] ->
  json_loads (strip line0) = Ok v ->
  _read_from_file w = (Ok v, set_qfile (concat rest) w).
Proof.
  intros Hf Hq Hl Hs Hv. destruct w as [f fl ck]. simpl in Hf, Hq. subst.
  unfold lines_of in Hl. run. simpl. rewrite Hl.
  destruct (strip line0) eqn:E; [contradiction|]. simpl.
  rewrite Hv. reflexivity.
Qed.

(** A healthy pop of a first line that does not parse: nothing is
    returned and the line is dropped. *)
Lemma read_malformed (w : world) (c line0 : str) (rest : list str) :
  faults w = [] ->
  qfile w = Some c ->
  lines_of c = line0 :: rest ->
  strip line0 <> [] ->
  json_loads (strip line0) = Raise JSONDecodeError ->
  _read_from_file w = (Ok PyNone, set_qfile (concat rest) w).
Proof.
  intros Hf Hq Hl Hs Hv. destruct w as [f fl ck]. simpl in Hf, Hq. subst.
  unfold lines_of in Hl. run. simpl. rewrite Hl.
  destruct (strip line0) eqn:E; [contradiction|]. simpl.
  rewrite Hv. simpl. rewrite Hl. reflexivity.
Qed.

(** A first line of white space stops the pop before anything is
    parsed or written, whatever the state of the disk. *)
Lemma read_blank (w : world) (c line0 : str) (rest : list str) :
  qfile w = Some c ->
  lines_of c = line0 :: rest ->
  strip line0 = [] ->
  _read_from_file w = (Ok PyNone, w).
Proof.
  intros Hq Hl Hs. destruct w as [f fl ck]. simpl in Hq. subst.
  unfold lines_of in Hl. run.
  destruct (fails IoOpen _); [reflexivity|].
  destruct (fails IoRead _); [reflexivity|].
  rewrite Hl, Hs. reflexivity.
Qed.

Lemma read_no_lines (w : world) (c : str) :
  qfile w = Some c -> lines_of c = [] -> _read_from_file w = (Ok PyNone, w).
Proof.
  intros Hq Hl. destruct w as [f fl ck]. simpl in Hq. subst.
  unfold lines_of in Hl. run.
  destruct (fails IoOpen _); [reflexivity|].
  destruct (fails IoRead _); [reflexivity|].
  rewrite Hl. reflexivity.
Qed.

(** When [json.loads] raises anything but [JSONDecodeError], the outer
    handler returns [None] and the line stays where it is. *)
Lemma read_other_exception (w : world) (c line0 : str) (rest : list str)
  (e : exn) :
  qfile w = Some c ->
  lines_of c = line0 :: rest ->
  strip line0 <> [] ->
  json_loads (strip line0) = Raise e ->
  is_JSONDecodeError e = false ->
  _read_from_file w = (Ok PyNone, w).
Proof.
  intros Hq Hl Hs Hv He. destruct w as [f fl ck]. simpl in Hq. subst.
  unfold lines_of in Hl. run.
  destruct (fails IoOpen _); [reflexivity|].
  destruct (fails IoRead _); [reflexivity|].
  rewrite Hl. destruct (strip line0) eqn:E; [contradiction|]. simpl.
  rewrite Hv. now destruct e.
Qed.

(** What a pop that returns a value has done. *)
Lemma read_returns (w w' : world) (v : pyval) :
  _read_from_file w = (Ok v, w') ->
  v <> PyNone ->
  exists c line0 rest,
    qfile w = Some c /\ lines_of c = line0 :: rest /\
    strip line0 <> [] /\ json_loads (strip line0) = Ok v /\
    w' = set_qfile (concat rest) w.
Proof.
  destruct w as [f fl ck]. unfold lines_of. run.
  destruct f as [c|]; [|intros [= <- _] F; contradiction].
  destruct (fails IoOpen _); [intros [= <- _] F; contradiction|].
  destruct (fails IoRead _); [intros [= <- _] F; contradiction|].
  destruct (keepends _) as [|line0 rest] eqn:El;
    [intros [= <- _] F; contradiction|].
  destruct (strip line0) as [|a t] eqn:Es; simpl;
    [intros [= <- _] F; contradiction|].
  destruct (json_loads (a :: t)) as [v0|e0] eqn:Ev.
  - destruct (fails IoTruncate _); [intros [= <- _] F; contradiction|].
    destruct (fails IoWrite _); [intros [= <- _] F; contradiction|].
    simpl. intros [= <- <-] _.
    exists c, line0, rest. rewrite Es.
    repeat split; try assumption; try reflexivity. discriminate.
  - intros H F. exfalso. revert H.
    destruct e0; simpl; try (intros [= <- _]; contradiction).
    destruct (fails IoOpen _); [intros [= <- _]; contradiction|].
    destruct (fails IoRead _); [intros [= <- _]; contradiction|].
    destruct (is_nil _); [intros [= <- _]; contradiction|].
    destruct (fails IoTruncate _); [intros [= <- _]; contradiction|].
    destruct (fails IoWrite _); intros [= <- _]; contradiction.
Qed.

End queue_file.

(** ** Records written by the code itself *)

Section encoded.

Context {codec : JsonCodec}.
Hypothesis laws : json_laws codec.

Lemma encode_no_CR (rs : list pyval) : ~ In CR (encode_lines rs).
Proof.
  induction rs as [|r rs IH]; simpl; [tauto|].
  rewrite !in_app_iff. simpl. intros [[H|[H|[]]]|H].
  - now apply (dumps_one_line laws r).
  - discriminate.
  - now apply IH.
Qed.

Lemma lines_of_encode (rs : list pyval) :
  lines_of (encode_lines rs) = map (fun r => json_dumps r ++ [LF]) rs.
Proof.
  unfold lines_of. rewrite translate_newlines_no_CR by apply encode_no_CR.
  induction rs as [|r rs IH]; simpl; [reflexivity|].
  rewrite <- app_assoc. simpl.
  rewrite keepends_line by apply (dumps_one_line laws r).
  now rewrite IH.
Qed.

Lemma concat_record_lines (rs : list pyval) :
  concat (map (fun r => json_dumps r ++ [LF]) rs) = encode_lines rs.
Proof. unfold encode_lines. now rewrite flat_map_concat_map. Qed.

Lemma strip_record_line (r : pyval) :
  strip (json_dumps r ++ [LF]) = json_dumps r.
Proof.
  rewrite strip_snoc by apply isspace_LF. apply (dumps_stripped laws).
Qed.

(** Popping a file of records returns the first and leaves the others. *)
Lemma pop_encoded (r : pyval) (rs : list pyval) (w : world) :
  faults w = [] ->
  qfile w = Some (encode_lines (r :: rs)) ->
  well_formed r = true ->
  _read_from_file w = (Ok r, set_qfile (encode_lines rs) w).
Proof.
  intros Hf Hq Hwf.
  rewrite <- concat_record_lines.
  apply (read_healthy w (encode_lines (r :: rs)) (json_dumps r ++ [LF]));
    try assumption.
  - now rewrite lines_of_encode.
  - rewrite strip_record_line. apply (dumps_nonempty laws).
  - rewrite strip_record_line. now apply (loads_dumps laws).
Qed.

Lemma count_encoded (rs : list pyval) (w : world) :
  faults w = [] ->
  qfile w = Some (encode_lines rs) ->
  _count_file_lines w = (Ok (length rs), w).
Proof.
  intros Hf Hq. destruct w as [f fl ck]. simpl in *. subst.
  run. simpl. fold (lines_of (encode_lines rs)). rewrite lines_of_encode.
  do 2 f_equal.
  induction rs as [|r rs IH]; simpl; [reflexivity|].
  rewrite strip_record_line.
  destruct (json_dumps r) eqn:E; [now apply (dumps_nonempty laws) in E|].
  simpl. now rewrite IH.
Qed.

Lemma append_encoded (r : pyval) (rs : list pyval) (w : world) :
  faults w = [] ->
  content w = encode_lines rs ->
  _append_to_file r w = (Ok tt, set_qfile (encode_lines (rs ++ [r])) w).
Proof.
  intros Hf Hc. rewrite append_healthy by assumption.
  rewrite Hc. unfold encode_lines. rewrite flat_map_app. simpl.
  now rewrite app_nil_r.
Qed.

Lemma append_all_encoded (rs pre : list pyval) (w : world) :
  faults w = [] ->
  content w = encode_lines pre ->
  append_all rs w =
    (map (fun _ => Ok tt) rs,
     match rs with
     | [] => w
     | _ :: _ => set_qfile (encode_lines (pre ++ rs)) w
     end).
Proof.
  revert pre w. induction rs as [|r rs IH]; intros pre w Hf Hc; simpl.
  - reflexivity.
  - rewrite (append_encoded r pre w) by assumption.
    rewrite (IH (pre ++ [r])); [|assumption | reflexivity].
    rewrite <- app_assoc. simpl. now destruct rs.
Qed.

Lemma pop_n_encoded (rs : list pyval) (w : world) :
  faults w = [] ->
  qfile w = Some (encode_lines rs) ->
  Forall (fun r => well_formed r = true) rs ->
  pop_n (length rs) w =
    (map Ok rs, match rs with [] => w | _ :: _ => set_qfile [] w end).
Proof.
  revert w. induction rs as [|r rs IH]; intros w Hf Hq Hwf; simpl.
  - reflexivity.
  - inversion Hwf as [|? ? Hr Hrs]; subst.
    rewrite (pop_encoded r rs w) by assumption.
    rewrite IH; try assumption; try reflexivity.
    now destruct rs.
Qed.

End encoded.

(** ** Dicts *)

Lemma str_eqb_eq (a b : str) : str_eqb a b = true <-> a = b.
Proof.
  unfold str_eqb. destruct (list_eq_dec ascii_dec a b); split; congruence.
Qed.

Lemma str_eqb_refl (a : str) : str_eqb a a = true.
Proof. now apply str_eqb_eq. Qed.

Lemma str_eqb_neq (a b : str) : str_eqb a b = false <-> a <> b.
Proof.
  unfold str_eqb. destruct (list_eq_dec ascii_dec a b); split; congruence.
Qed.

Lemma dict_has_false (k : str) (d : list (str * pyval)) :
  dict_has k d = false <-> ~ In k (map fst d).
Proof.
  unfold dict_has. induction d as [|[k' v] d IH]; simpl.
  - tauto.
  - destruct (str_eqb k k') eqn:E.
    + apply str_eqb_eq in E. subst. split; [discriminate | tauto].
    + apply str_eqb_neq in E. rewrite IH. split; [intros H [F|F] | tauto].
      * congruence.
      * contradiction.
Qed.

Lemma distinct_keys_NoDup (d : list (str * pyval)) :
  distinct_keys d = true <-> NoDup (map fst d).
Proof.
  induction d as [|[k v] d IH]; simpl.
  - split; [constructor | reflexivity].
  - rewrite andb_true_iff, negb_true_iff, dict_has_false, IH. split.
    + intros [H1 H2]. now constructor.
    + intros H. inversion H. now split.
Qed.

Lemma dict_set_fresh (k : str) (v : pyval) (d : list (str * pyval)) :
  dict_has k d = false -> dict_set k v d = d ++ [(k, v)].
Proof.
  unfold dict_has. induction d as [|[k' v'] d IH]; simpl; [reflexivity|].
  destruct (str_eqb k k'); [discriminate|]. intros H. now rewrite IH.
Qed.

Lemma dict_set_present (k : str) (v : pyval) (d : list (str * pyval)) :
  dict_has k (dict_set k v d) = true.
Proof.
  unfold dict_has. induction d as [|[k' v'] d IH]; simpl.
  - now rewrite str_eqb_refl.
  - destruct (str_eqb k k') eqn:E; simpl.
    + now rewrite str_eqb_refl.
    + now rewrite E.
Qed.

(** ** The reference codec obeys the laws *)

Module RefJsonFacts.
Import RefJson.

Lemma parse_chars_escape (c : ascii) (s : str) :
  parse_chars (escape_char c ++ s) = push c (parse_chars s).
Proof. destruct c as [[] [] [] [] [] [] [] []]; reflexivity. Qed.

Lemma parse_chars_dumps (t rest : str) :
  parse_chars (flat_map escape_char t ++ DQUOTE :: rest) = Some (t, rest).
Proof.
  induction t as [|c t IH]; simpl.
  - reflexivity.
  - rewrite <- app_assoc, parse_chars_escape, IH. reflexivity.
Qed.

Lemma escape_char_printable (c : ascii) :
  forallb printable (escape_char c) = true.
Proof. destruct c as [[] [] [] [] [] [] [] []]; reflexivity. Qed.

Lemma take_digits_uint (u : Decimal.uint) (rest : str) :
  delimited rest = true ->
  take_digits (uint_digits u ++ rest) = (u, rest).
Proof.
  intros Hd. induction u; simpl; try (rewrite IHu; reflexivity).
  destruct rest as [|c rest]; [reflexivity|].
  simpl in Hd. unfold take_digits, digit_of.
  destruct (Ascii.eqb_spec c ","%char) as [->|_]; [reflexivity|].
  destruct (Ascii.eqb_spec c "]"%char) as [->|_]; [reflexivity|].
  destruct (Ascii.eqb_spec c "}"%char) as [->|_]; [reflexivity|].
  discriminate.
Qed.

Lemma delimited_ends_integer (rest : str) :
  delimited rest = true -> ends_integer rest = true.
Proof.
  destruct rest as [|c rest]; [reflexivity|]. simpl.
  destruct (Ascii.eqb_spec c ","%char) as [->|_]; [reflexivity|].
  destruct (Ascii.eqb_spec c "]"%char) as [->|_]; [reflexivity|].
  destruct (Ascii.eqb_spec c "}"%char) as [->|_]; [reflexivity|].
  discriminate.
Qed.

Lemma to_int_norm (z : Z) : Decimal.norm (Z.to_int z) = Z.to_int z.
Proof. rewrite <- DecimalZ.to_of. now rewrite DecimalZ.of_to. Qed.

Lemma unorm_fixed_not_Nil (u : Decimal.uint) :
  Decimal.unorm u = u -> u <> Decimal.Nil.
Proof. intros H ->. discriminate. Qed.

(** The digits [Z.to_int] produces are already normal. *)
Lemma to_int_digits (z : Z) (u : Decimal.uint) :
  Z.to_int z = Decimal.Pos u \/ Z.to_int z = Decimal.Neg u ->
  Decimal.unorm u = u.
Proof.
  intros [H|H]; pose proof (to_int_norm z) as N; rewrite H in N; simpl in N.
  - now injection N.
  - unfold Decimal.unorm.
    destruct (Decimal.nzhead u) eqn:E; try discriminate;
      injection N as N; now rewrite N.
Qed.

Lemma parse_int_dumps (z : Z) (rest : str) :
  delimited rest = true ->
  parse_int (dumps_int z ++ rest) = Some (PyInt z, rest).
Proof.
  intros Hd. unfold dumps_int, parse_int.
  destruct (Z.to_int z) as [u|u] eqn:E.
  - assert (Hn : Decimal.unorm u = u) by (apply (to_int_digits z); now left).
    pose proof (unorm_fixed_not_Nil u Hn) as Hnil.
    replace (split_sign (uint_digits u ++ rest))
      with (false, uint_digits u ++ rest)
      by (destruct u; try reflexivity; contradiction).
    rewrite take_digits_uint by assumption.
    destruct (Decimal.uint_eq_dec (Decimal.unorm u) u); [|contradiction].
    rewrite delimited_ends_integer by assumption.
    rewrite <- E, DecimalZ.of_to. now destruct u.
  - assert (Hn : Decimal.unorm u = u) by (apply (to_int_digits z); now right).
    pose proof (unorm_fixed_not_Nil u Hn) as Hnil.
    replace (split_sign (("-"%char :: uint_digits u) ++ rest))
      with (true, uint_digits u ++ rest) by reflexivity.
    rewrite take_digits_uint by assumption.
    destruct (Decimal.uint_eq_dec (Decimal.unorm u) u); [|contradiction].
    rewrite delimited_ends_integer by assumption.
    rewrite <- E, DecimalZ.of_to. now destruct u.
Qed.

Lemma lstrip_head (c : ascii) (t : str) :
  isspace c = false -> lstrip (c :: t) = c :: t.
Proof. intros H. simpl. now rewrite H. Qed.

Lemma strip_fixed (c d : ascii) (t u : str) :
  isspace c = false -> isspace d = false ->
  c :: t = u ++ [d] -> strip (c :: t) = c :: t.
Proof.
  intros Hc Hd E. unfold strip. rewrite lstrip_head by assumption.
  unfold rstrip. rewrite E, rev_app_distr. simpl. rewrite Hd.
  simpl. now rewrite rev_involutive.
Qed.

Lemma uint_digits_printable (u : Decimal.uint) :
  forallb (fun c => printable c && negb (isspace c)) (uint_digits u) = true.
Proof. induction u; simpl; auto. Qed.

Lemma uint_digits_not_nil (u : Decimal.uint) :
  u <> Decimal.Nil -> uint_digits u <> [].
Proof. destruct u; simpl; intros H; try discriminate. contradiction. Qed.

Lemma to_int_not_Nil (z : Z) (u : Decimal.uint) :
  Z.to_int z = Decimal.Pos u \/ Z.to_int z = Decimal.Neg u ->
  u <> Decimal.Nil.
Proof. intros H. apply unorm_fixed_not_Nil. now apply (to_int_digits z). Qed.

(** The text of a value ends with a character that is not white space. *)
Lemma dumps_last (v : pyval) :
  exists u d, dumps v = u ++ [d] /\ isspace d = false.
Proof.
  destruct v as [|b|z|t|items|fields].
  - exists (lit "nul"), "l"%char. now split.
  - destruct b; [exists (lit "tru"), "e"%char | exists (lit "fals"), "e"%char];
      now split.
  - simpl. unfold dumps_int.
    destruct (Z.to_int z) as [u|u] eqn:E.
    + assert (Hn : u <> Decimal.Nil) by (apply (to_int_not_Nil z); now left).
      destruct (exists_last (uint_digits_not_nil u Hn)) as (s & d & Hs).
      exists s, d. split; [assumption|].
      pose proof (uint_digits_printable u) as Hp. rewrite Hs in Hp.
      rewrite forallb_app in Hp. simpl in Hp.
      destruct (isspace d); [|reflexivity].
      rewrite !andb_false_r in Hp. discriminate.
    + assert (Hn : u <> Decimal.Nil) by (apply (to_int_not_Nil z); now right).
      destruct (exists_last (uint_digits_not_nil u Hn)) as (s & d & Hs).
      exists ("-"%char :: s), d. split; [simpl; now rewrite Hs|].
      pose proof (uint_digits_printable u) as Hp. rewrite Hs in Hp.
      rewrite forallb_app in Hp. simpl in Hp.
      destruct (isspace d); [|reflexivity].
      rewrite !andb_false_r in Hp. discriminate.
  - exists (DQUOTE :: flat_map escape_char t), DQUOTE. now split.
  - eexists _, "]"%char. simpl. split; [|reflexivity].
    rewrite app_comm_cons. reflexivity.
  - eexists _, "}"%char. simpl. split; [|reflexivity].
    rewrite app_comm_cons. reflexivity.
Qed.

(** The text of a value starts with a character that is neither white
    space nor a closing bracket. *)
Lemma dumps_head (v : pyval) :
  exists c t, dumps v = c :: t /\ isspace c = false /\ is_ws c = false
              /\ Ascii.eqb c "]"%char = false /\ Ascii.eqb c "}"%char = false.
Proof.
  destruct v as [|b|z|t|items|fields]; simpl.
  - eexists _, _. repeat split.
  - destruct b; eexists _, _; repeat split.
  - unfold dumps_int. destruct (Z.to_int z) as [u|u] eqn:E.
    + assert (Hn : u <> Decimal.Nil) by (apply (to_int_not_Nil z); now left).
      destruct u; try contradiction; eexists _, _; repeat split.
    + eexists _, _; repeat split.
  - eexists _, _; repeat split.
  - eexists _, _; repeat split.
  - eexists _, _; repeat split.
Qed.

Lemma ref_dumps_nonempty (v : pyval) : dumps v <> [].
Proof. destruct (dumps_head v) as (c & t & -> & _). discriminate. Qed.

Lemma ref_dumps_stripped (v : pyval) : strip (dumps v) = dumps v.
Proof.
  destruct (dumps_head v) as (c & t & E & Hc & _).
  destruct (dumps_last v) as (u & d & E' & Hd).
  rewrite E. apply (strip_fixed c d t u); try assumption. now rewrite <- E.
Qed.

Lemma skip_ws_dumps (v : pyval) (rest : str) :
  skip_ws (dumps v ++ rest) = dumps v ++ rest.
Proof.
  destruct (dumps_head v) as (c & t & -> & _ & Hc & _). simpl. now rewrite Hc.
Qed.

Lemma forallb_join (P : ascii -> bool) (sep : str) (parts : list str) :
  forallb P sep = true ->
  Forall (fun p => forallb P p = true) parts ->
  forallb P (join sep parts) = true.
Proof.
  intros Hsep H. induction H as [|p ps Hp Hps IH]; [reflexivity|].
  simpl. destruct ps as [|q ps]; [assumption|].
  rewrite !forallb_app, Hp, Hsep. exact IH.
Qed.

Lemma dumps_str_printable (t : str) : forallb printable (dumps_str t) = true.
Proof.
  unfold dumps_str. simpl. rewrite forallb_app. simpl. rewrite andb_true_r.
  induction t as [|c t IH]; [reflexivity|].
  simpl. now rewrite forallb_app, escape_char_printable.
Qed.

Lemma dumps_int_printable (z : Z) : forallb printable (dumps_int z) = true.
Proof.
  assert (H : forall u, forallb printable (uint_digits u) = true).
  { intros u. pose proof (uint_digits_printable u) as Hu.
    rewrite forallb_forall in *. intros c Hc.
    specialize (Hu c Hc). now apply andb_true_iff in Hu. }
  unfold dumps_int. destruct (Z.to_int z); simpl; now rewrite H.
Qed.

(** Everything [dumps] writes lies between space and tilde. *)
Lemma dumps_printable (v : pyval) : forallb printable (dumps v) = true.
Proof.
  induction v as [|b|z|t|items IH|fields IH] using pyval_induction.
  - reflexivity.
  - now destruct b.
  - apply dumps_int_printable.
  - apply dumps_str_printable.
  - simpl. rewrite forallb_app. simpl. rewrite andb_true_r.
    apply forallb_join; [reflexivity|].
    rewrite Forall_map. exact IH.
  - simpl. rewrite forallb_app. simpl. rewrite andb_true_r.
    apply forallb_join; [reflexivity|].
    rewrite Forall_map. eapply Forall_impl; [|exact IH].
    intros [k x] Hx. simpl in Hx. unfold member.
    now rewrite !forallb_app, dumps_str_printable, Hx.
Qed.

Lemma ref_dumps_one_line (v : pyval) : ~ In LF (dumps v) /\ ~ In CR (dumps v).
Proof.
  pose proof (dumps_printable v) as H. rewrite forallb_forall in H.
  split; intros F; apply H in F; discriminate.
Qed.

Lemma join_cons2 (sep p q : str) (ps : list str) :
  join sep (p :: q :: ps) = p ++ sep ++ join sep (q :: ps).
Proof. reflexivity. Qed.

Lemma length_join (sep : str) (parts : list str) :
  Forall (fun p => p <> []) parts -> length parts <= length (join sep parts).
Proof.
  intros H. induction H as [|p ps Hp Hps IH]; [simpl; lia|].
  destruct ps as [|q ps].
  - simpl. destruct p; [contradiction | simpl; lia].
  - rewrite join_cons2, !length_app.
    destruct p; [contradiction|]. simpl in *. lia.
Qed.

(** Reading back the elements of a list. *)
Lemma parse_items_join (pv : str -> option (pyval * str))
  (items : list pyval) (k : nat) (rest : str) :
  items <> [] ->
  length items <= k ->
  Forall (fun x => forall r, delimited r = true ->
                             pv (dumps x ++ r) = Some (x, r)) items ->
  parse_items pv k (join (lit ", ") (map dumps items) ++ "]"%char :: rest)
  = Some (items, rest).
Proof.
  intros Hne Hk H. revert k Hk.
  induction H as [|x l Hx Hl IH]; [contradiction|]. clear Hne.
  intros k Hk. destruct k as [|k]; [simpl in Hk; lia|].
  destruct l as [|y l].
  - simpl. rewrite Hx by reflexivity. reflexivity.
  - change (map dumps (x :: y :: l)) with (dumps x :: dumps y :: map dumps l).
    rewrite join_cons2, <- !app_assoc.
    cbn [parse_items]. rewrite Hx by reflexivity.
    change (skip_ws (lit ", " ++ join (lit ", ") (dumps y :: map dumps l)
                     ++ "]"%char :: rest))
      with (","%char :: " "%char ::
            (join (lit ", ") (dumps y :: map dumps l) ++ "]"%char :: rest)).
    cbv beta iota.
    change (Ascii.eqb ","%char ","%char) with true. cbv beta iota.
    change (skip_ws (" "%char :: ?t)) with (skip_ws t).
    assert (Hs : skip_ws (join (lit ", ") (dumps y :: map dumps l)
                          ++ "]"%char :: rest)
                 = join (lit ", ") (map dumps (y :: l)) ++ "]"%char :: rest).
    { destruct l as [|z l].
      - simpl. apply skip_ws_dumps.
      - cbn [map]. rewrite !join_cons2, <- !app_assoc. apply skip_ws_dumps. }
    change (skip_ws (" "%char :: join (lit ", ") (dumps y :: map dumps l)
                     ++ "]"%char :: rest))
      with (skip_ws (join (lit ", ") (dumps y :: map dumps l)
                     ++ "]"%char :: rest)).
    rewrite Hs, IH; [reflexivity | discriminate | simpl in *; lia].
Qed.

Lemma member_text (key : str) (x : pyval) (tail : str) :
  member dumps (key, x) ++ tail
  = DQUOTE :: flat_map escape_char key
      ++ DQUOTE :: ":"%char :: " "%char :: dumps x ++ tail.
Proof.
  unfold member, dumps_str. simpl. now rewrite <- !app_assoc.
Qed.

(** Reading back one member of a dict. *)
Lemma parse_members_step (pv : str -> option (pyval * str)) (k : nat)
  (key : str) (x : pyval) (tail : str) :
  pv (dumps x ++ tail) = Some (x, tail) ->
  parse_members pv (S k) (member dumps (key, x) ++ tail)
  = match skip_ws tail with
    | c :: r' =>
        if Ascii.eqb c ","%char then
          push (key, x) (parse_members pv k (skip_ws r'))
        else if Ascii.eqb c "}"%char then Some ([(key, x)], r')
        else None
    | [] => None
    end.
Proof.
  intros Hx. rewrite member_text. cbn [parse_members].
  change (Ascii.eqb DQUOTE DQUOTE) with true. cbv beta iota.
  rewrite parse_chars_dumps.
  change (skip_ws (":"%char :: " "%char :: dumps x ++ tail))
    with (":"%char :: " "%char :: dumps x ++ tail).
  cbv beta iota. change (Ascii.eqb ":"%char ":"%char) with true.
  cbv beta iota.
  change (skip_ws (" "%char :: dumps x ++ tail))
    with (skip_ws (dumps x ++ tail)).
  rewrite skip_ws_dumps, Hx. reflexivity.
Qed.

Lemma skip_ws_members (fields : list (str * pyval)) (tail : str) :
  fields <> [] ->
  skip_ws (join (lit ", ") (map (member dumps) fields) ++ tail)
  = join (lit ", ") (map (member dumps) fields) ++ tail.
Proof.
  destruct fields as [|[key x] l]; [contradiction|]. intros _.
  destruct l as [|kv l]; cbn [map]; [|rewrite join_cons2, <- app_assoc];
    cbn [join]; rewrite member_text; reflexivity.
Qed.

(** Reading back the members of a dict. *)
Lemma parse_members_join (pv : str -> option (pyval * str))
  (fields : list (str * pyval)) (k : nat) (rest : str) :
  fields <> [] ->
  length fields <= k ->
  Forall (fun kv => forall r, delimited r = true ->
                              pv (dumps (snd kv) ++ r) = Some (snd kv, r))
         fields ->
  parse_members pv k
    (join (lit ", ") (map (member dumps) fields) ++ "}"%char :: rest)
  = Some (fields, rest).
Proof.
  intros Hne Hk H. revert k Hk.
  induction H as [|[key x] l Hx Hl IH]; [contradiction|]. clear Hne.
  intros k Hk. destruct k as [|k]; [simpl in Hk; lia|].
  simpl in Hx. destruct l as [|kv l].
  - cbn [map join]. rewrite parse_members_step by (now apply Hx).
    reflexivity.
  - cbn [map]. rewrite join_cons2, <- !app_assoc.
    rewrite parse_members_step by (now apply Hx).
    change (skip_ws (lit ", " ++ ?t)) with (","%char :: " "%char :: t).
    cbv beta iota. change (Ascii.eqb ","%char ","%char) with true.
    cbv beta iota.
    change (skip_ws (" "%char :: ?t)) with (skip_ws t).
    change (member dumps kv :: map (member dumps) l)
      with (map (member dumps) (kv :: l)).
    rewrite skip_ws_members by discriminate.
    rewrite IH; [reflexivity | discriminate | simpl in *; lia].
Qed.

Lemma fold_dict_set (pairs acc : list (str * pyval)) :
  NoDup (map fst (acc ++ pairs)) ->
  fold_left (fun d kv => dict_set (fst kv) (snd kv) d) pairs acc = acc ++ pairs.
Proof.
  revert acc. induction pairs as [|[k v] ps IH]; intros acc H; simpl.
  - now rewrite app_nil_r.
  - rewrite dict_set_fresh.
    + rewrite IH; rewrite <- app_assoc; [reflexivity | exact H].
    + apply dict_has_false. rewrite map_app in H. simpl in H.
      apply NoDup_remove_2 in H. rewrite in_app_iff in H. tauto.
Qed.

(** Building a dict from pairs with distinct keys changes nothing. *)
Lemma dict_of_pairs_distinct (fields : list (str * pyval)) :
  distinct_keys fields = true -> dict_of_pairs fields = fields.
Proof.
  intros H. unfold dict_of_pairs. rewrite fold_dict_set; [reflexivity|].
  now apply distinct_keys_NoDup.
Qed.

Lemma parse_value_str (n : nat) (t : str) :
  parse_value (S n) (DQUOTE :: t)
  = match parse_chars t with
    | Some (x, r) => Some (PyStr x, r)
    | None => None
    end.
Proof. reflexivity. Qed.

Lemma parse_value_list (n : nat) (t : str) :
  parse_value (S n) ("["%char :: t)
  = match skip_ws t with
    | c1 :: r1 =>
        if Ascii.eqb c1 "]"%char then Some (PyList [], r1)
        else match parse_items (parse_value n) (length t) (skip_ws t) with
             | Some (l, r) => Some (PyList l, r)
             | None => None
             end
    | [] => None
    end.
Proof. reflexivity. Qed.

Lemma parse_value_dict (n : nat) (t : str) :
  parse_value (S n) ("{"%char :: t)
  = match skip_ws t with
    | c1 :: r1 =>
        if Ascii.eqb c1 "}"%char then Some (PyDict [], r1)
        else match parse_members (parse_value n) (length t) (skip_ws t) with
             | Some (l, r) => Some (PyDict (dict_of_pairs l), r)
             | None => None
             end
    | [] => None
    end.
Proof. reflexivity. Qed.

Lemma parse_value_number (n : nat) (c : ascii) (t : str) :
  Ascii.eqb c "-"%char = true \/ digit_of c <> None ->
  parse_value (S n) (c :: t) = parse_int (c :: t).
Proof.
  intros H.
  destruct c as [[] [] [] [] [] [] [] []];
    try reflexivity; exfalso; destruct H as [H|H];
    solve [discriminate H | apply H; reflexivity].
Qed.

Lemma dumps_int_head (z : Z) :
  exists c t, dumps_int z = c :: t
              /\ (Ascii.eqb c "-"%char = true \/ digit_of c <> None).
Proof.
  unfold dumps_int. destruct (Z.to_int z) as [u|u] eqn:E.
  - assert (Hn : u <> Decimal.Nil) by (apply (to_int_not_Nil z); now left).
    destruct u; try contradiction; eexists _, _;
      (split; [reflexivity | right; discriminate]).
  - eexists _, _. split; [reflexivity | now left].
Qed.

Lemma list_max_bound (l : list nat) (x : nat) :
  In x l -> x <= list_max l.
Proof.
  induction l as [|y l IH]; simpl; [tauto|]. intros [->|H]; [lia|].
  specialize (IH H). lia.
Qed.

(** [parse_value] reads back what [dumps] wrote, given fuel beyond the
    nesting depth, and stops where the text of the value stops. *)
Lemma parse_value_dumps (v : pyval) :
  forall n rest,
    depth v < n -> well_formed v = true -> delimited rest = true ->
    parse_value n (dumps v ++ rest) = Some (v, rest).
Proof.
  induction v as [|b|z|t|items IH|fields IH] using pyval_induction;
    intros n rest Hn Hwf Hd; (destruct n as [|n]; [lia|]).
  - reflexivity.
  - now destruct b.
  - destruct (dumps_int_head z) as (c & t & E & Hc).
    change (dumps (PyInt z)) with (dumps_int z).
    assert (E' : dumps_int z ++ rest = c :: (t ++ rest)) by now rewrite E.
    rewrite E', parse_value_number by assumption.
    rewrite <- E'. now apply parse_int_dumps.
  - change (dumps (PyStr t) ++ rest)
      with (DQUOTE :: (flat_map escape_char t ++ [DQUOTE]) ++ rest).
    rewrite <- app_assoc, parse_value_str.
    change ([DQUOTE] ++ rest) with (DQUOTE :: rest).
    now rewrite parse_chars_dumps.
  - change (dumps (PyList items) ++ rest)
      with ("["%char :: (join (lit ", ") (map dumps items) ++ ["]"%char]) ++ rest).
    rewrite <- app_assoc, parse_value_list.
    change (["]"%char] ++ rest) with ("]"%char :: rest).
    destruct items as [|x l]; [reflexivity|].
    assert (Hs : skip_ws (join (lit ", ") (map dumps (x :: l)) ++ "]"%char :: rest)
                 = join (lit ", ") (map dumps (x :: l)) ++ "]"%char :: rest).
    { destruct l as [|y l]; cbn [map]; [|rewrite join_cons2, <- app_assoc];
        apply skip_ws_dumps. }
    rewrite Hs.
    destruct (dumps_head x) as (c & t & Ex & _ & _ & Hc & _).
    assert (Eh : exists t', join (lit ", ") (map dumps (x :: l)) ++ "]"%char :: rest
                            = c :: t').
    { destruct l as [|y l]; cbn [map]; [|rewrite join_cons2, <- app_assoc];
        cbn [join]; rewrite Ex; eexists; reflexivity. }
    destruct Eh as (t' & Eh). rewrite Eh at 1. rewrite Hc.
    rewrite parse_items_join; [reflexivity | discriminate | |].
    + rewrite length_app.
      pose proof (length_join (lit ", ") (map dumps (x :: l))) as Hl.
      rewrite length_map in Hl.
      assert (Forall (fun p => p <> []) (map dumps (x :: l))).
      { rewrite Forall_map. apply Forall_forall. intros y _.
        apply ref_dumps_nonempty. }
      specialize (Hl H). lia.
    + rewrite Forall_forall in IH |- *. intros y Hy r Hr.
      apply IH; try assumption.
      * simpl in Hn.
        pose proof (list_max_bound (map depth (x :: l)) (depth y)
                      (in_map depth _ _ Hy)) as Hb.
        simpl in Hb. lia.
      * simpl in Hwf. change (forallb well_formed (x :: l) = true) in Hwf.
        rewrite forallb_forall in Hwf. now apply Hwf.
  - change (dumps (PyDict fields) ++ rest)
      with ("{"%char :: (join (lit ", ") (map (member dumps) fields)
                         ++ ["}"%char]) ++ rest).
    rewrite <- app_assoc, parse_value_dict.
    change (["}"%char] ++ rest) with ("}"%char :: rest).
    destruct fields as [|[key x] l]; [reflexivity|].
    rewrite skip_ws_members by discriminate.
    assert (Eh : exists t', join (lit ", ") (map (member dumps) ((key, x) :: l))
                            ++ "}"%char :: rest = DQUOTE :: t').
    { destruct l as [|y l]; cbn [map]; [|rewrite join_cons2, <- app_assoc];
        cbn [join]; rewrite member_text; eexists; reflexivity. }
    destruct Eh as (t' & Eh). rewrite Eh at 1.
    change (Ascii.eqb DQUOTE "}"%char) with false. cbv beta iota.
    simpl in Hwf. apply andb_true_iff in Hwf. destruct Hwf as [Hk Hwf].
    rewrite parse_members_join; [| discriminate | |].
    + rewrite dict_of_pairs_distinct by exact Hk. reflexivity.
    + rewrite length_app.
      pose proof (length_join (lit ", ") (map (member dumps) ((key, x) :: l)))
        as Hl.
      rewrite length_map in Hl.
      assert (Forall (fun p => p <> []) (map (member dumps) ((key, x) :: l))).
      { rewrite Forall_map. apply Forall_forall. intros [k' y] _.
        unfold member, dumps_str. discriminate. }
      specialize (Hl H). lia.
    + rewrite Forall_forall in IH |- *. intros [k' y] Hy r Hr.
      apply (IH (k', y) Hy); try assumption.
      * simpl in Hn.
        pose proof (list_max_bound _ _
                      (in_map (fun kv : str * pyval => let (_, x) := kv in depth x)
                              _ _ Hy)) as Hb.
        simpl in Hb. simpl. lia.
      * change (forallb (fun kv : str * pyval => let (_, x) := kv in well_formed x)
                        ((key, x) :: l) = true) in Hwf.
        rewrite forallb_forall in Hwf. apply (Hwf (k', y) Hy).
Qed.

Lemma list_max_join (A : Type) (d : A -> nat) (pr : A -> str) (sep : str)
  (l : list A) :
  Forall (fun x => d x <= length (pr x)) l ->
  list_max (map d l) <= length (join sep (map pr l)).
Proof.
  intros H. induction H as [|x l Hx Hl IH]; [simpl; lia|].
  destruct l as [|y l].
  - simpl in *. lia.
  - cbn [map] in *. rewrite join_cons2, !length_app.
    change (list_max (d x :: d y :: map d l))
      with (Nat.max (d x) (list_max (d y :: map d l))).
    lia.
Qed.

Lemma depth_le_length (v : pyval) : depth v <= length (dumps v).
Proof.
  induction v as [|b|z|t|items IH|fields IH] using pyval_induction;
    try (simpl; lia).
  - simpl. rewrite length_app. simpl.
    pose proof (list_max_join pyval depth dumps (lit ", ") items IH) as H.
    simpl in H. lia.
  - simpl. rewrite length_app. simpl.
    pose proof (list_max_join (str * pyval)
                  (fun kv => let (_, x) := kv in depth x)
                  (member dumps) (lit ", ") fields) as H.
    assert (Forall (fun kv : str * pyval =>
                      (let (_, x) := kv in depth x) <= length (member dumps kv))
                   fields) as Hf.
    { eapply Forall_impl; [|exact IH]. intros [k x] Hx. simpl in Hx.
      unfold member. rewrite !length_app. lia. }
    specialize (H Hf). simpl in H. lia.
Qed.

Lemma ref_loads_dumps (v : pyval) :
  well_formed v = true -> loads (dumps v) = Ok v.
Proof.
  intros Hwf. unfold loads.
  pose proof (skip_ws_dumps v []) as Hs. rewrite app_nil_r in Hs. rewrite Hs.
  pose proof (parse_value_dumps v (S (length (dumps v))) []) as Hp.
  rewrite app_nil_r in Hp. rewrite Hp; try reflexivity; try assumption.
  pose proof (depth_le_length v). lia.
Qed.

End RefJsonFacts.

(** The reference codec is a codec the code can run on. *)
Lemma ref_codec_laws : json_laws ref_codec.
Proof.
  split; simpl.
  - apply RefJsonFacts.ref_loads_dumps.
  - apply RefJsonFacts.ref_dumps_one_line.
  - apply RefJsonFacts.ref_dumps_stripped.
  - apply RefJsonFacts.ref_dumps_nonempty.
Qed.

(** ** The durable log *)

Lemma translate_newlines_keeps_no_CR (b : bool) (t : str) :
  ~ In CR (translate_newlines b t).
Proof.
  revert b. induction t as [|c t IH]; intros b; simpl; [tauto|].
  destruct (Ascii.eqb_spec c CR) as [->|Hc].
  - simpl. intros [F|F]; [discriminate | now apply IH in F].
  - destruct (Ascii.eqb_spec c LF) as [->|Hl].
    + destruct b; [apply IH|].
      simpl. intros [F|F]; [discriminate | now apply IH in F].
    + simpl. intros [F|F]; [congruence | now apply IH in F].
Qed.

(** The lines after the first are what a file holding them reads as. *)
Lemma lines_of_rest (c line0 : str) (rest : list str) :
  lines_of c = line0 :: rest -> lines_of (concat rest) = rest.
Proof.
  unfold lines_of. intros H.
  assert (Hc : ~ In CR (concat rest)).
  { pose proof (translate_newlines_keeps_no_CR false c) as N.
    rewrite <- (concat_keepends (translate_newlines false c)), H in N.
    simpl in N. rewrite in_app_iff in N. tauto. }
  rewrite translate_newlines_no_CR by exact Hc.
  exact (keepends_rest (translate_newlines false c) line0 rest H).
Qed.

Section durable_log.

Context {codec : JsonCodec}.

(** C8. When the queue file does not exist, [_read_from_file] returns
    [None] and [_count_file_lines] returns 0; neither raises, and neither
    creates the file. *)
Theorem missing_file_is_empty (w : world) :
  qfile w = None ->
  _read_from_file w = (Ok PyNone, w) /\ _count_file_lines w = (Ok 0, w).
Proof.
  intros H. split; [now apply read_absent | now apply count_absent].
Qed.

Lemma pop_n_stuck (n : nat) (w : world) :
  _read_from_file w = (Ok PyNone, w) ->
  pop_n n w = (repeat (Ok PyNone) n, w).
Proof.
  intros H. induction n as [|n IH]; simpl; [reflexivity|].
  now rewrite H, IH.
Qed.

(** C5. When the first line of the queue file is white space only, every
    call of [_read_from_file] returns [None] and leaves the file as it is:
    the blank line stays, and the lines after it are never reached,
    however many calls are made. *)
Theorem blank_first_line_blocks (w : world) (c line0 : str)
  (rest : list str) (n : nat) :
  qfile w = Some c ->
  lines_of c = line0 :: rest ->
  forallb isspace line0 = true ->
  pop_n n w = (repeat (Ok PyNone) n, w).
Proof.
  intros Hq Hl Hb. apply pop_n_stuck.
  apply (read_blank w c line0 rest Hq Hl). now apply strip_all_space.
Qed.

(** C3. A call of [_read_from_file] that returns a record has taken it
    from the first line of the file, and leaves a file that holds exactly
    the lines after the first, in order: the line it returned is gone (the
    file holds one occurrence less of it), and later calls read the
    remaining lines only. *)
Theorem pop_removes_first_line (w w' : world) (v : pyval) :
  _read_from_file w = (Ok v, w') ->
  v <> PyNone ->
  exists c line0 rest,
    qfile w = Some c /\ lines_of c = line0 :: rest /\
    json_loads (strip line0) = Ok v /\
    w' = set_qfile (concat rest) w /\
    lines_of (content w') = rest /\
    count_occ (list_eq_dec ascii_dec) (lines_of (content w')) line0 + 1
    = count_occ (list_eq_dec ascii_dec) (lines_of c) line0.
Proof.
  intros H Hv. destruct (read_returns w w' v H Hv)
    as (c & line0 & rest & Hq & Hl & _ & Hj & ->).
  exists c, line0, rest. repeat split; try assumption.
  - unfold content. simpl. now apply (lines_of_rest c line0).
  - unfold content. simpl. rewrite (lines_of_rest c line0 rest Hl), Hl.
    rewrite count_occ_cons_eq by reflexivity. apply Nat.add_1_r.
Qed.

Hypothesis laws : json_laws codec.

Lemma lines_of_other_line (other tail : str) :
  ~ In LF other -> ~ In CR other -> ~ In CR tail ->
  lines_of (other ++ LF :: tail) = (other ++ [LF]) :: lines_of tail.
Proof.
  intros Hl Hc Ht. unfold lines_of.
  rewrite !translate_newlines_no_CR; try assumption.
  - now apply keepends_line.
  - rewrite in_app_iff. simpl. intros [F|[F|F]]; try contradiction.
    discriminate.
Qed.

(** C4, as amended. A queue file whose first line is not empty and is
    refused by [json.loads] with [JSONDecodeError], followed by two
    records: one call of [_read_from_file] returns [None] and leaves a file
    that holds exactly the two records, which both still parse. *)
Theorem malformed_first_line_dropped (bad : str) (r1 r2 : pyval) (w : world) :
  faults w = [] ->
  ~ In LF bad -> ~ In CR bad ->
  malformed bad ->
  well_formed r1 = true -> well_formed r2 = true ->
  qfile w = Some (bad ++ [LF] ++ encode_lines [r1; r2]) ->
  _read_from_file w = (Ok PyNone, set_qfile (encode_lines [r1; r2]) w) /\
  map line_value (lines_of (encode_lines [r1; r2])) = [Some r1; Some r2].
Proof.
  intros Hf Hl Hc [Hne Hbad] H1 H2 Hq. split.
  - rewrite <- (concat_keepends (encode_lines [r1; r2])).
    apply (read_malformed w _ (bad ++ [LF]) _ Hf Hq).
    + assert (E : lines_of (encode_lines [r1; r2])
                  = keepends (encode_lines [r1; r2])).
      { unfold lines_of.
        now rewrite translate_newlines_no_CR by apply (encode_no_CR laws). }
      rewrite <- E. apply lines_of_other_line; try assumption.
      apply (encode_no_CR laws).
    + now rewrite strip_snoc by apply isspace_LF.
    + now rewrite strip_snoc by apply isspace_LF.
  - rewrite (lines_of_encode laws). simpl. unfold line_value.
    rewrite !(strip_record_line laws).
    rewrite !(loads_dumps laws) by assumption.
    destruct (json_dumps r1) eqn:E1; [now apply (dumps_nonempty laws) in E1|].
    destruct (json_dumps r2) eqn:E2; [now apply (dumps_nonempty laws) in E2|].
    reflexivity.
Qed.

(** C2. FIFO: appending [rs] to an empty or absent queue file succeeds for
    each record, and as many calls of [_read_from_file] as there are records
    then return exactly these records, in the order they were appended. *)
Theorem fifo_order (rs : list pyval) (w : world) :
  faults w = [] ->
  content w = [] ->
  Forall (fun r => well_formed r = true) rs ->
  fst (append_all rs w) = map (fun _ => Ok tt) rs /\
  fst (pop_n (length rs) (snd (append_all rs w))) = map Ok rs.
Proof.
  intros Hf Hc Hwf.
  rewrite (append_all_encoded rs [] w Hf Hc). simpl. split; [reflexivity|].
  destruct rs as [|r rs]; [reflexivity|].
  rewrite (pop_n_encoded laws); try assumption; reflexivity.
Qed.

Lemma count_healthy (w : world) (c : str) :
  faults w = [] ->
  qfile w = Some c ->
  _count_file_lines w
  = (Ok (length (filter (fun line => negb (is_nil (strip line))) (lines_of c))),
     w).
Proof.
  intros Hf Hq. destruct w as [f fl ck]. simpl in *. subst. reflexivity.
Qed.

(** C9. From an empty or absent queue file: append the view record, then
    the click record; the first pop returns the view record and the count
    is then 1; the second pop returns the click record and the count is
    then 0; the third pop returns [None].  The count is the number of
    lines of the file that are not blank. *)
Theorem view_click_scenario (w0 : world) :
  faults w0 = [] ->
  content w0 = [] ->
  scenario w0 = expected_observations /\
  (forall w c, faults w = [] -> qfile w = Some c ->
     fst (_count_file_lines w)
     = Ok (length (filter (fun line => negb (is_nil (strip line)))
                          (lines_of c)))).
Proof.
  intros Hf Hc. split.
  - unfold scenario.
    rewrite (append_encoded view_event [] w0 Hf Hc).
    rewrite (append_encoded click_event [view_event]);
      [|assumption | reflexivity].
    rewrite (pop_encoded laws view_event [click_event]);
      [|assumption | reflexivity | reflexivity].
    rewrite (count_encoded laws [click_event]); [|assumption | reflexivity].
    rewrite (pop_encoded laws click_event []);
      [|assumption | reflexivity | reflexivity].
    rewrite (count_encoded laws []); [|assumption | reflexivity].
    rewrite (read_no_lines _ []); reflexivity.
  - intros w c Hw Hq. now rewrite (count_healthy w c).
Qed.

End durable_log.

(** ** The producer-side buffer *)

Section producer.

Context {codec : JsonCodec}.

Lemma put_producer (items : list pyval) (item : pyval) (block : bool)
  (timeout : option Q) (w : world) :
  put item block timeout (producer_queue items, w)
  = (fst (_append_to_file item w),
     (producer_queue (items ++ [item]), snd (_append_to_file item w))).
Proof.
  unfold put, self, Queue_put, in_world, bind, producer_queue. simpl.
  now destruct (_append_to_file item w) as [[u|e] w'].
Qed.

Lemma append_faulty (item : pyval) (w : world) :
  fails IoOpen w || fails IoWrite w = true ->
  exists w', _append_to_file item w = (Raise (RuntimeError OSError), w')
             /\ content w' = content w /\ faults w' = faults w.
Proof.
  intros H. destruct w as [f fl ck]. unfold content. run.
  destruct (fails IoOpen _) eqn:Eo.
  - eexists. repeat split.
  - simpl in H. destruct f as [c|]; simpl; unfold fails in *; simpl in *;
      rewrite H; eexists; repeat split.
Qed.

(** C6. [put] on the producer side first pushes the record onto the
    in-memory sequence, then appends it to the queue file.  When the append
    fails with an I/O error, [put] raises the queue-write failure
    ([RuntimeError]), the file has gained nothing, and the in-memory sequence
    holds the record all the same.  When nothing fails, both have it. *)
Theorem put_pushes_then_appends (items : list pyval) (item : pyval)
  (block : bool) (timeout : option Q) (w : world) :
  (fails IoOpen w || fails IoWrite w = true ->
   exists w',
     put item block timeout (producer_queue items, w)
     = (Raise (RuntimeError OSError), (producer_queue (items ++ [item]), w'))
     /\ content w' = content w) /\
  (faults w = [] ->
   put item block timeout (producer_queue items, w)
   = (Ok tt, (producer_queue (items ++ [item]),
              set_qfile (content w ++ json_dumps item ++ [LF]) w))).
Proof.
  split.
  - intros H. destruct (append_faulty item w H) as (w' & E & Hc & _).
    exists w'. rewrite put_producer, E. now split.
  - intros H. now rewrite put_producer, (append_healthy item w H).
Qed.

Hypothesis laws : json_laws codec.

Lemma lines_of_entries (es : list (pyval + str)) :
  Forall entry_ok es ->
  lines_of (entries_text es) = map entry_text es /\ ~ In CR (entries_text es).
Proof.
  intros H. induction H as [|e es He Hes [IH1 IH2]].
  - split; [reflexivity | simpl; tauto].
  - assert (Hline : ~ In LF (removelast (entry_text e))
                    /\ ~ In CR (removelast (entry_text e))
                    /\ entry_text e = removelast (entry_text e) ++ [LF]).
    { destruct e as [r|t]; simpl; rewrite removelast_last.
      - destruct (dumps_one_line laws r). now repeat split.
      - destruct He as (H1 & H2 & _). now repeat split. }
    destruct Hline as (Hl & Hc & E).
    simpl. rewrite E, <- app_assoc. simpl. split.
    + rewrite lines_of_other_line by assumption. now rewrite IH1.
    + rewrite in_app_iff. simpl. intros [F|[F|F]]; try contradiction.
      discriminate.
Qed.

Lemma load_entries (es : list (pyval + str)) (items : list pyval) (w : world) :
  Forall entry_ok es ->
  load_lines (map entry_text es) (producer_queue items, w)
  = (Ok tt, (producer_queue (items ++ records_of es), w)).
Proof.
  intros H. revert items.
  induction H as [|e es He Hes IH]; intros items; simpl.
  - now rewrite app_nil_r.
  - unfold bind at 1. destruct e as [r|t]; simpl.
    + rewrite (strip_record_line laws).
      assert (Hn : is_nil (json_dumps r) = false).
      { destruct (json_dumps r) eqn:E; [|reflexivity].
        now apply (dumps_nonempty laws) in E. }
      rewrite Hn. simpl.
      unfold try_except, bind, of_outcome.
      rewrite (loads_dumps laws) by exact He.
      unfold Queue_put. simpl. fold (producer_queue (items ++ [r])).
      rewrite IH, <- app_assoc. reflexivity.
    + rewrite strip_snoc by apply isspace_LF.
      destruct He as (_ & _ & [Hb|Hm]).
      * rewrite Hb. simpl. unfold ret. apply IH.
      * destruct (strip t) eqn:E; simpl; [apply IH|].
        unfold try_except, bind, of_outcome. rewrite Hm. simpl.
        unfold ret. apply IH.
Qed.

(** C7, as amended. Building the producer-side queue on a file that holds
    records and other lines, each blank or refused by [json.loads] with
    [JSONDecodeError], in any order: the in-memory sequence is exactly the
    records, in file order, one for each record line; the other lines are
    skipped and nothing is raised. *)
Theorem replay_keeps_valid_records (es : list (pyval + str)) (w : world) :
  faults w = [] ->
  qfile w = Some (entries_text es) ->
  Forall entry_ok es ->
  __init__ false w = (Ok (producer_queue (records_of es)), w) /\
  length (records_of es) + length (others_of es) = length es.
Proof.
  intros Hf Hq H. split.
  - destruct (lines_of_entries es H) as [Hl _].
    destruct w as [f fl ck]. simpl in Hf, Hq. subst.
    unfold __init__, _load_from_file, in_world, bind, try_except. simpl.
    fold (lines_of (entries_text es)). rewrite Hl.
    fold (producer_queue []).
    now rewrite (load_entries es [] _ H).
  - clear. induction es as [|[r|t] es IH]; simpl; lia.
Qed.

End producer.

(** ** The consumer-side reader *)

Section consumer.

Context {codec : JsonCodec}.

Lemma read_empty (w : world) :
  content w = [] -> _read_from_file w = (Ok PyNone, w).
Proof.
  unfold content. intros H. destruct (qfile w) as [c|] eqn:E.
  - subst c. now apply (read_no_lines w []).
  - now apply read_absent.
Qed.

(** One turn on an empty queue: the timeout is checked, then comes the
    sleep. *)
Lemma get_turn_empty (timeout : Q) (start_time : Q) (w : world) :
  content w = [] ->
  get_turn true (Some timeout) start_time w
  = if Qle_bool timeout (clock w - start_time)
    then (Raise Empty, w)
    else (Ok None, snd (time_sleep (1 # 10) w)).
Proof.
  intros H. unfold get_turn, bind at 1. rewrite (read_empty w H). simpl.
  unfold bind, time_time, raise, ret. simpl.
  now destruct (Qle_bool timeout (clock w - start_time)).
Qed.

Lemma get_loop_times_out (timeout start_time : Q) (n : nat) :
  forall w,
    content w = [] ->
    (timeout <= clock w - start_time + inject_Z (Z.of_nat n) * (1 # 10))%Q ->
    exists w', get_loop (S n) true (Some timeout) start_time w
               = Some (Raise Empty, w')
               /\ qfile w' = qfile w /\ faults w' = faults w.
Proof.
  induction n as [|n IH]; intros w Hc Hn.
  - exists w. cbn [get_loop]. rewrite get_turn_empty by assumption.
    replace (Qle_bool timeout (clock w - start_time)) with true; [now repeat split|].
    symmetry. apply Qle_bool_iff.
    change (inject_Z (Z.of_nat 0)) with 0%Q in Hn. lra.
  - cbn [get_loop]. rewrite get_turn_empty by assumption.
    destruct (Qle_bool timeout (clock w - start_time)) eqn:E.
    + exists w. now repeat split.
    + destruct (IH (snd (time_sleep (1 # 10) w))) as (w' & Hg & Hq & Hf).
      * exact Hc.
      * simpl. rewrite Nat2Z.inj_succ in Hn. unfold Z.succ in Hn.
        rewrite inject_Z_plus in Hn. change (inject_Z 1) with 1%Q in Hn.
        lra.
      * exists w'. split; [exact Hg | now split].
Qed.

(** Without a timeout, a blocking [get] on an empty queue polls for
    ever: no amount of fuel ends the loop. *)
Lemma get_loop_blocks (fuel : nat) (start_time : Q) :
  forall w, content w = [] -> get_loop fuel true None start_time w = None.
Proof.
  induction fuel as [|fuel IH]; intros w Hc; [reflexivity|].
  cbn [get_loop]. unfold get_turn, bind at 1. rewrite (read_empty w Hc).
  simpl. apply IH. exact Hc.
Qed.

Lemma enough_turns (timeout : Q) :
  exists n : nat, (timeout <= inject_Z (Z.of_nat n) * (1 # 10))%Q.
Proof.
  exists (Z.to_nat (Qceiling (timeout * 10))).
  pose proof (Qle_ceiling (timeout * 10)) as H.
  assert (H' : (inject_Z (Qceiling (timeout * 10))
                <= inject_Z (Z.of_nat (Z.to_nat (Qceiling (timeout * 10)))))%Q).
  { rewrite <- Zle_Qle. lia. }
  lra.
Qed.

(** C1, as the code has it.  On a queue file that is absent or empty and
    stays so, [get(block=True, timeout=T)] ends after finitely many polls
    by raising [queue.Empty], and [get(block=False)] raises [queue.Empty]
    too: [get] has one signal for both, and the caller cannot tell a
    timeout from an empty queue. *)
Theorem timeout_raises_Empty_too (timeout : Q) (w : world) :
  content w = [] ->
  (exists fuel,
     signal (get fuel true (Some timeout) (consumer_queue, w))
     = Some (Raise Empty)) /\
  signal (get 1 false None (consumer_queue, w)) = Some (Raise Empty).
Proof.
  intros Hc. split.
  - destruct (enough_turns timeout) as (n & Hn).
    destruct (get_loop_times_out timeout (clock w) n w Hc) as (w' & Hg & _).
    { lra. }
    exists (S n). unfold get. simpl fst. simpl snd.
    unfold time_time. cbv beta iota. now rewrite Hg.
  - unfold get. simpl. unfold get_turn, bind. now rewrite (read_empty w Hc).
Qed.

End consumer.

(** ** The [/event] handler *)

Section endpoint.

Context {codec : JsonCodec}.

Lemma validate_event_pure (S : Type) (data : pyval) (s : S) :
  @validate_event S data s = (fst (@validate_event unit data tt), s).
Proof.
  unfold validate_event, bind, of_outcome, ret.
  destruct (py_in (lit "site_id") data) as [[|]|]; try reflexivity.
  destruct (py_getitem data (lit "site_id")) as [site|]; try reflexivity.
  destruct (not_nonempty_string site); try reflexivity.
  destruct (py_in (lit "event_type") data) as [[|]|]; try reflexivity.
  destruct (py_getitem data (lit "event_type")) as [type|]; try reflexivity.
  destruct (not_nonempty_string type); reflexivity.
Qed.

Lemma accepted_inv (data : pyval) :
  accepted data = true ->
  (exists fields, data = PyDict fields) /\
  exists msg, fst (@validate_event unit data tt) = Ok (true, msg).
Proof.
  unfold accepted. intros H. split.
  - destruct data; try discriminate; [| |eauto].
    + revert H. unfold validate_event, bind, of_outcome, ret. simpl.
      destruct (is_substring _ _); discriminate.
    + revert H. unfold validate_event, bind, of_outcome, ret. simpl.
      destruct (existsb _ _); discriminate.
  - destruct (@validate_event unit data tt) as [[[[|] msg]|e] u];
      try discriminate. now exists msg.
Qed.

(** A request that is not accepted changes neither the queue nor the
    file: the only call of [put] in the handler comes after validation. *)
Lemma rejected_request_not_enqueued (utcnow : str) (req : request)
  (s : SharedQueue * world) :
  is_json req = false \/
  match get_json req with
  | Ok data => accepted data = false
  | Raise _ => True
  end ->
  snd (receive_event utcnow req s) = s.
Proof.
  intros H. unfold receive_event.
  destruct (is_json req); [|reflexivity]. cbn [negb].
  destruct H as [H|H]; [discriminate|].
  unfold try_except, bind at 1, of_outcome.
  destruct (get_json req) as [data|e]; [|now destruct e].
  destruct (is_None data); [reflexivity|].
  unfold bind at 1. rewrite validate_event_pure.
  unfold accepted in H.
  destruct (@validate_event unit data tt) as [[[[|] msg]|e] u];
    cbn [fst snd negb]; try discriminate; try reflexivity.
  now destruct e.
Qed.

(** C10. For every event that passes validation, the record the handler
    puts onto the queue holds a ['timestamp'] field: the event itself when
    it came with one, the event with a timestamp added otherwise.  The
    record reaches the in-memory sequence whatever the disk does, and the
    queue file when the disk is healthy. *)
Theorem accepted_event_is_stamped (utcnow : str) (req : request)
  (data : pyval) (items : list pyval) (w : world) :
  is_json req = true ->
  get_json req = Ok data ->
  accepted data = true ->
  exists fields record resp w',
    data = PyDict fields /\
    record = (if dict_has (lit "timestamp") fields then data
              else PyDict (fields ++ [(lit "timestamp",
                                       PyStr (utcnow ++ lit "Z"))])) /\
    py_in (lit "timestamp") record = Ok true /\
    receive_event utcnow req (producer_queue items, w)
    = (Ok resp, (producer_queue (items ++ [record]), w')) /\
    (faults w = [] ->
     status resp = 200 /\
     w' = set_qfile (content w ++ json_dumps record ++ [LF]) w).
Proof.
  intros Hj Hg Ha. destruct (accepted_inv data Ha) as [(fields & ->) (msg & Hv)].
  exists fields.
  set (record := if dict_has (lit "timestamp") fields then PyDict fields
                 else PyDict (fields ++ [(lit "timestamp",
                                          PyStr (utcnow ++ lit "Z"))])).
  assert (Hin : py_in (lit "timestamp") record = Ok true).
  { unfold record. destruct (dict_has (lit "timestamp") fields) eqn:E.
    - cbn [py_in]. now rewrite E.
    - cbn [py_in]. rewrite <- (dict_set_fresh _ _ _ E).
      now rewrite dict_set_present. }
  destruct (_append_to_file record w) as [o w'] eqn:Ea.
  assert (Hrun : exists resp,
             receive_event utcnow req (producer_queue items, w)
             = (Ok resp, (producer_queue (items ++ [record]), w'))
             /\ (faults w = [] -> status resp = 200)).
  { assert (Hput : exists resp,
               match put record false None (producer_queue items, w) with
               | (Ok _, s) =>
                   (Ok {| body := Message (lit "Event received");
                          status := 200 |}, s)
               | (Raise e, s) =>
                   match e with
                   | Full =>
                       (Ok {| body := Error (lit "Service temporarily unavailable: queue is full");
                              status := 503 |}, s)
                   | JSONDecodeError =>
                       (Ok {| body := ErrorOf (lit "Invalid JSON") e;
                              status := 400 |}, s)
                   | _ =>
                       (Ok {| body := ErrorOf (lit "Internal server error") e;
                              status := 500 |}, s)
                   end
               end = (Ok resp, (producer_queue (items ++ [record]), w'))
               /\ (faults w = [] -> status resp = 200)).
    { rewrite put_producer, Ea. cbn [fst snd].
      destruct o as [u|e].
      - eexists. split; [reflexivity|]. reflexivity.
      - destruct (append_raises record w w' e Ea) as [(cause & ->) _].
        eexists. split; [reflexivity|].
        intros Hf. rewrite (append_healthy record w Hf) in Ea. discriminate. }
    destruct Hput as (resp & Hput & Hst). exists resp. split; [|exact Hst].
    rewrite <- Hput. clear Hput Hst.
    unfold receive_event. rewrite Hj, Hg. cbn [negb].
    unfold try_except, bind at 1, of_outcome. cbn [is_None].
    unfold bind at 1. rewrite validate_event_pure, Hv. cbn [fst snd negb].
    unfold bind at 1. cbn [py_in].
    unfold record. destruct (dict_has (lit "timestamp") fields) eqn:E;
      cbn [negb]; unfold bind at 1, ret, of_outcome; cbn [py_setitem].
    - unfold bind.
      destruct (put (PyDict fields) false None (producer_queue items, w))
        as [[u|e] s]; [reflexivity|]. now destruct e.
    - rewrite (dict_set_fresh _ _ _ E). unfold bind.
      destruct (put _ false None (producer_queue items, w))
        as [[u|e] s]; [reflexivity|]. now destruct e. }
  destruct Hrun as (resp & Hrun & Hst).
  exists record, resp, w'. repeat split; try assumption.
  - now apply Hst.
  - rewrite (append_healthy record w H) in Ea. now injection Ea.
Qed.

End endpoint.

(** * The statements at concrete inputs, on the reference codec *)

Ltac not_in_text :=
  let F := fresh "F" in
  intro F; vm_compute in F;
  repeat (destruct F as [F|F]; [discriminate F|]); exact F.

Lemma missing_file_is_empty_witness :
  qfile no_file = None /\
  (@_read_from_file ref_codec no_file = (Ok PyNone, no_file) /\
   _count_file_lines no_file = (Ok 0, no_file)).
Proof.
  split; [reflexivity|].
  apply (@missing_file_is_empty ref_codec no_file). reflexivity.
Defined.

Lemma blank_first_line_blocks_witness :
  lines_of blank_then_record
  = [lit "  " ++ [LF]; RefJson.dumps view_event ++ [LF]] /\
  @pop_n ref_codec 3 (file_of blank_then_record)
  = (repeat (Ok PyNone) 3, file_of blank_then_record).
Proof.
  split; [reflexivity|].
  apply (@blank_first_line_blocks ref_codec (file_of blank_then_record)
           blank_then_record (lit "  " ++ [LF])
           [RefJson.dumps view_event ++ [LF]] 3); reflexivity.
Defined.

Lemma pop_removes_first_line_witness :
  exists c line0 rest,
    qfile (file_of two_records) = Some c /\ lines_of c = line0 :: rest /\
    @json_loads ref_codec (strip line0) = Ok view_event /\
    file_of (@encode_lines ref_codec [click_event])
    = set_qfile (concat rest) (file_of two_records) /\
    lines_of (content (file_of (@encode_lines ref_codec [click_event]))) = rest /\
    count_occ (list_eq_dec ascii_dec)
      (lines_of (content (file_of (@encode_lines ref_codec [click_event]))))
      line0 + 1
    = count_occ (list_eq_dec ascii_dec) (lines_of c) line0.
Proof.
  apply (@pop_removes_first_line ref_codec (file_of two_records)
           (file_of (@encode_lines ref_codec [click_event])) view_event).
  - vm_compute. reflexivity.
  - discriminate.
Defined.

Lemma malformed_first_line_dropped_witness :
  @malformed ref_codec truncated_record /\
  (@_read_from_file ref_codec
     (file_of (truncated_record ++ [LF] ++ two_records))
   = (Ok PyNone, set_qfile two_records
                   (file_of (truncated_record ++ [LF] ++ two_records))) /\
   map (@line_value ref_codec) (lines_of two_records)
   = [Some view_event; Some click_event]).
Proof.
  assert (Hm : @malformed ref_codec truncated_record).
  { split; vm_compute; [discriminate | reflexivity]. }
  split; [exact Hm|].
  apply (@malformed_first_line_dropped ref_codec ref_codec_laws
           truncated_record view_event click_event
           (file_of (truncated_record ++ [LF] ++ two_records)));
    try reflexivity; try exact Hm; not_in_text.
Defined.

Lemma fifo_order_witness :
  fst (@append_all ref_codec [view_event; click_event] no_file)
  = [Ok tt; Ok tt] /\
  fst (@pop_n ref_codec 2
         (snd (@append_all ref_codec [view_event; click_event] no_file)))
  = [Ok view_event; Ok click_event].
Proof.
  apply (@fifo_order ref_codec ref_codec_laws [view_event; click_event] no_file);
    try reflexivity.
  repeat constructor.
Defined.

Lemma view_click_scenario_witness :
  @scenario ref_codec no_file = expected_observations /\
  @scenario ref_codec (file_of []) = expected_observations.
Proof.
  split.
  - apply (proj1 (@view_click_scenario ref_codec ref_codec_laws no_file
                    eq_refl eq_refl)).
  - apply (proj1 (@view_click_scenario ref_codec ref_codec_laws (file_of [])
                    eq_refl eq_refl)).
Defined.

Lemma put_pushes_then_appends_witness :
  (exists w',
     @put ref_codec click_event false None
       (producer_queue [view_event], write_fails)
     = (Raise (RuntimeError OSError),
        (producer_queue [view_event; click_event], w'))
     /\ content w' = content write_fails) /\
  @put ref_codec click_event false None (producer_queue [view_event], no_file)
  = (Ok tt, (producer_queue [view_event; click_event],
             set_qfile (RefJson.dumps click_event ++ [LF]) no_file)).
Proof.
  split.
  - apply (proj1 (@put_pushes_then_appends ref_codec [view_event] click_event
                    false None write_fails)).
    reflexivity.
  - apply (proj2 (@put_pushes_then_appends ref_codec [view_event] click_event
                    false None no_file)).
    reflexivity.
Defined.

Lemma replay_keeps_valid_records_witness :
  @__init__ ref_codec false (file_of (@entries_text ref_codec mixed_entries))
  = (Ok (producer_queue [view_event; click_event]),
     file_of (@entries_text ref_codec mixed_entries)) /\
  2 + 2 = 4.
Proof.
  apply (@replay_keeps_valid_records ref_codec ref_codec_laws mixed_entries
           (file_of (@entries_text ref_codec mixed_entries)));
    try reflexivity.
  apply Forall_cons; [reflexivity|].
  apply Forall_cons;
    [split; [not_in_text | split; [not_in_text | right; reflexivity]]|].
  apply Forall_cons;
    [split; [not_in_text | split; [not_in_text | left; reflexivity]]|].
  apply Forall_cons; [reflexivity | apply Forall_nil].
Defined.

Lemma timeout_raises_Empty_too_witness :
  (exists fuel,
     signal (@get ref_codec fuel true (Some (1 # 5)%Q) (consumer_queue, no_file))
     = Some (Raise Empty)) /\
  signal (@get ref_codec 1 false None (consumer_queue, no_file))
  = Some (Raise Empty).
Proof.
  apply (@timeout_raises_Empty_too ref_codec (1 # 5)%Q no_file). reflexivity.
Defined.

(** C1, as it is written, fails: a [get] that waits out its timeout of
    0.2 s on an absent queue file (three polls) and a [get] that does not
    block end with the same signal, [queue.Empty]. *)
Lemma timeout_signal_not_distinct :
  signal (@get ref_codec 3 true (Some (1 # 5)%Q) (consumer_queue, no_file))
  = Some (Raise Empty) /\
  signal (@get ref_codec 1 false None (consumer_queue, no_file))
  = Some (Raise Empty) /\
  ~ (signal (@get ref_codec 3 true (Some (1 # 5)%Q) (consumer_queue, no_file))
     <> signal (@get ref_codec 1 false None (consumer_queue, no_file))).
Proof.
  repeat split; try (vm_compute; reflexivity).
  intros H. apply H. vm_compute. reflexivity.
Qed.

(** C4, as it is written, fails: a first line of 2000 opening brackets is
    not empty and does not parse ([json.loads] raises [RecursionError]),
    two records follow it, and one call of [_read_from_file] returns
    [None] and leaves the file as it was, the line still first. *)
Lemma unparsed_first_line_stays :
  qfile (file_of deep_line_then_records)
  = Some (deep_line ++ [LF]
          ++ @encode_lines nesting_limit_codec [view_event; click_event]) /\
  strip deep_line <> [] /\
  @json_loads nesting_limit_codec (strip deep_line) = Raise RecursionError /\
  map (@line_value nesting_limit_codec)
    (lines_of (@encode_lines nesting_limit_codec [view_event; click_event]))
  = [Some view_event; Some click_event] /\
  @_read_from_file nesting_limit_codec (file_of deep_line_then_records)
  = (Ok PyNone, file_of deep_line_then_records) /\
  ~ (@_read_from_file nesting_limit_codec (file_of deep_line_then_records)
     = (Ok PyNone,
        set_qfile (@encode_lines nesting_limit_codec [view_event; click_event])
          (file_of deep_line_then_records))).
Proof.
  assert (E : @_read_from_file nesting_limit_codec
                (file_of deep_line_then_records)
              = (Ok PyNone, file_of deep_line_then_records))
    by (vm_compute; reflexivity).
  split; [reflexivity|]. split; [vm_compute; discriminate|].
  split; [vm_compute; reflexivity|]. split; [vm_compute; reflexivity|].
  split; [exact E|].
  rewrite E. intros H. vm_compute in H. discriminate H.
Qed.

(** C7, as it is written, fails: on a file that holds a record, a line of
    2000 opening brackets and a second record, [json.loads] raises
    [RecursionError] on the second line, the replay ends there without an
    error, and the in-memory sequence holds one of the two records. *)
Lemma replay_stops_at_unparsed_line :
  records_of deep_line_entries = [view_event; click_event] /\
  @json_loads nesting_limit_codec (strip deep_line) = Raise RecursionError /\
  @__init__ nesting_limit_codec false
    (file_of (@entries_text nesting_limit_codec deep_line_entries))
  = (Ok (producer_queue [view_event]),
     file_of (@entries_text nesting_limit_codec deep_line_entries)) /\
  ~ (@__init__ nesting_limit_codec false
       (file_of (@entries_text nesting_limit_codec deep_line_entries))
     = (Ok (producer_queue (records_of deep_line_entries)),
        file_of (@entries_text nesting_limit_codec deep_line_entries))).
Proof.
  assert (E : @__init__ nesting_limit_codec false
                (file_of (@entries_text nesting_limit_codec deep_line_entries))
              = (Ok (producer_queue [view_event]),
                 file_of (@entries_text nesting_limit_codec deep_line_entries)))
    by (vm_compute; reflexivity).
  split; [reflexivity|]. split; [vm_compute; reflexivity|].
  split; [exact E|].
  rewrite E. intros H. vm_compute in H. discriminate H.
Qed.

Lemma accepted_event_is_stamped_witness :
  exists fields record resp w',
    view_event = PyDict fields /\
    record = (if dict_has (lit "timestamp") fields then view_event
              else PyDict (fields ++ [(lit "timestamp",
                                       PyStr (lit "2025-11-12T19:30:01"
                                              ++ lit "Z"))])) /\
    py_in (lit "timestamp") record = Ok true /\
    @receive_event ref_codec (lit "2025-11-12T19:30:01") view_request
      (producer_queue [], no_file)
    = (Ok resp, (producer_queue ([] ++ [record]), w')) /\
    (faults no_file = [] ->
     status resp = 200 /\
     w' = set_qfile (content no_file ++ @json_dumps ref_codec record ++ [LF])
            no_file).
Proof.
  apply (@accepted_event_is_stamped ref_codec (lit "2025-11-12T19:30:01")
           view_request view_event [] no_file); reflexivity.
Defined.

(** * Further properties of the queue file *)

Section more_queue_file.

Context {codec : JsonCodec}.

(** Every way a pop can end: it returns a value, and what is left in the
    file is an end piece of what was there, line for line. *)
Lemma read_cases (w : world) :
  exists v w' pre,
    _read_from_file w = (Ok v, w') /\
    faults w' = faults w /\ clock w' = clock w /\
    lines_of (content w) = pre ++ lines_of (content w').
Proof.
  destruct w as [f fl ck]. unfold content. run.
  destruct f as [c|]; [|exists PyNone; eexists; exists []; now repeat split].
  destruct (fails IoOpen _);
    [exists PyNone; eexists; exists []; now repeat split|].
  destruct (fails IoRead _) eqn:Er;
    [exists PyNone; eexists; exists []; now repeat split|].
  fold (lines_of c).
  destruct (lines_of c) as [|line0 rest] eqn:El.
  { exists PyNone; eexists; exists [].
    repeat (split; [reflexivity|]). simpl. now rewrite El. }
  assert (Hrest : lines_of (concat rest) = rest)
    by exact (lines_of_rest c line0 rest El).
  assert (Hsame : forall v : pyval,
             exists v' w' pre,
               (Ok v, {| qfile := Some c; faults := fl; clock := ck |})
               = (Ok v', w') /\
               faults w' = fl /\ clock w' = ck /\
               line0 :: rest
               = pre ++ lines_of match qfile w' with Some c0 => c0 | None => [] end).
  { intros v. exists v. eexists. exists [].
    repeat (split; [reflexivity|]). simpl. now rewrite El. }
  assert (Hlost : exists v' w' pre,
             (Ok PyNone, {| qfile := Some []; faults := fl; clock := ck |})
             = (Ok v', w') /\
             faults w' = fl /\ clock w' = ck /\
             line0 :: rest
             = pre ++ lines_of match qfile w' with Some c0 => c0 | None => [] end).
  { exists PyNone. eexists. exists (line0 :: rest).
    repeat (split; [reflexivity|]). simpl. now rewrite app_nil_r. }
  assert (Hpop : forall v : pyval,
             exists v' w' pre,
               (Ok v, {| qfile := Some (concat rest); faults := fl; clock := ck |})
               = (Ok v', w') /\
               faults w' = fl /\ clock w' = ck /\
               line0 :: rest
               = pre ++ lines_of match qfile w' with Some c0 => c0 | None => [] end).
  { intros v. exists v. eexists. exists [line0].
    repeat (split; [reflexivity|]). simpl. now rewrite Hrest. }
  destruct (is_nil (strip line0)); [apply Hsame|].
  destruct (json_loads (strip line0)) as [v|e].
  - destruct (fails IoTruncate _) eqn:Et; [apply Hsame|].
    destruct (fails IoWrite _) eqn:Ew; simpl; [apply Hlost | apply Hpop].
  - destruct (is_JSONDecodeError e) eqn:Ee;
      [|destruct e; try discriminate; apply Hsame].
    destruct e; try discriminate. simpl.
    destruct (fails IoOpen _); [apply Hsame|].
    rewrite Er. fold (lines_of c). rewrite El. simpl.
    destruct (fails IoTruncate _) eqn:Et; [apply Hsame|].
    destruct (fails IoWrite _) eqn:Ew; simpl; [apply Hlost | apply Hpop].
Qed.


(** X2. Counting never raises and never changes anything; it returns 0
    when the file cannot be opened or read, and the number of lines that
    are not blank otherwise. *)
Theorem count_only_reads (w : world) :
  exists n,
    _count_file_lines w = (Ok n, w) /\
    (fails IoOpen w || fails IoRead w = true -> n = 0) /\
    (fails IoOpen w || fails IoRead w = false ->
     n = length (filter (fun line => negb (is_nil (strip line)))
                        (lines_of (content w)))).
Proof.
  destruct w as [f fl ck]. unfold content. run.
  destruct f as [c|]; [|exists 0; now repeat split].
  destruct (fails IoOpen _); [exists 0; repeat split; discriminate|].
  destruct (fails IoRead _); [exists 0; repeat split; discriminate|].
  eexists. repeat split. discriminate.
Qed.

Lemma append_keeps_content_lemma (v : pyval) (w : world) :
  match fst (_append_to_file v w) with
  | Ok _ =>
      content (snd (_append_to_file v w)) = content w ++ json_dumps v ++ [LF]
  | Raise e =>
      (exists cause, e = RuntimeError cause) /\
      content (snd (_append_to_file v w)) = content w
  end.
Proof.
  destruct (_append_to_file v w) as [[u|e] w'] eqn:E; simpl.
  - revert E. destruct w as [f fl ck]. unfold content. run.
    destruct (fails IoOpen _); [discriminate|].
    destruct f as [c|]; simpl.
    + destruct (fails IoWrite _); [discriminate|]. intros H.
      inversion H. reflexivity.
    + destruct (fails IoWrite _); [discriminate|]. intros H.
      inversion H. reflexivity.
  - now apply (append_raises v w w' e).
Qed.



(** X5. When [json.loads] raises anything but [JSONDecodeError] on the
    first line, every pop returns [None] and leaves the file as it is: the
    line is neither delivered nor dropped, and the lines behind it are
    never reached. *)
Theorem other_exception_blocks (w : world) (c line0 : str) (rest : list str)
  (e : exn) (n : nat) :
  qfile w = Some c ->
  lines_of c = line0 :: rest ->
  strip line0 <> [] ->
  json_loads (strip line0) = Raise e ->
  is_JSONDecodeError e = false ->
  pop_n n w = (repeat (Ok PyNone) n, w).
Proof.
  intros Hq Hl Hs Hj He. apply pop_n_stuck.
  exact (read_other_exception w c line0 rest e Hq Hl Hs Hj He).
Qed.

End more_queue_file.

(** * Further properties of the consumer-side reader *)

Section more_consumer.

Context {codec : JsonCodec}.

(** One turn of the polling loop, on any file. *)
Lemma get_turn_cases (block : bool) (timeout : option Q) (start_time : Q)
  (w : world) :
  exists v w1,
    _read_from_file w = (Ok v, w1) /\
    faults w1 = faults w /\ clock w1 = clock w /\
    get_turn block timeout start_time w
    = if negb (is_None v) then (Ok (Some v), w1)
      else if negb block then (Raise Empty, w1)
      else match timeout with
           | Some t =>
               if Qle_bool t (clock w1 - start_time) then (Raise Empty, w1)
               else (Ok None, snd (time_sleep (1 # 10) w1))
           | None => (Ok None, snd (time_sleep (1 # 10) w1))
           end.
Proof.
  destruct (read_cases w) as (v & w1 & pre & E & Hf & Hc & _).
  exists v, w1. repeat split; try assumption.
  unfold get_turn, bind at 1. rewrite E.
  destruct (is_None v); [|reflexivity]. cbn [negb].
  destruct block; [|reflexivity]. cbn [negb].
  destruct timeout as [t|]; [|reflexivity].
  unfold bind, time_time, raise, ret. simpl.
  now destruct (Qle_bool t (clock w1 - start_time)).
Qed.

Lemma get_loop_step (fuel : nat) (block : bool) (timeout : option Q)
  (start_time : Q) (w w' : world) :
  get_turn block timeout start_time w = (Ok None, w') ->
  get_loop (S fuel) block timeout start_time w
  = get_loop fuel block timeout start_time w'.
Proof. intros H. cbn [get_loop]. now rewrite H. Qed.

(** With a timeout the loop ends, whatever the file holds: each turn
    that does not end it moves the clock on by a tenth of a second. *)
Lemma get_loop_ends (timeout start_time : Q) (n : nat) :
  forall w,
    (timeout <= clock w - start_time + inject_Z (Z.of_nat n) * (1 # 10))%Q ->
    exists r w',
      get_loop (S n) true (Some timeout) start_time w = Some (r, w') /\
      (r = Raise Empty \/ exists v, r = Ok v /\ is_None v = false).
Proof.
  induction n as [|n IH]; intros w Hn;
    destruct (get_turn_cases true (Some timeout) start_time w)
      as (v & w1 & _ & _ & Hc & Ht);
    cbn [get_loop]; rewrite Ht; clear Ht;
    destruct (is_None v) eqn:Ev; cbn [negb];
    try (exists (Ok v), w1; split; [reflexivity | right; now exists v]).
  - replace (Qle_bool timeout (clock w1 - start_time)) with true;
      [exists (Raise Empty), w1; split; [reflexivity | now left]|].
    symmetry. apply Qle_bool_iff. rewrite Hc.
    change (inject_Z (Z.of_nat 0)) with 0%Q in Hn. lra.
  - destruct (Qle_bool timeout (clock w1 - start_time)) eqn:E;
      [exists (Raise Empty), w1; split; [reflexivity | now left]|].
    apply IH. simpl. rewrite Hc.
    rewrite Nat2Z.inj_succ in Hn. unfold Z.succ in Hn.
    rewrite inject_Z_plus in Hn. change (inject_Z 1) with 1%Q in Hn. lra.
Qed.

(** X6. [get(block=True, timeout=T)] always comes back, whatever the file
    holds and whatever fails: after finitely many polls it returns a value
    that is not [None] or raises [queue.Empty], and nothing else. *)
Theorem get_with_timeout_returns (timeout : Q) (w : world) :
  exists fuel r s',
    get fuel true (Some timeout) (consumer_queue, w) = Some (r, s') /\
    (r = Raise Empty \/ exists v, r = Ok v /\ is_None v = false).
Proof.
  destruct (enough_turns timeout) as (n & Hn).
  destruct (get_loop_ends timeout (clock w) n w) as (r & w' & Hg & Hr).
  { lra. }
  exists (S n), r, (consumer_queue, w'). split; [|exact Hr].
  unfold get. simpl fst. simpl snd. unfold time_time. cbv beta iota.
  now rewrite Hg.
Qed.

(** On an empty queue the loop ends by the timeout only: whatever the
    number of polls, when it ends the clock has reached the timeout. *)
Lemma get_loop_not_early (timeout start_time : Q) (fuel : nat) :
  forall (w w' : world) (r : outcome pyval),
    content w = [] ->
    get_loop fuel true (Some timeout) start_time w = Some (r, w') ->
    r = Raise Empty /\ qfile w' = qfile w
    /\ (timeout <= clock w' - start_time)%Q.
Proof.
  induction fuel as [|fuel IH]; intros w w' r Hc; [discriminate|].
  cbn [get_loop]. rewrite get_turn_empty by assumption.
  destruct (Qle_bool timeout (clock w - start_time)) eqn:E.
  - intros [= <- <-]. apply Qle_bool_iff in E. now repeat split.
  - intros H. apply IH in H; [exact H | exact Hc].
Qed.

(** X7. [queue.Empty] comes by the timeout and never before it: on a
    queue file that is absent or empty and stays so,
    [get(block=True, timeout=T)] ends after finitely many polls by raising
    [queue.Empty]; and however many polls it took, the clock then reads at
    least [T] more than when the call began, and the file is untouched. *)
Theorem Empty_only_after_timeout (timeout : Q) (w : world) :
  content w = [] ->
  (exists fuel w',
     get fuel true (Some timeout) (consumer_queue, w)
     = Some (Raise Empty, (consumer_queue, w'))) /\
  forall fuel r s',
    get fuel true (Some timeout) (consumer_queue, w) = Some (r, s') ->
    r = Raise Empty /\ fst s' = consumer_queue /\ qfile (snd s') = qfile w
    /\ (timeout <= clock (snd s') - clock w)%Q.
Proof.
  intros Hc. split.
  - destruct (enough_turns timeout) as (n & Hn).
    destruct (get_loop_times_out timeout (clock w) n w Hc)
      as (w' & Hg & _).
    { lra. }
    exists (S n), w'.
    unfold get. simpl fst. simpl snd. unfold time_time. cbv beta iota.
    now rewrite Hg.
  - intros fuel r s'. unfold get. simpl fst. simpl snd. unfold time_time.
    cbv beta iota.
    destruct (get_loop fuel true (Some timeout) (clock w) w)
      as [[r' w']|] eqn:E; [|discriminate].
    intros [= <- <-]. cbn [fst snd].
    destruct (get_loop_not_early timeout (clock w) fuel w w' r' Hc E)
      as (Hr & Hq & Ht).
    now repeat split.
Qed.

(** X8. Without a timeout, a blocking [get] on a queue file that is
    absent or empty and stays so never comes back: no number of polls is
    enough. *)
Theorem get_without_timeout_blocks (fuel : nat) (w : world) :
  content w = [] ->
  get fuel true None (consumer_queue, w) = None.
Proof.
  intros Hc. unfold get. simpl fst. simpl snd. unfold time_time.
  cbv beta iota. now rewrite (get_loop_blocks fuel (clock w) w Hc).
Qed.

End more_consumer.

(** * Further properties of the queue object *)

Lemma slept_set_qfile (k : nat) (c : str) (w : world) :
  slept k (set_qfile c w) = set_qfile c (slept k w).
Proof.
  revert w. induction k as [|k IH]; intros w; [reflexivity|].
  simpl. rewrite <- IH. reflexivity.
Qed.

Lemma slept_faults (k : nat) (w : world) : faults (slept k w) = faults w.
Proof.
  revert w. induction k as [|k IH]; intros w; [reflexivity|].
  simpl. now rewrite IH.
Qed.

Lemma slept_clock (k : nat) (w : world) :
  (clock (slept k w) == clock w + inject_Z (Z.of_nat k) * (1 # 10))%Q.
Proof.
  revert w. induction k as [|k IH]; intros w.
  - simpl. change (inject_Z 0) with 0%Q. lra.
  - cbn [slept]. rewrite IH. simpl clock.
    rewrite Nat2Z.inj_succ. unfold Z.succ. rewrite inject_Z_plus.
    change (inject_Z 1) with 1%Q. lra.
Qed.

Lemma lines_of_no_CR (t : str) :
  ~ In CR t -> lines_of t = keepends t /\ concat (lines_of t) = t.
Proof.
  intros H. unfold lines_of. rewrite translate_newlines_no_CR by exact H.
  split; [reflexivity | apply concat_keepends].
Qed.

Section more_queue_object.

Context {codec : JsonCodec}.

(** The in-memory [get] of the producer side: the oldest item, and the
    file is not touched. *)
Lemma get_from_memory (fuel : nat) (block : bool) (timeout : option Q)
  (x : pyval) (items : list pyval) (w : world) :
  (block = true -> forall t, timeout = Some t -> (0 <= t)%Q) ->
  get fuel block timeout (producer_queue (x :: items), w)
  = Some (Ok x, (producer_queue items, w)).
Proof.
  intros H. unfold get, Queue_get. cbn [fst snd producer_queue
    use_file_directly _in_memory_queue].
  destruct block; [|reflexivity]. destruct timeout as [t|]; [|reflexivity].
  assert (E : Qle_bool 0 t = true)
    by (apply Qle_bool_iff; apply (H eq_refl t eq_refl)).
  now rewrite E.
Qed.

(** ... unless it is asked to block with a negative timeout: the library
    raises [ValueError] and the item stays where it is. *)
Lemma get_negative_timeout (fuel : nat) (t : Q) (items : list pyval)
  (w : world) :
  (t < 0)%Q ->
  get fuel true (Some t) (producer_queue items, w)
  = Some (Raise ValueError, (producer_queue items, w)).
Proof.
  intros H. unfold get, Queue_get. cbn [fst snd producer_queue
    use_file_directly _in_memory_queue negb].
  destruct (Qle_bool 0 t) eqn:E; [|reflexivity].
  apply Qle_bool_iff in E. lra.
Qed.

Hypothesis laws : json_laws codec.

Lemma get_first_record (fuel : nat) (block : bool) (timeout : option Q)
  (r : pyval) (rs : list pyval) (w : world) :
  faults w = [] ->
  qfile w = Some (encode_lines (r :: rs)) ->
  well_formed r = true -> is_None r = false ->
  get (S fuel) block timeout (consumer_queue, w)
  = Some (Ok r, (consumer_queue, set_qfile (encode_lines rs) w)).
Proof.
  intros Hf Hq Hwf Hn. unfold get. simpl fst. simpl snd.
  unfold time_time. cbv beta iota. cbn [get_loop].
  unfold get_turn, bind at 1.
  rewrite (pop_encoded laws r rs w Hf Hq Hwf). rewrite Hn. reflexivity.
Qed.

Lemma put_all_encoded (xs pre items : list pyval) (w : world) :
  faults w = [] ->
  content w = encode_lines pre ->
  put_all xs (producer_queue items, w)
  = (map (fun _ => Ok tt) xs,
     (producer_queue (items ++ xs),
      match xs with
      | [] => w
      | _ :: _ => set_qfile (encode_lines (pre ++ xs)) w
      end)).
Proof.
  revert pre items w. induction xs as [|x xs IH]; intros pre items w Hf Hc.
  - simpl. now rewrite app_nil_r.
  - cbn [put_all]. rewrite put_producer.
    rewrite (append_encoded x pre w Hf Hc). cbn [fst snd].
    rewrite (IH (pre ++ [x])); [|assumption | reflexivity].
    rewrite <- !app_assoc. simpl. now destruct xs.
Qed.

Lemma get_n_encoded (rs : list pyval) (fuel : nat) (block : bool)
  (timeout : option Q) (w : world) :
  faults w = [] ->
  qfile w = Some (encode_lines rs) ->
  Forall (fun r => well_formed r = true /\ is_None r = false) rs ->
  get_n (length rs) (S fuel) block timeout (consumer_queue, w)
  = Some (map Ok rs,
          (consumer_queue, match rs with [] => w | _ :: _ => set_qfile [] w end)).
Proof.
  revert w. induction rs as [|r rs IH]; intros w Hf Hq H; [reflexivity|].
  inversion H as [|? ? [Hwf Hn] Hrs]; subst.
  cbn [length get_n]. rewrite (get_first_record fuel block timeout r rs w);
    try assumption.
  rewrite IH; try assumption; try reflexivity. now destruct rs.
Qed.

(** X9. FIFO through the two queue objects: what the producer side puts,
    starting from an empty or absent file, the consumer side gets, record
    by record and in the same order, with any [block] and [timeout]; the
    producer's in-memory sequence has grown by the same records. *)
Theorem put_then_get_in_order (xs items : list pyval) (w : world) :
  faults w = [] ->
  content w = [] ->
  Forall (fun r => well_formed r = true /\ is_None r = false) xs ->
  exists w1,
    put_all xs (producer_queue items, w)
    = (map (fun _ => Ok tt) xs, (producer_queue (items ++ xs), w1)) /\
    forall fuel block timeout,
      option_map fst
        (get_n (length xs) (S fuel) block timeout (consumer_queue, w1))
      = Some (map Ok xs).
Proof.
  intros Hf Hc H. rewrite (put_all_encoded xs [] items w Hf Hc).
  eexists. split; [reflexivity|]. intros fuel block timeout.
  destruct xs as [|x xs]; [reflexivity|].
  rewrite (get_n_encoded (x :: xs)); try assumption; reflexivity.
Qed.

(** Lines that are skipped at the cost of one poll each: one line of
    text, not blank, refused by [json.loads] with [JSONDecodeError]. *)
Lemma text_lines_no_CR (bads : list str) (tail : str) :
  Forall (fun b => ~ In LF b /\ ~ In CR b /\ malformed b) bads ->
  ~ In CR tail ->
  ~ In CR (text_lines bads ++ tail).
Proof.
  intros H Ht. induction H as [|b bads (_ & Hb & _) _ IH]; [exact Ht|].
  simpl. rewrite <- !app_assoc. intros F.
  rewrite in_app_iff in F. destruct F as [F|F]; [contradiction|].
  simpl in F. destruct F as [F|F]; [discriminate | now apply IH].
Qed.

Lemma read_bad_line (b tail : str) (w : world) :
  faults w = [] ->
  ~ In LF b -> ~ In CR b -> malformed b -> ~ In CR tail ->
  qfile w = Some ((b ++ [LF]) ++ tail) ->
  _read_from_file w = (Ok PyNone, set_qfile tail w).
Proof.
  intros Hf Hl Hc [Hs Hj] Ht Hq.
  destruct (lines_of_no_CR tail Ht) as [_ E]. rewrite <- E.
  apply (read_malformed w _ (b ++ [LF]) (lines_of tail) Hf Hq).
  - rewrite <- app_assoc. simpl. now apply lines_of_other_line.
  - now rewrite strip_snoc by apply isspace_LF.
  - now rewrite strip_snoc by apply isspace_LF.
Qed.

Lemma get_loop_skips (r : pyval) (rs : list pyval) (start_time : Q)
  (bads : list str) :
  forall w,
    faults w = [] ->
    qfile w = Some (text_lines bads ++ encode_lines (r :: rs)) ->
    Forall (fun b => ~ In LF b /\ ~ In CR b /\ malformed b) bads ->
    well_formed r = true -> is_None r = false ->
    get_loop (S (length bads)) true None start_time w
    = Some (Ok r, set_qfile (encode_lines rs) (slept (length bads) w)).
Proof.
  induction bads as [|b bads IH]; intros w Hf Hq H Hwf Hn.
  - cbn [get_loop length slept]. unfold get_turn, bind at 1.
    rewrite (pop_encoded laws r rs w Hf Hq Hwf). now rewrite Hn.
  - inversion H as [|? ? (Hl & Hc & Hm) Hbads]; subst.
    change (text_lines (b :: bads))
      with ((b ++ [LF]) ++ text_lines bads) in Hq.
    rewrite <- app_assoc in Hq.
    set (tail := text_lines bads ++ encode_lines (r :: rs)) in *.
    assert (Hturn : get_turn true None start_time w
                    = (Ok None, set_qfile tail (snd (time_sleep (1 # 10) w)))).
    { unfold get_turn, bind at 1.
      rewrite (read_bad_line b tail w); try assumption; [reflexivity|].
      apply text_lines_no_CR; [assumption | apply (encode_no_CR laws)]. }
    cbn [length]. rewrite (get_loop_step _ _ _ _ _ _ Hturn).
    rewrite IH; try assumption; try reflexivity.
    cbn [slept]. now rewrite slept_set_qfile.
Qed.

(** X10. Malformed lines ahead of a record cost one poll each: a blocking
    [get] drops them one per turn, sleeping a tenth of a second after
    each, and returns the first record behind them; a [get] that does not
    block raises [queue.Empty] although a record is in the file. *)
Theorem get_skips_malformed_lines (bads : list str) (r : pyval)
  (rs : list pyval) (w : world) :
  faults w = [] ->
  qfile w = Some (text_lines bads ++ encode_lines (r :: rs)) ->
  Forall (fun b => ~ In LF b /\ ~ In CR b /\ malformed b) bads ->
  well_formed r = true -> is_None r = false ->
  exists w',
    get (S (length bads)) true None (consumer_queue, w)
    = Some (Ok r, (consumer_queue, w')) /\
    qfile w' = Some (encode_lines rs) /\
    (clock w' == clock w + inject_Z (Z.of_nat (length bads)) * (1 # 10))%Q /\
    (bads <> [] ->
     signal (get 1 false None (consumer_queue, w)) = Some (Raise Empty)).
Proof.
  intros Hf Hq H Hwf Hn.
  exists (set_qfile (encode_lines rs) (slept (length bads) w)).
  split; [|split; [reflexivity | split]].
  - unfold get. simpl fst. simpl snd. unfold time_time. cbv beta iota.
    now rewrite (get_loop_skips r rs (clock w) bads w Hf Hq H Hwf Hn).
  - simpl clock. apply slept_clock.
  - intros Hne. destruct bads as [|b bads]; [contradiction|].
    inversion H as [|? ? (Hl & Hc & Hm) Hbads]; subst.
    simpl in Hq. rewrite <- app_assoc in Hq.
    unfold get. simpl fst. simpl snd. unfold time_time. cbv beta iota.
    cbn [get_loop]. unfold get_turn, bind at 1.
    rewrite (read_bad_line b (text_lines bads ++ encode_lines (r :: rs)) w);
      try assumption; [reflexivity|].
    apply text_lines_no_CR; [assumption | apply (encode_no_CR laws)].
Qed.

(** X11. The size the producer side reports goes stale: when the consumer
    side takes a record from the file, the size of the file-backed queue
    drops by one, and the size of the in-memory queue stays what it was. *)
Theorem producer_size_goes_stale (items : list pyval) (r : pyval)
  (rs : list pyval) (w : world) :
  faults w = [] ->
  qfile w = Some (encode_lines (r :: rs)) ->
  well_formed r = true -> is_None r = false ->
  exists w1,
    get 1 false None (consumer_queue, w) = Some (Ok r, (consumer_queue, w1)) /\
    fst (qsize (consumer_queue, w)) = Ok (S (length rs)) /\
    fst (qsize (consumer_queue, w1)) = Ok (length rs) /\
    fst (qsize (producer_queue items, w)) = Ok (length items) /\
    fst (qsize (producer_queue items, w1)) = Ok (length items).
Proof.
  intros Hf Hq Hwf Hn. exists (set_qfile (encode_lines rs) w).
  split; [now apply get_first_record|].
  unfold qsize, self, bind, in_world. simpl.
  rewrite (count_encoded laws (r :: rs) w Hf Hq).
  rewrite (count_encoded laws rs (set_qfile (encode_lines rs) w));
    [|assumption | reflexivity].
  now repeat split.
Qed.

(** X12. The in-memory queue and the file are not kept in step: after a
    [put] on the producer side, a [get] on the producer side returns the
    record from memory and leaves its line in the file, so a [get] on the
    consumer side returns the same record once more.  This holds for every
    [block] and [timeout] the library's [get] takes, that is, unless it is
    asked to block with a negative timeout. *)
Theorem record_delivered_twice (x : pyval) (w : world) (fuel : nat)
  (block : bool) (timeout : option Q) :
  faults w = [] ->
  content w = [] ->
  well_formed x = true -> is_None x = false ->
  (block = true -> forall t, timeout = Some t -> (0 <= t)%Q) ->
  exists w1,
    put x false None (producer_queue [], w) = (Ok tt, (producer_queue [x], w1)) /\
    get fuel block timeout (producer_queue [x], w1)
    = Some (Ok x, (producer_queue [], w1)) /\
    get (S fuel) block timeout (consumer_queue, w1)
    = Some (Ok x, (consumer_queue, set_qfile [] w1)).
Proof.
  intros Hf Hc Hwf Hn Ht. exists (set_qfile (encode_lines [x]) w).
  split; [|split].
  - rewrite put_producer, (append_encoded x [] w Hf Hc). reflexivity.
  - now apply get_from_memory.
  - now rewrite (get_first_record fuel block timeout x []
                   (set_qfile (encode_lines [x]) w)).
Qed.

(** X13. [empty()] and [get] can disagree.  When the first line of the
    file is blank and a later line is not, [empty()] on the consumer side
    answers [False] and [qsize()] counts the later lines, yet [get] without
    blocking raises [queue.Empty]. *)
Theorem not_empty_yet_Empty (w : world) (c line0 : str) (rest : list str) :
  faults w = [] ->
  qfile w = Some c ->
  lines_of c = line0 :: rest ->
  forallb isspace line0 = true ->
  existsb (fun line => negb (is_nil (strip line))) rest = true ->
  fst (empty (consumer_queue, w)) = Ok false /\
  signal (get 1 false None (consumer_queue, w)) = Some (Raise Empty).
Proof.
  intros Hf Hq Hl Hb Hr. split.
  - unfold empty, self, bind, in_world, ret. simpl.
    rewrite (count_healthy w c Hf Hq), Hl. simpl.
    rewrite (strip_all_space line0 Hb). simpl.
    destruct (filter _ rest) as [|l ls] eqn:E; [|reflexivity].
    exfalso. apply existsb_exists in Hr. destruct Hr as (l & Hin & Hl').
    assert (In l (filter (fun line => negb (is_nil (strip line))) rest))
      by (apply filter_In; now split).
    rewrite E in H. contradiction.
  - unfold get. simpl fst. simpl snd. unfold time_time. cbv beta iota.
    cbn [get_loop]. unfold get_turn, bind at 1.
    rewrite (read_blank w c line0 rest Hq Hl (strip_all_space line0 Hb)).
    reflexivity.
Qed.

End more_queue_object.

(** * Further properties of the [/event] and [/health] handlers *)

Section more_endpoint.

Context {codec : JsonCodec}.

(** The objects that pass [validate_event]. *)
Lemma accepted_fields (data : pyval) :
  accepted data = true <->
  exists fields,
    data = PyDict fields /\
    nonblank_string (dict_get (lit "site_id") fields) = true /\
    nonblank_string (dict_get (lit "event_type") fields) = true.
Proof.
  split.
  - intros H. destruct (accepted_inv data H) as [(fields & ->) _].
    exists fields. split; [reflexivity|]. revert H.
    unfold accepted, validate_event, bind, of_outcome, ret, py_in, py_getitem,
      dict_has, nonblank_string, not_nonempty_string.
    destruct (dict_get (lit "site_id") fields) as [[| | |t| |]|];
      cbn [negb]; try discriminate.
    destruct (is_nil (strip t)); cbn [negb]; try discriminate.
    destruct (dict_get (lit "event_type") fields) as [[| | |t'| |]|];
      cbn [negb]; try discriminate.
    destruct (is_nil (strip t')); cbn [negb]; try discriminate.
    now split.
  - intros (fields & -> & Hs & He).
    unfold accepted, validate_event, bind, of_outcome, ret, py_in, py_getitem,
      dict_has, nonblank_string, not_nonempty_string in *.
    destruct (dict_get (lit "site_id") fields) as [[| | |t| |]|];
      try discriminate.
    destruct (is_nil (strip t)); try discriminate.
    destruct (dict_get (lit "event_type") fields) as [[| | |t'| |]|];
      try discriminate.
    destruct (is_nil (strip t')); try discriminate.
    reflexivity.
Qed.

(** X14. What [validate_event] accepts: exactly the objects whose
    ['site_id'] and ['event_type'] are strings with something other than
    white space in them.  Nothing else passes, whatever its other fields. *)
Theorem accepted_iff (data : pyval) :
  accepted data = true <->
  exists fields,
    data = PyDict fields /\
    nonblank_string (dict_get (lit "site_id") fields) = true /\
    nonblank_string (dict_get (lit "event_type") fields) = true.
Proof. exact (accepted_fields data). Qed.

(** A request that is not accepted is answered with something other
    than 200 and changes nothing. *)
Lemma receive_event_rejected (utcnow : str) (req : request)
  (s : SharedQueue * world) :
  is_json req = false \/
  match get_json req with
  | Ok data => accepted data = false
  | Raise _ => True
  end ->
  exists resp,
    receive_event utcnow req s = (Ok resp, s) /\ status resp <> 200.
Proof.
  intros H. unfold receive_event.
  destruct (is_json req);
    [|eexists; split; [reflexivity | discriminate]]. cbn [negb].
  destruct H as [H|H]; [discriminate|].
  unfold try_except, bind at 1, of_outcome.
  destruct (get_json req) as [data|e];
    [|destruct e; eexists; (split; [reflexivity | discriminate])].
  destruct (is_None data); [eexists; split; [reflexivity | discriminate]|].
  unfold bind at 1. rewrite validate_event_pure.
  unfold accepted in H.
  destruct (@validate_event unit data tt) as [[[[|] msg]|e] u];
    cbn [fst snd negb]; try discriminate.
  - eexists; split; [reflexivity | discriminate].
  - destruct e; eexists; (split; [reflexivity | discriminate]).
Qed.

(** The run of the handler on an accepted object. *)
Lemma receive_event_accepted (utcnow : str) (req : request)
  (fields : list (str * pyval)) (items : list pyval) (w : world) :
  is_json req = true ->
  get_json req = Ok (PyDict fields) ->
  accepted (PyDict fields) = true ->
  exists resp,
    receive_event utcnow req (producer_queue items, w)
    = (Ok resp, (producer_queue (items ++ [stamped utcnow fields]),
                 snd (_append_to_file (stamped utcnow fields) w))) /\
    status resp = match fst (_append_to_file (stamped utcnow fields) w) with
                  | Ok _ => 200
                  | Raise _ => 500
                  end.
Proof.
  intros Hj Hg Ha. destruct (accepted_inv _ Ha) as [_ (msg & Hv)].
  set (record := stamped utcnow fields).
  assert (Hput : exists resp,
             match put record false None (producer_queue items, w) with
             | (Ok _, s) =>
                 (Ok {| body := Message (lit "Event received");
                        status := 200 |}, s)
             | (Raise e, s) =>
                 match e with
                 | Full =>
                     (Ok {| body := Error (lit "Service temporarily unavailable: queue is full");
                            status := 503 |}, s)
                 | JSONDecodeError =>
                     (Ok {| body := ErrorOf (lit "Invalid JSON") e;
                            status := 400 |}, s)
                 | _ =>
                     (Ok {| body := ErrorOf (lit "Internal server error") e;
                            status := 500 |}, s)
                 end
             end = (Ok resp, (producer_queue (items ++ [record]),
                              snd (_append_to_file record w)))
             /\ status resp = match fst (_append_to_file record w) with
                              | Ok _ => 200
                              | Raise _ => 500
                              end).
  { rewrite put_producer.
    destruct (_append_to_file record w) as [[u|e] w'] eqn:Ea; cbn [fst snd].
    - eexists. split; reflexivity.
    - destruct (append_raises record w w' e Ea) as [(cause & ->) _].
      eexists. split; reflexivity. }
  destruct Hput as (resp & Hput & Hst). exists resp. split; [|exact Hst].
  rewrite <- Hput. clear Hput Hst.
  unfold receive_event. rewrite Hj, Hg. cbn [negb].
  unfold try_except, bind at 1, of_outcome. cbn [is_None].
  unfold bind at 1. rewrite validate_event_pure, Hv. cbn [fst snd negb].
  unfold bind at 1. cbn [py_in].
  unfold record, stamped.
  destruct (dict_has (lit "timestamp") fields) eqn:E;
    cbn [negb]; unfold bind at 1, ret, of_outcome; cbn [py_setitem].
  - unfold bind.
    destruct (put (PyDict fields) false None (producer_queue items, w))
      as [[u|e] s]; [reflexivity|]. now destruct e.
  - rewrite (dict_set_fresh _ _ _ E). unfold bind.
    destruct (put _ false None (producer_queue items, w))
      as [[u|e] s]; [reflexivity|]. now destruct e.
Qed.

(** X15. A 200 answer means the record is in the file.  Whatever the
    request and whatever the disk does, the handler answers without
    raising; and when the status is 200 the body was an accepted object,
    its stamped record is the last line of the queue file and the last
    item of the in-memory sequence. *)
Theorem status_200_means_durable (utcnow : str) (req : request)
  (items : list pyval) (w : world) :
  exists resp q' w',
    receive_event utcnow req (producer_queue items, w) = (Ok resp, (q', w')) /\
    (status resp = 200 ->
     exists fields,
       get_json req = Ok (PyDict fields) /\
       accepted (PyDict fields) = true /\
       q' = producer_queue (items ++ [stamped utcnow fields]) /\
       content w' = content w ++ json_dumps (stamped utcnow fields) ++ [LF]).
Proof.
  destruct (is_json req) eqn:Hj.
  2:{ destruct (receive_event_rejected utcnow req (producer_queue items, w))
        as (resp & E & Hs); [now left|].
      exists resp, (producer_queue items), w. split; [exact E | contradiction]. }
  destruct (get_json req) as [data|e] eqn:Hg.
  2:{ destruct (receive_event_rejected utcnow req (producer_queue items, w))
        as (resp & E & Hs); [right; now rewrite Hg|].
      exists resp, (producer_queue items), w. split; [exact E | contradiction]. }
  destruct (accepted data) eqn:Ha.
  2:{ destruct (receive_event_rejected utcnow req (producer_queue items, w))
        as (resp & E & Hs); [right; now rewrite Hg|].
      exists resp, (producer_queue items), w. split; [exact E | contradiction]. }
  destruct (accepted_inv data Ha) as [(fields & ->) _].
  destruct (receive_event_accepted utcnow req fields items w Hj Hg Ha)
    as (resp & E & Hs).
  eexists resp, _, _. split; [exact E|]. intros H200.
  exists fields. repeat split; try assumption.
  pose proof (append_keeps_content_lemma (stamped utcnow fields) w) as Hk.
  rewrite H200 in Hs.
  destruct (fst (_append_to_file (stamped utcnow fields) w));
    [exact Hk | discriminate].
Qed.


(** X17. A JSON body that is not an object never gets through, but the
    status depends on its shape: a number, a boolean, a list that holds
    ['site_id'] and a string that contains it make [validate_event] raise
    [TypeError], which is answered with 500; any other list or string is
    answered with 400.  Nothing is enqueued either way. *)
Theorem non_object_body_status (utcnow : str) (req : request) (data : pyval)
  (s : SharedQueue * world) :
  is_json req = true ->
  get_json req = Ok data ->
  is_None data = false ->
  (forall fields, data <> PyDict fields) ->
  exists resp,
    receive_event utcnow req s = (Ok resp, s) /\
    status resp = if body_raises_TypeError data then 500 else 400.
Proof.
  intros Hj Hg Hn Hd. unfold receive_event. rewrite Hj, Hg. cbn [negb].
  unfold try_except, bind at 1, of_outcome. rewrite Hn.
  unfold bind at 1. rewrite validate_event_pure.
  destruct data as [|b|z|t|l|fields]; try discriminate.
  - eexists. split; reflexivity.
  - eexists. split; reflexivity.
  - unfold validate_event, bind, of_outcome, ret. cbn [py_in fst].
    cbn [body_raises_TypeError].
    destruct (is_substring (lit "site_id") t); eexists; split; reflexivity.
  - unfold validate_event, bind, of_outcome, ret. cbn [py_in fst].
    cbn [body_raises_TypeError].
    destruct (existsb _ l); eexists; split; reflexivity.
  - exfalso. now apply (Hd fields).
Qed.

End more_endpoint.

(** * Properties of the processor *)

Lemma stored_text (t : str) : stored (PyStr t) = Some (Some t).
Proof. reflexivity. Qed.

(** What [insert_event] does, in terms of the row of the event. *)
Lemma insert_event_row (ev : pyval) (db : database) :
  insert_event ev db
  = match (if sqlite_fails db then None else events db), row_of_event ev with
    | Some rows, Some row =>
        (true, {| events := Some (rows ++ [row]);
                  sqlite_fails := sqlite_fails db |})
    | _, _ => (false, db)
    end.
Proof.
  unfold insert_event, row_of_event, sqlite3_connect, execute_insert.
  destruct (sqlite_fails db); [reflexivity|].
  destruct (py_get ev (lit "site_id")) as [a|];
    [|now destruct (events db)].
  destruct (py_get ev (lit "event_type")) as [b|];
    [|now destruct (events db)].
  destruct (py_get ev (lit "path")) as [c|];
    [|now destruct (events db)].
  destruct (py_get ev (lit "user_id")) as [d|];
    [|now destruct (events db)].
  destruct (py_get ev (lit "timestamp")) as [e|];
    [|now destruct (events db)].
  destruct (events db) as [rows|];
    destruct (stored a) as [[s|]|]; try reflexivity;
    destruct (stored b) as [[t|]|]; try reflexivity;
    destruct (stored c) as [p|]; try reflexivity;
    destruct (stored d) as [u|]; try reflexivity;
    destruct (stored e) as [ts|]; reflexivity.
Qed.

(** An event that has a row is a dict that holds both required keys. *)
Lemma row_of_event_keys (ev : pyval) (row : event_row) :
  row_of_event ev = Some row ->
  py_in (lit "site_id") ev = Ok true /\ py_in (lit "event_type") ev = Ok true.
Proof.
  unfold row_of_event. destruct ev as [| | | | |fields]; try discriminate.
  cbn [py_get py_in]. unfold dict_has.
  destruct (dict_get (lit "site_id") fields) as [a|]; [|discriminate].
  destruct (dict_get (lit "event_type") fields) as [b|];
    [now split|].
  destruct (stored a) as [[s|]|]; discriminate.
Qed.

Lemma process_event_row (ev : pyval) (row : event_row) (db : database) :
  row_of_event ev = Some row ->
  process_event ev db = insert_event ev db.
Proof.
  intros H. destruct (row_of_event_keys ev row H) as [Hs Ht].
  unfold process_event. now rewrite Hs, Ht.
Qed.

Lemma process_event_no_row (ev : pyval) (db : database) :
  row_of_event ev = None -> process_event ev db = (false, db).
Proof.
  intros H. unfold process_event.
  destruct (py_in (lit "site_id") ev) as [[|]|]; try reflexivity.
  destruct (py_in (lit "event_type") ev) as [[|]|]; try reflexivity.
  cbn [negb]. rewrite insert_event_row, H.
  now destruct (if sqlite_fails db then None else events db).
Qed.

(** X18. [process_event] stores an event or changes nothing.  It returns
    [True] exactly when one row has been added at the end of the table,
    carrying the event's [site_id] and [event_type]; when it returns
    [False] (a key is missing, the event is not an object, a value cannot
    be stored, the table is missing, SQLite fails) the database is what it
    was. *)
Theorem process_event_all_or_nothing (ev : pyval) (db : database) :
  (process_event ev db = (false, db)) \/
  (exists rows row site_id event_type,
     events db = Some rows /\
     process_event ev db
     = (true, {| events := Some (rows ++ [row]);
                 sqlite_fails := sqlite_fails db |}) /\
     py_get ev (lit "site_id") = Ok site_id /\
     stored site_id = Some (Some (row_site_id row)) /\
     py_get ev (lit "event_type") = Ok event_type /\
     stored event_type = Some (Some (row_event_type row))).
Proof.
  destruct (row_of_event ev) as [row|] eqn:E;
    [|left; now apply process_event_no_row].
  rewrite (process_event_row ev row db E), insert_event_row, E.
  destruct (sqlite_fails db); [now left|].
  destruct (events db) as [rows|]; [|now left].
  right. revert E. unfold row_of_event.
  destruct (py_get ev (lit "site_id")) as [a|] eqn:Ea; [|discriminate].
  destruct (py_get ev (lit "event_type")) as [b|] eqn:Eb; [|discriminate].
  destruct (py_get ev (lit "path")) as [c|]; [|discriminate].
  destruct (py_get ev (lit "user_id")) as [d|]; [|discriminate].
  destruct (py_get ev (lit "timestamp")) as [e|]; [|discriminate].
  destruct (stored a) as [[s|]|] eqn:Sa; try discriminate.
  destruct (stored b) as [[t|]|] eqn:Sb; try discriminate.
  destruct (stored c) as [p|]; try discriminate.
  destruct (stored d) as [u|]; try discriminate.
  destruct (stored e) as [ts|]; try discriminate.
  intros [= <-]. exists rows. eexists. exists a, b.
  repeat split; assumption.
Qed.

Lemma dict_get_snoc_other (k k' : str) (v : pyval) (d : list (str * pyval)) :
  k <> k' -> dict_get k (d ++ [(k', v)]) = dict_get k d.
Proof.
  intros H. induction d as [|[k0 v0] d IH]; simpl.
  - apply str_eqb_neq in H. now rewrite H.
  - destruct (str_eqb k k0); [reflexivity | exact IH].
Qed.

Lemma py_get_stamped (utcnow k : str) (fields : list (str * pyval)) :
  k <> lit "timestamp" ->
  py_get (stamped utcnow fields) k = py_get (PyDict fields) k.
Proof.
  intros H. unfold stamped.
  destruct (dict_has (lit "timestamp") fields); [reflexivity|].
  cbn [py_get]. now rewrite dict_get_snoc_other.
Qed.

Lemma NoDup_snoc (A : Type) (l : list A) (x : A) :
  NoDup l -> ~ In x l -> NoDup (l ++ [x]).
Proof.
  intros H Hx. induction H as [|y l Hy Hl IH]; simpl.
  - constructor; [tauto | constructor].
  - constructor.
    + rewrite in_app_iff. simpl. intros [F|[F|[]]]; [contradiction|].
      subst. apply Hx. now left.
    + apply IH. intros F. apply Hx. now right.
Qed.

Lemma well_formed_stamped (utcnow : str) (fields : list (str * pyval)) :
  well_formed (PyDict fields) = true ->
  well_formed (stamped utcnow fields) = true.
Proof.
  intros H. unfold stamped.
  destruct (dict_has (lit "timestamp") fields) eqn:E; [exact H|].
  cbn [well_formed] in *. apply andb_true_iff in H. destruct H as [Hk Hv].
  apply andb_true_iff. split.
  - apply distinct_keys_NoDup. rewrite map_app. simpl.
    apply NoDup_snoc; [now apply distinct_keys_NoDup|].
    now apply dict_has_false.
  - rewrite forallb_app, Hv. reflexivity.
Qed.

Lemma truthy_stamped (utcnow : str) (fields : list (str * pyval)) :
  accepted (PyDict fields) = true -> truthy (stamped utcnow fields) = true.
Proof.
  intros H. apply accepted_fields in H.
  destruct H as (fields' & [= <-] & Hs & _).
  unfold stamped. destruct (dict_has (lit "timestamp") fields).
  - destruct fields; [discriminate Hs | reflexivity].
  - destruct fields; reflexivity.
Qed.

Lemma truthy_not_None (v : pyval) : truthy v = true -> is_None v = false.
Proof. now destruct v. Qed.

Section more_processor.

Context {codec : JsonCodec}.
Variable Queue_task_done : method unit.
Hypothesis laws : json_laws codec.

(** A turn that finds a record at the head of the file. *)
Lemma processor_turn_record (fuel : nat) (ev : pyval) (rs : list pyval)
  (w : world) (db : database) :
  faults w = [] ->
  qfile w = Some (encode_lines (ev :: rs)) ->
  well_formed ev = true -> truthy ev = true ->
  processor_turn Queue_task_done (S fuel) (consumer_queue, w) db
  = Some ((consumer_queue, set_qfile (encode_lines rs) w),
          snd (process_event ev db)).
Proof.
  intros Hf Hq Hwf Ht. unfold processor_turn.
  rewrite (get_first_record laws fuel true (Some 1%Q) ev rs w Hf Hq Hwf
             (truthy_not_None ev Ht)).
  rewrite Ht. now destruct (process_event ev db).
Qed.

Lemma processor_turns_rows (fuel : nat) (evs : list pyval)
  (new_rows : list event_row) :
  forall (w : world) (rows : list event_row),
    faults w = [] ->
    qfile w = Some (encode_lines evs) ->
    Forall2 (fun ev row => well_formed ev = true /\ truthy ev = true
                           /\ row_of_event ev = Some row) evs new_rows ->
    processor_turns Queue_task_done (length evs) (S fuel) (consumer_queue, w)
      {| events := Some rows; sqlite_fails := false |}
    = Some ((consumer_queue,
             match evs with [] => w | _ :: _ => set_qfile [] w end),
            {| events := Some (rows ++ new_rows); sqlite_fails := false |}).
Proof.
  intros w rows Hf Hq H. revert w rows Hf Hq.
  induction H as [|ev row evs new_rows (Hwf & Ht & Hr) _ IH];
    intros w rows Hf Hq.
  - simpl. now rewrite app_nil_r.
  - cbn [length processor_turns].
    rewrite (processor_turn_record fuel ev evs w _ Hf Hq Hwf Ht).
    rewrite (process_event_row ev row _ Hr), insert_event_row, Hr.
    cbn [sqlite_fails events snd].
    rewrite IH; [|exact Hf | reflexivity].
    rewrite <- app_assoc. simpl. now destruct evs.
Qed.

(** X19. The processor stores events in the order they were queued: on
    a file of records that can each be stored, as many turns as there are
    records empty the file and add their rows to the table, in file
    order. *)
Theorem processor_stores_in_order (fuel : nat) (evs : list pyval)
  (new_rows rows : list event_row) (w : world) :
  faults w = [] ->
  qfile w = Some (encode_lines evs) ->
  Forall2 (fun ev row => well_formed ev = true /\ truthy ev = true
                         /\ row_of_event ev = Some row) evs new_rows ->
  exists w',
    processor_turns Queue_task_done (length evs) (S fuel) (consumer_queue, w)
      {| events := Some rows; sqlite_fails := false |}
    = Some ((consumer_queue, w'),
            {| events := Some (rows ++ new_rows); sqlite_fails := false |}) /\
    content w' = [].
Proof.
  intros Hf Hq H.
  rewrite (processor_turns_rows fuel evs new_rows w rows Hf Hq H).
  eexists. split; [reflexivity|].
  destruct evs; [|reflexivity]. unfold content. now rewrite Hq.
Qed.

(** X20. An accepted event can be lost after its 200.  When its [path] or
    [user_id] is a value SQLite cannot bind (a list, an object, an integer
    beyond 64 bits), the handler answers 200 and queues it, and the
    processor's next turn takes it out of the file and stores nothing. *)
Theorem accepted_event_dropped_by_processor (utcnow : str) (req : request)
  (fields : list (str * pyval)) (k : str) (v : pyval) (items : list pyval)
  (w : world) (db : database) (fuel : nat) :
  faults w = [] -> content w = [] ->
  is_json req = true ->
  get_json req = Ok (PyDict fields) ->
  accepted (PyDict fields) = true ->
  well_formed (PyDict fields) = true ->
  k = lit "path" \/ k = lit "user_id" ->
  dict_get k fields = Some v ->
  stored v = None ->
  exists resp w1,
    receive_event utcnow req (producer_queue items, w)
    = (Ok resp, (producer_queue (items ++ [stamped utcnow fields]), w1)) /\
    status resp = 200 /\
    content w1 = json_dumps (stamped utcnow fields) ++ [LF] /\
    processor_turn Queue_task_done (S fuel) (consumer_queue, w1) db
    = Some ((consumer_queue, set_qfile [] w1), db).
Proof.
  intros Hf Hc Hj Hg Ha Hwf Hk Hv Hs.
  destruct (receive_event_accepted utcnow req fields items w Hj Hg Ha)
    as (resp & E & Hst).
  rewrite (append_encoded (stamped utcnow fields) [] w Hf Hc) in E, Hst.
  cbn [fst snd] in E, Hst. cbn [app] in E.
  exists resp, (set_qfile (encode_lines [stamped utcnow fields]) w).
  split; [exact E|]. split; [exact Hst|]. split.
  { unfold content. simpl. now rewrite app_nil_r. }
  rewrite (processor_turn_record fuel (stamped utcnow fields) []
             (set_qfile (encode_lines [stamped utcnow fields]) w) db);
    try reflexivity; try assumption.
  - rewrite process_event_no_row; [reflexivity|].
    unfold row_of_event.
    rewrite !py_get_stamped by discriminate.
    destruct (py_get (stamped utcnow fields) (lit "timestamp")) as [e|];
      cbn [py_get];
      destruct Hk as [-> | ->]; try rewrite Hv, Hs;
      repeat match goal with
             | |- context [match stored ?x with _ => _ end] =>
                 destruct (stored x) as [[?|]|]
             end; reflexivity.
  - now apply well_formed_stamped.
  - now apply truthy_stamped.
Qed.

End more_processor.

(** * Properties of the [/stats] handler *)

(** ** Counting paths *)

Lemma count_of_count_add (k k' : str) (d : list (str * nat)) :
  count_of k (count_add k' d)
  = count_of k d + (if str_eqb k k' then 1 else 0).
Proof.
  induction d as [|[k0 n] d IH]; simpl.
  - destruct (str_eqb k k'); reflexivity.
  - destruct (str_eqb k' k0) eqn:E0; simpl.
    + apply str_eqb_eq in E0. subst k0.
      destruct (str_eqb k k'); lia.
    + destruct (str_eqb k k0) eqn:E1; [|exact IH].
      apply str_eqb_eq in E1. subst k0.
      destruct (str_eqb k k') eqn:E2; [|lia].
      apply str_eqb_eq in E2. subst k'. rewrite str_eqb_refl in E0.
      discriminate.
Qed.

Lemma keys_count_add (k : str) (d : list (str * nat)) :
  map fst (count_add k d)
  = if existsb (str_eqb k) (map fst d) then map fst d else map fst d ++ [k].
Proof.
  induction d as [|[k0 n] d IH]; simpl; [reflexivity|].
  destruct (str_eqb k k0); simpl; [reflexivity|].
  rewrite IH. now destruct (existsb (str_eqb k) (map fst d)).
Qed.

Lemma existsb_str_eqb (k : str) (l : list str) :
  existsb (str_eqb k) l = true <-> In k l.
Proof.
  rewrite existsb_exists. split.
  - intros (x & Hin & E). apply str_eqb_eq in E. now subst.
  - intros H. exists k. split; [assumption | apply str_eqb_refl].
Qed.

Lemma NoDup_keys_count_add (k : str) (d : list (str * nat)) :
  NoDup (map fst d) -> NoDup (map fst (count_add k d)).
Proof.
  intros H. rewrite keys_count_add.
  destruct (existsb (str_eqb k) (map fst d)) eqn:E; [exact H|].
  apply NoDup_snoc; [exact H|]. intros F.
  apply existsb_str_eqb in F. congruence.
Qed.

Lemma count_of_In (k : str) (n : nat) (d : list (str * nat)) :
  NoDup (map fst d) -> In (k, n) d -> count_of k d = n.
Proof.
  induction d as [|[k0 n0] d IH]; simpl; [tauto|].
  intros Hn [H|H].
  - injection H as -> ->. now rewrite str_eqb_refl.
  - inversion Hn as [|? ? Hk Hd]; subst.
    destruct (str_eqb k k0) eqn:E; [|now apply IH].
    apply str_eqb_eq in E. subst k0. exfalso. apply Hk.
    change k with (fst (k, n)). now apply in_map.
Qed.

Lemma count_of_absent (k : str) (d : list (str * nat)) :
  ~ In k (map fst d) -> count_of k d = 0.
Proof.
  induction d as [|[k0 n0] d IH]; simpl; [reflexivity|].
  intros H. destruct (str_eqb k k0) eqn:E.
  - apply str_eqb_eq in E. subst. tauto.
  - apply IH. tauto.
Qed.

Lemma count_path_keeps (rows : list fetched) :
  forall d,
    NoDup (map fst d) ->
    Forall (fun kv => fst kv <> [] /\ 1 <= snd kv) d ->
    NoDup (map fst (fold_left count_path rows d)) /\
    Forall (fun kv => fst kv <> [] /\ 1 <= snd kv) (fold_left count_path rows d) /\
    forall p, p <> [] ->
      count_of p (fold_left count_path rows d) = count_of p d + path_views rows p.
Proof.
  induction rows as [|[[path u] ts] rows IH]; intros d Hn Hp.
  - simpl. repeat split; try assumption. intros p _. unfold path_views.
    simpl. lia.
  - cbn [fold_left].
    assert (Hstep : NoDup (map fst (count_path d (path, u, ts))) /\
                    Forall (fun kv => fst kv <> [] /\ 1 <= snd kv)
                           (count_path d (path, u, ts)) /\
                    forall p, p <> [] ->
                      count_of p (count_path d (path, u, ts))
                      = count_of p d
                        + (match path with
                           | Some q => if str_eqb q p then 1 else 0
                           | None => 0
                           end)).
    { unfold count_path. destruct path as [[|c q]|].
      - simpl. repeat split; try assumption. intros p Hne.
        destruct p; [contradiction|]. simpl. lia.
      - cbn [text_truthy]. split; [now apply NoDup_keys_count_add|]. split.
        + clear Hn. induction Hp as [|[k0 n0] d [H1 H2] Hd IHd]; simpl.
          * constructor; [|constructor]. simpl. split; [discriminate | lia].
          * destruct (str_eqb (c :: q) k0); constructor; simpl in *;
              try assumption; split; try assumption; lia.
        + intros p _. rewrite count_of_count_add.
          destruct (str_eqb p (c :: q)) eqn:E1;
            destruct (str_eqb (c :: q) p) eqn:E2; try reflexivity.
          * apply str_eqb_eq in E1. subst. rewrite str_eqb_refl in E2.
            discriminate.
          * apply str_eqb_eq in E2. subst. rewrite str_eqb_refl in E1.
            discriminate.
      - repeat split; try assumption. intros p _. lia. }
    destruct Hstep as (Hn' & Hp' & Hc').
    destruct (IH _ Hn' Hp') as (H1 & H2 & H3).
    repeat split; try assumption. intros p Hne.
    rewrite (H3 p Hne), (Hc' p Hne). unfold path_views. simpl.
    destruct path as [q|]; [|lia]. destruct (str_eqb q p); simpl; lia.
Qed.

Lemma path_counts_fold (rows : list fetched) :
  path_counts rows = fold_left count_path rows [].
Proof. reflexivity. Qed.

(** ** Sorting by count *)

Lemma insert_by_count_perm (x : str * nat) (l : list (str * nat)) :
  Permutation (insert_by_count x l) (x :: l).
Proof.
  induction l as [|y l IH]; simpl; [reflexivity|].
  destruct (snd y <? snd x); [reflexivity|].
  rewrite IH. apply perm_swap.
Qed.

Lemma insert_by_count_sorted (x : str * nat) (l : list (str * nat)) :
  StronglySorted no_fewer_views l ->
  StronglySorted no_fewer_views (insert_by_count x l).
Proof.
  intros H. induction H as [|y l Hl IH Hy]; simpl.
  - constructor; constructor.
  - destruct (snd y <? snd x) eqn:E.
    + apply Nat.ltb_lt in E. constructor; [now constructor|].
      constructor; [unfold no_fewer_views; lia|].
      eapply Forall_impl; [|exact Hy]. unfold no_fewer_views. intros a Ha. lia.
    + apply Nat.ltb_ge in E. constructor; [exact IH|].
      rewrite (insert_by_count_perm x l).
      constructor; [exact E | exact Hy].
Qed.

Lemma sorted_by_count_spec (l : list (str * nat)) :
  Permutation (sorted_by_count l) l /\
  StronglySorted no_fewer_views (sorted_by_count l).
Proof.
  unfold sorted_by_count.
  assert (H : forall acc,
             StronglySorted no_fewer_views acc ->
             Permutation (fold_left (fun acc x => insert_by_count x acc) l acc)
                         (acc ++ l) /\
             StronglySorted no_fewer_views
               (fold_left (fun acc x => insert_by_count x acc) l acc)).
  { induction l as [|x l IH]; intros acc Hacc; simpl.
    - now rewrite app_nil_r.
    - destruct (IH (insert_by_count x acc) (insert_by_count_sorted x acc Hacc))
        as [Hp Hs].
      split; [|exact Hs]. rewrite Hp, insert_by_count_perm.
      apply Permutation_middle. }
  destruct (H [] (SSorted_nil _)) as [Hp Hs]. now split.
Qed.

Lemma firstn_skipn_sorted (k : nat) (l : list (str * nat)) :
  StronglySorted no_fewer_views l ->
  StronglySorted no_fewer_views (firstn k l) /\
  forall a b, In a (firstn k l) -> In b (skipn k l) -> snd b <= snd a.
Proof.
  intros H. revert k. induction H as [|y l Hl IH Hy]; intros k.
  - rewrite firstn_nil, skipn_nil. split; [constructor | simpl; tauto].
  - destruct k as [|k]; simpl.
    + split; [constructor | tauto].
    + destruct (IH k) as [H1 H2]. split.
      * constructor; [exact H1|].
        rewrite Forall_forall in *. intros a Ha. apply Hy.
        rewrite <- (firstn_skipn k l). apply in_or_app. now left.
      * intros a b [<-|Ha] Hb; [|now apply H2].
        rewrite Forall_forall in Hy. apply (Hy b).
        rewrite <- (firstn_skipn k l). apply in_or_app. now right.
Qed.

(** ** Collecting user ids *)

Lemma unique_user_ids_fold (rows : list fetched) :
  unique_user_ids rows = fold_left collect_user rows [].
Proof. reflexivity. Qed.

Lemma collect_user_keeps (rows : list fetched) :
  forall s,
    NoDup s ->
    NoDup (fold_left collect_user rows s) /\
    length (fold_left collect_user rows s) <= length s + length rows /\
    forall u, In u (fold_left collect_user rows s)
              <-> In u s \/ (u <> [] /\ In (Some u) (user_ids rows)).
Proof.
  induction rows as [|[[path user] ts] rows IH]; intros s Hs.
  - simpl. repeat split; try assumption; try lia; [tauto|].
    intros [H|[_ []]]. exact H.
  - cbn [fold_left].
    assert (Hstep : NoDup (collect_user s (path, user, ts)) /\
                    length (collect_user s (path, user, ts)) <= S (length s) /\
                    forall u, In u (collect_user s (path, user, ts))
                              <-> In u s \/ (u <> [] /\ Some u = user)).
    { unfold collect_user. destruct user as [[|c t]|].
      - simpl. repeat split; try assumption; try lia; [tauto|].
        intros [H|[H1 H2]]; [exact H|]. injection H2 as ->. contradiction.
      - cbn [text_truthy]. unfold set_add.
        destruct (existsb (str_eqb (c :: t)) s) eqn:E.
        + repeat split; try assumption; try lia; [tauto|].
          intros [H|[_ H]]; [exact H|]. injection H as ->.
          now apply existsb_str_eqb.
        + split; [|split].
          * apply NoDup_snoc; [exact Hs|]. intros F.
            apply existsb_str_eqb in F. congruence.
          * rewrite length_app. simpl. lia.
          * intros u. rewrite in_app_iff. simpl. split.
            -- intros [H|[<-|[]]]; [now left|]. right. split;
                 [discriminate | reflexivity].
            -- intros [H|[_ H]]; [now left|]. injection H as ->.
               right. now left.
      - repeat split; try assumption; try lia; [tauto|].
        intros [H|[_ H]]; [exact H | discriminate]. }
    destruct Hstep as (Hn & Hl & Hm).
    destruct (IH _ Hn) as (H1 & H2 & H3).
    split; [exact H1|]. split; [cbn [length]; lia|].
    intros u. rewrite H3, Hm. unfold user_ids. simpl. split.
    + intros [[H|[Hu H]]|[Hu H]]; [now left | |].
      * right. split; [exact Hu | now left].
      * right. split; [exact Hu | now right].
    + intros [H|[Hu [H|H]]]; [left; now left | |].
      * left. right. split; [exact Hu | now symmetry].
      * right. now split.
Qed.

(** ** The [LIKE] pattern of a date *)

Lemma ascii_lower_not_upper (c : ascii) :
  (65 <=? nat_of_ascii c) && (nat_of_ascii c <=? 90) = false ->
  ascii_lower c = c.
Proof. unfold ascii_lower. now intros ->. Qed.

Lemma literal_char_lower (c e : ascii) :
  literal_char c = true ->
  Ascii.eqb (ascii_lower c) (ascii_lower e) = Ascii.eqb c e.
Proof.
  unfold literal_char. intros H.
  apply andb_true_iff in H. destruct H as [H Hlow].
  apply andb_true_iff in H. destruct H as [_ Hup].
  apply negb_true_iff in Hlow, Hup.
  rewrite (ascii_lower_not_upper c Hup).
  unfold ascii_lower.
  destruct ((65 <=? nat_of_ascii e) && (nat_of_ascii e <=? 90)) eqn:Ee;
    [|reflexivity].
  apply andb_true_iff in Ee. destruct Ee as [E1 E2].
  apply Nat.leb_le in E1, E2.
  destruct (Ascii.eqb_spec c e) as [->|Hne].
  - rewrite (proj2 (andb_true_iff _ _)) in Hup; [discriminate|].
    split; now apply Nat.leb_le.
  - destruct (Ascii.eqb_spec c (ascii_of_nat (nat_of_ascii e + 32)))
      as [->|_]; [|reflexivity].
    rewrite nat_ascii_embedding in Hlow by lia.
    rewrite (proj2 (andb_true_iff _ _)) in Hlow; [discriminate|].
    split; apply Nat.leb_le; lia.
Qed.

Lemma sql_like_percent (text : str) : sql_like (lit "%") text = true.
Proof.
  induction text as [|c text IH]; [reflexivity|].
  simpl in *. exact IH.
Qed.

(** When the date holds no wild card and no letter, [LIKE date%] is
    "starts with the date". *)
Lemma sql_like_prefix (d text : str) :
  forallb literal_char d = true ->
  sql_like (d ++ lit "%") text = is_prefix d text.
Proof.
  revert text. induction d as [|c d IH]; intros text H.
  - simpl app. rewrite sql_like_percent. now destruct text.
  - simpl in H. apply andb_true_iff in H. destruct H as [Hc Hd].
    assert (Hp : Ascii.eqb c "%"%char = false /\ Ascii.eqb c "_"%char = false).
    { unfold literal_char in Hc.
      destruct (Ascii.eqb c "%"%char); [discriminate|].
      destruct (Ascii.eqb c "_"%char); [discriminate | now split]. }
    destruct Hp as [Hp Hu].
    change ((c :: d) ++ lit "%") with (c :: (d ++ lit "%")).
    cbn [sql_like]. rewrite Hp, Hu.
    destruct text as [|e text]; [reflexivity|].
    rewrite (literal_char_lower c e Hc), (IH text Hd). reflexivity.
Qed.

(** ** The answers of [/stats] *)

Section more_stats.

Variable strptime_ok : str -> bool.

(** The statistics of some fetched rows, as the handler computes them. *)
Lemma get_stats_answer (args : stats_args) (db : database) (st : stats)
  (code : nat) :
  get_stats strptime_ok args db = {| stats_body := Stats st; stats_status := code |} ->
  code = 200 /\
  exists site rows,
    arg_site_id args = Some site /\ site <> [] /\
    select_events site (date_pattern args) db = Done rows /\
    st = {| stats_site_id := site;
            stats_date := date_of args;
            total_views := length rows;
            unique_users := length (unique_user_ids rows);
            top_paths := firstn 3 (sorted_by_count (path_counts rows)) |}.
Proof.
  unfold get_stats, date_pattern. fold (date_of args).
  destruct (arg_site_id args) as [[|c site]|]; try discriminate.
  cbn [text_truthy negb].
  destruct (date_of args) as [d|].
  - destruct (strptime_ok d); cbn [negb]; try discriminate.
    destruct (sqlite3_connect db); try discriminate.
    destruct (select_events (c :: site) (Some (d ++ lit "%")) db)
      as [rows|] eqn:Hsel; try discriminate.
    destruct rows as [|r rows]; cbn [is_nil]; intros [= <- <-];
      (split; [reflexivity|]); exists (c :: site); eexists;
      (split; [reflexivity|]); (split; [discriminate|]);
      (split; [exact Hsel | reflexivity]).
  - destruct (sqlite3_connect db); try discriminate.
    destruct (select_events (c :: site) None db) as [rows|] eqn:Hsel;
      try discriminate.
    destruct rows as [|r rows]; cbn [is_nil]; intros [= <- <-];
      (split; [reflexivity|]); exists (c :: site); eexists;
      (split; [reflexivity|]); (split; [discriminate|]);
      (split; [exact Hsel | reflexivity]).
Qed.

Lemma NoDup_firstn (A : Type) (k : nat) (l : list A) :
  NoDup l -> NoDup (firstn k l).
Proof.
  intros H. rewrite <- (firstn_skipn k l) in H.
  now apply NoDup_app_remove_r in H.
Qed.

(** What the three listed paths are, for any fetched rows. *)
Lemma top_three (rows : list fetched) :
  let top := firstn 3 (sorted_by_count (path_counts rows)) in
  length top <= 3 /\
  StronglySorted no_fewer_views top /\
  NoDup (map fst top) /\
  forall p n, In (p, n) top ->
    p <> [] /\ 1 <= n /\ n = path_views rows p /\
    forall p', p' <> [] -> ~ In p' (map fst top) -> path_views rows p' <= n.
Proof.
  intros top.
  destruct (count_path_keeps rows [] (NoDup_nil _) (Forall_nil _))
    as (Hnd & Hpos & Hcount).
  rewrite <- path_counts_fold in Hnd, Hpos, Hcount.
  destruct (sorted_by_count_spec (path_counts rows)) as [Hperm Hsort].
  destruct (firstn_skipn_sorted 3 _ Hsort) as [Htop Hcut].
  fold top in Htop, Hcut.
  assert (Hnd' : NoDup (map fst (sorted_by_count (path_counts rows)))).
  { eapply Permutation_NoDup; [|exact Hnd].
    apply Permutation_map. now symmetry. }
  assert (Hin : forall p n, In (p, n) (sorted_by_count (path_counts rows)) ->
                            p <> [] /\ 1 <= n /\ n = path_views rows p).
  { intros p n H. apply (Permutation_in _ Hperm) in H.
    rewrite Forall_forall in Hpos. destruct (Hpos _ H) as [Hp Hn].
    simpl in Hp, Hn. repeat split; try assumption.
    rewrite <- (count_of_In p n _ Hnd H), (Hcount p Hp). reflexivity. }
  split; [apply firstn_le_length|]. split; [exact Htop|]. split.
  { unfold top. rewrite <- firstn_map. now apply NoDup_firstn. }
  intros p n Hpn.
  assert (Hpn' : In (p, n) (sorted_by_count (path_counts rows))).
  { rewrite <- (firstn_skipn 3 (sorted_by_count (path_counts rows))).
    apply in_or_app. now left. }
  destruct (Hin p n Hpn') as (Hp & Hn & Hv).
  repeat split; try assumption.
  intros p' Hp' Hout.
  destruct (in_dec (list_eq_dec ascii_dec) p' (map fst (path_counts rows)))
    as [Hk|Hk].
  - apply in_map_iff in Hk. destruct Hk as ([q n'] & Hq & Hk).
    simpl in Hq. subst q.
    apply (Permutation_in _ (Permutation_sym Hperm)) in Hk.
    destruct (Hin p' n' Hk) as (_ & _ & ->).
    rewrite <- (firstn_skipn 3 (sorted_by_count (path_counts rows))) in Hk.
    apply in_app_or in Hk. destruct Hk as [Hk|Hk].
    + exfalso. apply Hout. change p' with (fst (p', path_views rows p')).
      now apply in_map.
    + apply (Hcut (p, n) (p', path_views rows p') Hpn Hk).
  - pose proof (Hcount p' Hp') as E.
    rewrite (count_of_absent p' _ Hk) in E.
    change (count_of p' []) with 0 in E. lia.
Qed.

(** X21. The [top_paths] of an answer: at most three, sorted by views
    with the most viewed first, each path listed once and never empty;
    the views of a listed path are the number of fetched rows with that
    path; and no path left out has more views than a listed one. *)
Theorem top_paths_are_the_most_viewed (args : stats_args) (db : database)
  (st : stats) (code : nat) :
  get_stats strptime_ok args db
  = {| stats_body := Stats st; stats_status := code |} ->
  exists site rows,
    arg_site_id args = Some site /\
    select_events site (date_pattern args) db = Done rows /\
    length (top_paths st) <= 3 /\
    StronglySorted no_fewer_views (top_paths st) /\
    NoDup (map fst (top_paths st)) /\
    forall p n, In (p, n) (top_paths st) ->
      p <> [] /\ 1 <= n /\ n = path_views rows p /\
      forall p', p' <> [] -> ~ In p' (map fst (top_paths st)) ->
                 path_views rows p' <= n.
Proof.
  intros H. destruct (get_stats_answer args db st code H)
    as (_ & site & rows & Hs & _ & Hsel & ->).
  exists site, rows. split; [exact Hs|]. split; [exact Hsel|].
  cbn [top_paths]. apply top_three.
Qed.

(** X22. The totals of an answer: [total_views] is the number of fetched
    rows; [unique_users] is the number of different user ids among them,
    empty and missing ones left out, and so never exceeds [total_views]. *)
Theorem totals_count_rows_and_users (args : stats_args) (db : database)
  (st : stats) (code : nat) :
  get_stats strptime_ok args db
  = {| stats_body := Stats st; stats_status := code |} ->
  exists site rows users,
    arg_site_id args = Some site /\
    select_events site (date_pattern args) db = Done rows /\
    total_views st = length rows /\
    unique_users st = length users /\
    unique_users st <= total_views st /\
    NoDup users /\
    forall u, In u users <-> u <> [] /\ In (Some u) (user_ids rows).
Proof.
  intros H. destruct (get_stats_answer args db st code H)
    as (_ & site & rows & Hs & _ & Hsel & ->).
  destruct (collect_user_keeps rows [] (NoDup_nil _)) as (Hn & Hl & Hm).
  rewrite <- unique_user_ids_fold in Hn, Hl, Hm.
  exists site, rows, (unique_user_ids rows).
  cbn [unique_users total_views].
  split; [exact Hs|]. split; [exact Hsel|].
  split; [reflexivity|]. split; [reflexivity|].
  split; [exact Hl|]. split; [exact Hn|].
  intros u. rewrite Hm. simpl. tauto.
Qed.

(** The answer on a healthy database that has its table. *)
Lemma get_stats_total (site : str) (date : option str) (rows : list event_row) :
  site <> [] ->
  match (if text_truthy date then date else None) with
  | Some d => strptime_ok d = true
  | None => True
  end ->
  exists st selected,
    get_stats strptime_ok {| arg_site_id := Some site; arg_date := date |}
      {| events := Some rows; sqlite_fails := false |}
    = {| stats_body := Stats st; stats_status := 200 |} /\
    select_events site
      (date_pattern {| arg_site_id := Some site; arg_date := date |})
      {| events := Some rows; sqlite_fails := false |} = Done selected /\
    total_views st = length selected.
Proof.
  intros Hs Hd. unfold get_stats, date_pattern, date_of. cbn [arg_site_id arg_date].
  destruct site as [|c site]; [contradiction|]. cbn [text_truthy negb].
  destruct (if text_truthy date then date else None) as [d|].
  - rewrite Hd. cbn [negb sqlite3_connect sqlite_fails].
    unfold select_events. cbn [events].
    destruct (is_nil _) eqn:E; eexists; eexists;
      (split; [reflexivity|]); (split; [reflexivity|]); cbn [total_views];
      [|reflexivity].
    destruct (map _ _); [reflexivity | discriminate].
  - cbn [sqlite3_connect sqlite_fails]. unfold select_events. cbn [events].
    destruct (is_nil _) eqn:E; eexists; eexists;
      (split; [reflexivity|]); (split; [reflexivity|]); cbn [total_views];
      [|reflexivity].
    destruct (map _ _); [reflexivity | discriminate].
Qed.

(** X24. What [/stats] counts.  Without a date, [total_views] is the
    number of rows of the site.  With a date that holds no [%], no [_]
    and no letter (as every [YYYY-MM-DD] does), it is the number of rows
    of the site whose timestamp starts with the date; rows without a
    timestamp are not counted. *)
Theorem stats_counts_rows_of_site (site : str) (date : option str)
  (rows : list event_row) :
  site <> [] ->
  match (if text_truthy date then date else None) with
  | Some d => strptime_ok d = true /\ forallb literal_char d = true
  | None => True
  end ->
  exists st,
    get_stats strptime_ok {| arg_site_id := Some site; arg_date := date |}
      {| events := Some rows; sqlite_fails := false |}
    = {| stats_body := Stats st; stats_status := 200 |} /\
    total_views st
    = length (filter (fun r =>
                        match (if text_truthy date then date else None),
                              row_timestamp r with
                        | None, _ => true
                        | Some d, Some ts => is_prefix d ts
                        | Some _, None => false
                        end) (rows_of_site site rows)).
Proof.
  intros Hs Hd.
  destruct (get_stats_total site date rows Hs) as (st & sel & E & Hsel & Ht).
  { destruct (if text_truthy date then date else None); tauto. }
  exists st. split; [exact E|]. rewrite Ht.
  unfold select_events in Hsel. cbn [events] in Hsel.
  injection Hsel as <-. rewrite length_map.
  unfold date_pattern, date_of, rows_of_site. cbn [arg_date].
  destruct (if text_truthy date then date else None) as [d|].
  - destruct Hd as [_ Hl]. clear -Hl.
    induction rows as [|r rows IH]; [reflexivity|].
    simpl. destruct (str_eqb (row_site_id r) site); simpl; [|exact IH].
    destruct (row_timestamp r) as [ts|]; [|exact IH].
    change ["%"%char] with (lit "%").
    rewrite (sql_like_prefix d ts Hl).
    destruct (is_prefix d ts); cbn [length]; [f_equal|]; exact IH.
  - clear. induction rows as [|r rows IH]; [reflexivity|].
    simpl. destruct (str_eqb (row_site_id r) site); simpl; [|exact IH].
    now rewrite IH.
Qed.

End more_stats.

(** ** From the request to the statistics *)

Lemma total_views_of_site (strptime_ok : str -> bool) (site : str)
  (rows : list event_row) :
  site <> [] ->
  exists st,
    get_stats strptime_ok {| arg_site_id := Some site; arg_date := None |}
      {| events := Some rows; sqlite_fails := false |}
    = {| stats_body := Stats st; stats_status := 200 |} /\
    total_views st = length (rows_of_site site rows).
Proof.
  intros Hs.
  destruct (get_stats_total strptime_ok site None rows Hs I)
    as (st & sel & E & Hsel & Ht).
  exists st. split; [exact E|]. rewrite Ht.
  unfold select_events, date_pattern, date_of in Hsel.
  cbn [events arg_date text_truthy] in Hsel.
  injection Hsel as <-. rewrite length_map. unfold rows_of_site.
  f_equal. apply filter_ext. intros r. apply andb_true_r.
Qed.

Lemma accepted_site_id (utcnow : str) (fields : list (str * pyval))
  (row : event_row) :
  accepted (PyDict fields) = true ->
  row_of_event (stamped utcnow fields) = Some row ->
  dict_get (lit "site_id") fields = Some (PyStr (row_site_id row)) /\
  row_site_id row <> [].
Proof.
  intros Ha Hr. apply accepted_fields in Ha.
  destruct Ha as (fields' & [= <-] & Hs & _).
  unfold row_of_event in Hr.
  rewrite (py_get_stamped utcnow (lit "site_id")) in Hr by discriminate.
  cbn [py_get] in Hr. unfold nonblank_string in Hs.
  destruct (dict_get (lit "site_id") fields) as [[| | |t| |]|];
    try discriminate.
  destruct (py_get (stamped utcnow fields) (lit "event_type")) as [b|];
    try discriminate.
  destruct (py_get (stamped utcnow fields) (lit "path")) as [c|];
    try discriminate.
  destruct (py_get (stamped utcnow fields) (lit "user_id")) as [d|];
    try discriminate.
  destruct (py_get (stamped utcnow fields) (lit "timestamp")) as [e|];
    try discriminate.
  cbn [stored bind_param as_text] in Hr.
  destruct (stored b) as [[?|]|]; try discriminate.
  destruct (stored c) as [?|]; try discriminate.
  destruct (stored d) as [?|]; try discriminate.
  destruct (stored e) as [?|]; try discriminate.
  injection Hr as <-. cbn [row_site_id]. split; [reflexivity|].
  intros ->. discriminate Hs.
Qed.

Section end_to_end.

Context {codec : JsonCodec}.
Variable Queue_task_done : method unit.
Variable strptime_ok : str -> bool.
Hypothesis laws : json_laws codec.

(** X25. From the request to the statistics.  An accepted event whose
    fields SQLite can store is answered 200 and queued; the processor's
    next turn takes it out of the file and adds its row to the table; and
    [/stats] for its site then counts one view more than before. *)
Theorem accepted_event_is_counted (utcnow : str) (req : request)
  (fields : list (str * pyval)) (items : list pyval) (w : world)
  (rows : list event_row) (row : event_row) (fuel : nat) :
  faults w = [] -> content w = [] ->
  is_json req = true ->
  get_json req = Ok (PyDict fields) ->
  accepted (PyDict fields) = true ->
  well_formed (PyDict fields) = true ->
  row_of_event (stamped utcnow fields) = Some row ->
  let site_args := {| arg_site_id := Some (row_site_id row);
                      arg_date := None |} in
  let db := {| events := Some rows; sqlite_fails := false |} in
  let db' := {| events := Some (rows ++ [row]); sqlite_fails := false |} in
  exists resp w1 st st',
    receive_event utcnow req (producer_queue items, w)
    = (Ok resp, (producer_queue (items ++ [stamped utcnow fields]), w1)) /\
    status resp = 200 /\
    processor_turn Queue_task_done (S fuel) (consumer_queue, w1) db
    = Some ((consumer_queue, set_qfile [] w1), db') /\
    dict_get (lit "site_id") fields = Some (PyStr (row_site_id row)) /\
    get_stats strptime_ok site_args db
    = {| stats_body := Stats st; stats_status := 200 |} /\
    get_stats strptime_ok site_args db'
    = {| stats_body := Stats st'; stats_status := 200 |} /\
    total_views st' = total_views st + 1.
Proof.
  intros Hf Hc Hj Hg Ha Hwf Hr site_args db db'.
  destruct (receive_event_accepted utcnow req fields items w Hj Hg Ha)
    as (resp & E & Hst).
  rewrite (append_encoded (stamped utcnow fields) [] w Hf Hc) in E, Hst.
  cbn [fst snd] in E, Hst. cbn [app] in E.
  destruct (accepted_site_id utcnow fields row Ha Hr) as [Hsite Hne].
  destruct (total_views_of_site strptime_ok _ rows Hne) as (st & Es & Hs).
  destruct (total_views_of_site strptime_ok _ (rows ++ [row]) Hne)
    as (st' & Es' & Hs').
  exists resp, (set_qfile (encode_lines [stamped utcnow fields]) w), st, st'.
  split; [exact E|]. split; [exact Hst|]. split.
  { rewrite (processor_turn_record Queue_task_done laws fuel
               (stamped utcnow fields) []
               (set_qfile (encode_lines [stamped utcnow fields]) w) db);
      try reflexivity; try assumption.
    - rewrite (process_event_row _ row _ Hr), insert_event_row, Hr.
      reflexivity.
    - now apply well_formed_stamped.
    - now apply truthy_stamped. }
  split; [exact Hsite|]. split; [exact Es|]. split; [exact Es'|].
  rewrite Hs', Hs. unfold rows_of_site.
  rewrite filter_app, length_app. cbn [filter].
  now rewrite str_eqb_refl.
Qed.

End end_to_end.

(** * More on the processor and its table *)

Lemma process_event_database (ev : pyval) (db : database) :
  snd (process_event ev db) = db \/
  exists rows row,
    events db = Some rows /\
    snd (process_event ev db)
    = {| events := Some (rows ++ [row]); sqlite_fails := sqlite_fails db |}.
Proof.
  destruct (row_of_event ev) as [row|] eqn:E;
    [|left; now rewrite process_event_no_row].
  rewrite (process_event_row ev row db E), insert_event_row, E.
  destruct (sqlite_fails db); [now left|].
  destruct (events db) as [rows|]; [|now left].
  right. now exists rows, row.
Qed.

Section processor_loop.

Context {codec : JsonCodec}.
Variable Queue_task_done : method unit.

(** X26. An idle turn of the processor: on a queue file that is absent or
    empty, [get(timeout=1)] raises [queue.Empty], not before a second has
    passed on the clock, and the turn ends in the state [get] left:
    without the pause that follows any other exception, and with the file
    and the database as they were. *)
Theorem processor_idle_turn (w : world) (db : database) :
  content w = [] ->
  exists fuel s1,
    get fuel true (Some 1%Q) (consumer_queue, w) = Some (Raise Empty, s1) /\
    processor_turn Queue_task_done fuel (consumer_queue, w) db
    = Some (s1, db) /\
    qfile (snd s1) = qfile w /\
    (1 <= clock (snd s1) - clock w)%Q.
Proof.
  intros Hc.
  destruct (get_loop_times_out 1 (clock w) 10 w Hc) as (w' & Hg & _).
  { change (inject_Z (Z.of_nat 10)) with (10 # 1)%Q. lra. }
  destruct (get_loop_not_early 1 (clock w) 11 w w' _ Hc Hg) as (_ & Hq & Ht).
  assert (E : get 11 true (Some 1%Q) (consumer_queue, w)
              = Some (Raise Empty, (consumer_queue, w'))).
  { unfold get. cbn [fst snd consumer_queue use_file_directly].
    unfold time_time. cbv beta iota. now rewrite Hg. }
  exists 11, (consumer_queue, w'). split; [exact E|].
  unfold processor_turn. rewrite E. now repeat split.
Qed.

(** X27. A turn of the processor never removes or alters a stored row:
    whatever the queue and the file hold, and whether [task_done] raises
    or not, the database after the turn is the one before it, or that one
    with a single row added at the end. *)
Theorem processor_turn_only_appends (fuel : nat) (s s' : SharedQueue * world)
  (db db' : database) :
  processor_turn Queue_task_done fuel s db = Some (s', db') ->
  db' = db \/
  exists rows row,
    events db = Some rows /\
    db' = {| events := Some (rows ++ [row]); sqlite_fails := sqlite_fails db |}.
Proof.
  unfold processor_turn.
  destruct (get fuel true (Some 1%Q) s) as [[[ev|e] s1]|]; [| |discriminate].
  - destruct (truthy ev); [|intros [= _ <-]; now left].
    pose proof (process_event_database ev db) as Hdb.
    destruct (process_event ev db) as [success db1]. cbn [snd] in Hdb.
    destruct (task_done Queue_task_done s1) as [[u|e] s2];
      intros [= _ <-]; exact Hdb.
  - destruct e; intros [= _ <-]; now left.
Qed.

End processor_loop.

(** * The further statements at concrete inputs *)


Lemma other_exception_blocks_witness :
  @pop_n int_limit_codec 3 (file_of (long_number ++ [LF] ++ two_records))
  = (repeat (Ok PyNone) 3, file_of (long_number ++ [LF] ++ two_records)).
Proof.
  apply (@other_exception_blocks int_limit_codec
           (file_of (long_number ++ [LF] ++ two_records))
           (long_number ++ [LF] ++ two_records)
           (long_number ++ [LF]) (lines_of two_records) ValueError 3).
  - reflexivity.
  - vm_compute. reflexivity.
  - vm_compute. discriminate.
  - vm_compute. reflexivity.
  - reflexivity.
Defined.

Lemma get_without_timeout_blocks_witness :
  @get ref_codec 50 true None (consumer_queue, file_of []) = None.
Proof.
  apply (@get_without_timeout_blocks ref_codec 50 (file_of [])). reflexivity.
Defined.

Lemma put_then_get_in_order_witness :
  exists w1,
    @put_all ref_codec [view_event; click_event] (producer_queue [], no_file)
    = (map (fun _ => Ok tt) [view_event; click_event],
       (producer_queue ([] ++ [view_event; click_event]), w1)) /\
    forall fuel block timeout,
      option_map fst
        (@get_n ref_codec (length [view_event; click_event]) (S fuel) block
           timeout (consumer_queue, w1))
      = Some (map Ok [view_event; click_event]).
Proof.
  apply (@put_then_get_in_order ref_codec ref_codec_laws
           [view_event; click_event] [] no_file); try reflexivity.
  apply Forall_cons; [split; reflexivity|].
  apply Forall_cons; [split; reflexivity | apply Forall_nil].
Defined.

Lemma get_skips_malformed_lines_witness :
  exists w',
    @get ref_codec (S (length [truncated_record])) true None
      (consumer_queue, file_of (text_lines [truncated_record] ++ two_records))
    = Some (Ok view_event, (consumer_queue, w')) /\
    qfile w' = Some (@encode_lines ref_codec [click_event]) /\
    (clock w'
     == clock (file_of (text_lines [truncated_record] ++ two_records))
        + inject_Z (Z.of_nat (length [truncated_record])) * (1 # 10))%Q /\
    ([truncated_record] <> [] ->
     signal (@get ref_codec 1 false None
               (consumer_queue,
                file_of (text_lines [truncated_record] ++ two_records)))
     = Some (Raise Empty)).
Proof.
  apply (@get_skips_malformed_lines ref_codec ref_codec_laws
           [truncated_record] view_event [click_event]
           (file_of (text_lines [truncated_record] ++ two_records)));
    try reflexivity.
  apply Forall_cons; [|apply Forall_nil].
  split; [not_in_text | split; [not_in_text|]].
  split; vm_compute; [discriminate | reflexivity].
Defined.

Lemma producer_size_goes_stale_witness :
  exists w1,
    @get ref_codec 1 false None (consumer_queue, file_of two_records)
    = Some (Ok view_event, (consumer_queue, w1)) /\
    fst (qsize (consumer_queue, file_of two_records))
    = Ok (S (length [click_event])) /\
    fst (qsize (consumer_queue, w1)) = Ok (length [click_event]) /\
    fst (qsize
         (producer_queue [view_event; click_event], file_of two_records))
    = Ok (length [view_event; click_event]) /\
    fst (qsize (producer_queue [view_event; click_event], w1))
    = Ok (length [view_event; click_event]).
Proof.
  apply (@producer_size_goes_stale ref_codec ref_codec_laws
           [view_event; click_event] view_event [click_event]
           (file_of two_records)); reflexivity.
Defined.

Lemma not_empty_yet_Empty_witness :
  fst (empty (consumer_queue, file_of blank_then_record))
  = Ok false /\
  signal (@get ref_codec 1 false None
            (consumer_queue, file_of blank_then_record))
  = Some (Raise Empty).
Proof.
  apply (@not_empty_yet_Empty ref_codec (file_of blank_then_record)
           blank_then_record (lit "  " ++ [LF])
           [RefJson.dumps view_event ++ [LF]]); reflexivity.
Defined.


Lemma non_object_body_status_witness :
  exists resp,
    @receive_event ref_codec (lit "2025-11-12T19:30:01") number_request
      (producer_queue [], no_file)
    = (Ok resp, (producer_queue [], no_file)) /\
    status resp = if body_raises_TypeError (PyInt 5) then 500 else 400.
Proof.
  apply (@non_object_body_status ref_codec (lit "2025-11-12T19:30:01")
           number_request (PyInt 5) (producer_queue [], no_file));
    try reflexivity.
  intros fields. discriminate.
Defined.

Lemma processor_stores_in_order_witness :
  exists w',
    @processor_turns ref_codec task_done_returns
      (length [view_event; click_event]) 1
      (consumer_queue, file_of two_records)
      {| events := Some sample_rows; sqlite_fails := false |}
    = Some ((consumer_queue, w'),
            {| events := Some (sample_rows ++ [view_row; click_row]);
               sqlite_fails := false |}) /\
    content w' = [].
Proof.
  apply (@processor_stores_in_order ref_codec task_done_returns ref_codec_laws
           0 [view_event; click_event] [view_row; click_row] sample_rows
           (file_of two_records)); try reflexivity.
  apply Forall2_cons; [split; [reflexivity | split; reflexivity]|].
  apply Forall2_cons; [split; [reflexivity | split; reflexivity]|].
  apply Forall2_nil.
Defined.

Lemma accepted_event_dropped_by_processor_witness :
  exists resp w1,
    @receive_event ref_codec (lit "2025-11-12T19:30:01") list_path_request
      (producer_queue [], no_file)
    = (Ok resp,
       (producer_queue
          ([] ++ [stamped (lit "2025-11-12T19:30:01") list_path_fields]),
        w1)) /\
    status resp = 200 /\
    content w1
    = @json_dumps ref_codec
        (stamped (lit "2025-11-12T19:30:01") list_path_fields) ++ [LF] /\
    @processor_turn ref_codec task_done_returns 1 (consumer_queue, w1)
      sample_db
    = Some ((consumer_queue, set_qfile [] w1), sample_db).
Proof.
  apply (@accepted_event_dropped_by_processor ref_codec task_done_returns
           ref_codec_laws (lit "2025-11-12T19:30:01") list_path_request
           list_path_fields (lit "path") (PyList []) [] no_file sample_db 0);
    try reflexivity.
  left. reflexivity.
Defined.

Lemma top_paths_are_the_most_viewed_witness :
  exists site rows,
    arg_site_id s1_args = Some site /\
    select_events site (date_pattern s1_args) sample_db = Done rows /\
    length (top_paths s1_stats) <= 3 /\
    StronglySorted no_fewer_views (top_paths s1_stats) /\
    NoDup (map fst (top_paths s1_stats)) /\
    forall p n, In (p, n) (top_paths s1_stats) ->
      p <> [] /\ 1 <= n /\ n = path_views rows p /\
      forall p', p' <> [] -> ~ In p' (map fst (top_paths s1_stats)) ->
                 path_views rows p' <= n.
Proof.
  apply (top_paths_are_the_most_viewed date_shape s1_args sample_db s1_stats
           200).
  vm_compute. reflexivity.
Defined.

Lemma totals_count_rows_and_users_witness :
  exists site rows users,
    arg_site_id s1_args = Some site /\
    select_events site (date_pattern s1_args) sample_db = Done rows /\
    total_views s1_stats = length rows /\
    unique_users s1_stats = length users /\
    unique_users s1_stats <= total_views s1_stats /\
    NoDup users /\
    forall u, In u users <-> u <> [] /\ In (Some u) (user_ids rows).
Proof.
  apply (totals_count_rows_and_users date_shape s1_args sample_db s1_stats
           200).
  vm_compute. reflexivity.
Defined.

Lemma stats_counts_rows_of_site_witness :
  exists st,
    get_stats date_shape
      {| arg_site_id := Some (lit "s1"); arg_date := Some (lit "2025-11-12") |}
      {| events := Some sample_rows; sqlite_fails := false |}
    = {| stats_body := Stats st; stats_status := 200 |} /\
    total_views st = 2.
Proof.
  apply (stats_counts_rows_of_site date_shape (lit "s1")
           (Some (lit "2025-11-12")) sample_rows).
  - discriminate.
  - split; reflexivity.
Defined.

Lemma accepted_event_is_counted_witness :
  exists resp w1 st st',
    @receive_event ref_codec (lit "2025-11-12T19:30:01") view_request
      (producer_queue [], no_file)
    = (Ok resp,
       (producer_queue
          ([] ++ [stamped (lit "2025-11-12T19:30:01") view_fields]), w1)) /\
    status resp = 200 /\
    @processor_turn ref_codec task_done_returns 1 (consumer_queue, w1)
      {| events := Some sample_rows; sqlite_fails := false |}
    = Some ((consumer_queue, set_qfile [] w1),
            {| events := Some (sample_rows ++ [stamped_view_row]);
               sqlite_fails := false |}) /\
    dict_get (lit "site_id") view_fields = Some (PyStr (lit "s1")) /\
    get_stats date_shape s1_args
      {| events := Some sample_rows; sqlite_fails := false |}
    = {| stats_body := Stats st; stats_status := 200 |} /\
    get_stats date_shape s1_args
      {| events := Some (sample_rows ++ [stamped_view_row]);
         sqlite_fails := false |}
    = {| stats_body := Stats st'; stats_status := 200 |} /\
    total_views st' = total_views st + 1.
Proof.
  apply (@accepted_event_is_counted ref_codec task_done_returns date_shape
           ref_codec_laws (lit "2025-11-12T19:30:01") view_request view_fields
           [] no_file sample_rows stamped_view_row 0); reflexivity.
Defined.

Lemma processor_turn_only_appends_witness :
  {| events := Some [view_row]; sqlite_fails := false |} = empty_table \/
  exists rows row,
    events empty_table = Some rows /\
    {| events := Some [view_row]; sqlite_fails := false |}
    = {| events := Some (rows ++ [row]);
         sqlite_fails := sqlite_fails empty_table |}.
Proof.
  apply (@processor_turn_only_appends ref_codec task_done_returns 1
           (consumer_queue, file_of two_records)
           (consumer_queue, file_of (@encode_lines ref_codec [click_event]))
           empty_table {| events := Some [view_row]; sqlite_fails := false |}).
  vm_compute. reflexivity.
Defined.

Lemma Empty_only_after_timeout_witness :
  (exists fuel w',
     @get ref_codec fuel true (Some (1 # 5)%Q) (consumer_queue, no_file)
     = Some (Raise Empty, (consumer_queue, w'))) /\
  forall fuel r s',
    @get ref_codec fuel true (Some (1 # 5)%Q) (consumer_queue, no_file)
    = Some (r, s') ->
    r = Raise Empty /\ fst s' = consumer_queue
    /\ qfile (snd s') = qfile no_file
    /\ ((1 # 5) <= clock (snd s') - clock no_file)%Q.
Proof.
  apply (@Empty_only_after_timeout ref_codec (1 # 5)%Q no_file). reflexivity.
Defined.

Lemma record_delivered_twice_witness :
  exists w1,
    @put ref_codec view_event false None (producer_queue [], no_file)
    = (Ok tt, (producer_queue [view_event], w1)) /\
    @get ref_codec 0 true (Some 1%Q) (producer_queue [view_event], w1)
    = Some (Ok view_event, (producer_queue [], w1)) /\
    @get ref_codec 1 true (Some 1%Q) (consumer_queue, w1)
    = Some (Ok view_event, (consumer_queue, set_qfile [] w1)).
Proof.
  apply (@record_delivered_twice ref_codec ref_codec_laws view_event no_file
           0 true (Some 1%Q)); try reflexivity.
  intros _ t H. injection H as <-. discriminate.
Defined.

Lemma processor_idle_turn_witness :
  exists fuel s1,
    @get ref_codec fuel true (Some 1%Q) (consumer_queue, no_file)
    = Some (Raise Empty, s1) /\
    @processor_turn ref_codec task_done_returns fuel (consumer_queue, no_file)
      sample_db
    = Some (s1, sample_db) /\
    qfile (snd s1) = qfile no_file /\
    (1 <= clock (snd s1) - clock no_file)%Q.
Proof.
  apply (@processor_idle_turn ref_codec task_done_returns no_file sample_db).
  reflexivity.
Defined.
